(** * pcd_segmentation_interface: a shallow embedding of the annotation core

    The first part follows the JavaScript sources module by module:
    [three.js] vectors, [MathUtils] (spatial predicates), [CoordinateFormat],
    [PointBuffer], [PointCloud], [LabelSelection], [ThreeUtils],
    [EditSelection], [CollectionUtils] with the maps of [SegmentPcd],
    [Picker], the drawing tools ([RectangleBox], [Polygon], [Curvature]),
    [RangeInput] and the part of [Scene] that refreshes the caches.  Next to the
    functions of the sources, a module may hold the notions in which the
    specification speaks about them (winding number, matched points, nearest
    hit); they come under a heading of their own.  The second part states
    and proves the properties of the specification, the third part further
    properties of the sources.

    Numeric model.  JavaScript numbers are embedded as rationals [Q]: every
    number is finite ([NaN], the infinities and the signed zero are outside
    the model, except where a function tests for [NaN] itself).  The
    arithmetic of [MathUtils], [ThreeUtils], [EditSelection] and the drawing
    tools is that of doubles: the result of [+], [-], [*], [/] and
    [Math.pow(x, 2)] is the exact result rounded to the nearest binary64
    number, ties to even, with gradual underflow ([Double.round]); the
    elements of a [Float32Array] built from points are rounded to binary32
    ([Double.fround]).  Negation, absolute value and comparisons are exact
    in doubles and so they are here.  The index arithmetic of [PointBuffer]
    (the quotient [numPoints], the bounds of a slice) is kept exact; it
    agrees with the doubles of the code on the integer indices and counts
    that the statements about buffers speak of.
    Strict comparison of numbers ([===], and [==] between numbers) is
    [Qeq_bool]; equality in statements about numbers is [==] on [Q].
    Integer-valued inputs (channel counts, array lengths) are [Z] or [nat].

    Effects.  A function that can throw returns an [option]; a function that
    logs or dispatches events returns what it wrote, in order, next to its
    result; objects that the sources mutate in place are passed and returned
    as values. *)

From Stdlib Require Import QArith ZArith List Bool String Lia Lqa Qround.
From Stdlib Require Import Qabs Qpower Permutation Ascii.
Import ListNotations.

Local Open Scope Q_scope.

(** ** Rounding to a binary floating-point format *)

Module Double.

(** The power of two with an integer exponent. *)
Definition twoTo (z : Z) : Q := 2 ^ z.

(** The binade of a positive number: the exponent [e] with
    [2^e <= q < 2^(e+1)]. *)
Definition binade (q : Q) : Z :=
  let e0 := (Z.log2 (Qnum q) - Z.log2 (Zpos (Qden q)))%Z in
  if Qle_bool (twoTo e0) q then e0 else (e0 - 1)%Z.

(** The nearest integer, a tie going to the even one. *)
Definition nearestEven (q : Q) : Z :=
  let f := Qfloor q in
  match Qcompare (q - inject_Z f) (1 # 2) with
  | Lt => f
  | Gt => (f + 1)%Z
  | Eq => if Z.even f then f else (f + 1)%Z
  end.

(** A positive number rounded to [prec] significant bits, the last bit
    never weighing less than [2^emin] (gradual underflow). *)
Definition roundPositive (prec emin : Z) (q : Q) : Q :=
  let p := Z.max (binade q - (prec - 1)) emin in
  inject_Z (nearestEven (q / twoTo p)) * twoTo p.

(** Rounding to nearest, ties to even, as IEEE 754 prescribes for the
    result of an arithmetic operation.  A result beyond the largest number
    of the format, which JavaScript turns into an infinity, is not
    treated. *)
Definition nearest (prec emin : Z) (q : Q) : Q :=
  let r := Qred q in
  match Qcompare r 0 with
  | Eq => 0
  | Gt => roundPositive prec emin r
  | Lt => - roundPositive prec emin (- r)
  end.

(** The rounded number as a fraction in lowest terms. *)
Definition roundTo (prec emin : Z) (q : Q) : Q := Qred (nearest prec emin q).

(** The format of JavaScript numbers (binary64). *)
Definition round : Q -> Q := roundTo 53 (-1074).

(** A number of that format: rounding leaves it as it is. *)
Definition isDouble (q : Q) : Prop := round q == q.

(** The largest number of that format, [Number.MAX_VALUE]. *)
Definition maxValue : Q := inject_Z (2 ^ 53 - 1) * twoTo 971.

(** The format of the elements of a [Float32Array] (binary32);
    [Math.fround]. *)
Definition fround : Q -> Q := roundTo 24 (-149).

(** The largest binary32 number. *)
Definition maxFloat32 : Q := inject_Z (2 ^ 24 - 1) * twoTo 104.

End Double.

(** ** Number helpers *)

Module Num.

(** [a < b] on numbers. *)
Definition ltb (a b : Q) : bool := negb (Qle_bool b a).

(** [a <= b] on numbers. *)
Definition leb (a b : Q) : bool := Qle_bool a b.

(** [a == b] / [a === b] on numbers. *)
Definition eqb (a b : Q) : bool := Qeq_bool a b.

(** [a + b], [a - b], [a * b] and [a / b] on numbers: the exact result
    rounded to a double. *)
Definition add (a b : Q) : Q := Double.round (a + b).

Definition sub (a b : Q) : Q := Double.round (a - b).

Definition mul (a b : Q) : Q := Double.round (a * b).

Definition div (a b : Q) : Q := Double.round (a / b).

(** [Math.pow(x, 2)]: the square, rounded to a double. *)
Definition pow2 (x : Q) : Q := Double.round (x * x).

End Num.

(** ** three.js vectors *)

Module Vector2.
Record t : Type := mk { x : Q; y : Q }.

(** [Vector2.equals(v)]: component-wise [===]. *)
Definition equals (a b : t) : bool :=
  Num.eqb (x b) (x a) && Num.eqb (y b) (y a).
End Vector2.

Module Vector3.
Record t : Type := mk { x : Q; y : Q; z : Q }.

(** [new THREE.Vector3()] *)
Definition zero : t := mk 0 0 0.

(** [Vector3.getComponent(index)]: throws on an index other than 0, 1, 2. *)
Definition getComponent (index : nat) (v : t) : option Q :=
  match index with
  | 0%nat => Some (x v)
  | 1%nat => Some (y v)
  | 2%nat => Some (z v)
  | _ => None
  end.

(** [Vector3.setComponent(index, value)]: throws on an index other than
    0, 1, 2; otherwise the updated vector. *)
Definition setComponent (index : nat) (value : Q) (v : t) : option t :=
  match index with
  | 0%nat => Some (mk value (y v) (z v))
  | 1%nat => Some (mk (x v) value (z v))
  | 2%nat => Some (mk (x v) (y v) value)
  | _ => None
  end.

(** [Vector3.equals(v)]: component-wise [===]. *)
Definition equals (a b : t) : bool :=
  Num.eqb (x b) (x a) && Num.eqb (y b) (y a) && Num.eqb (z b) (z a).
End Vector3.

(** ** MathUtils: spatial predicates *)

Module MathUtils.

(** [isPointInCircle(center, radius, point)] *)
Definition isPointInCircle (center : Vector2.t) (radius : Q) (point : Vector3.t) : bool :=
  Num.ltb (Num.add (Num.pow2 (Num.sub (Vector3.x point) (Vector2.x center)))
                   (Num.pow2 (Num.sub (Vector3.y point) (Vector2.y center))))
          (Num.pow2 radius).

(** [substitutePointOnLine(pointA, pointB, queryPoint)] *)
Definition substitutePointOnLine (pointA pointB : Vector2.t) (queryPoint : Vector3.t) : Q :=
  Num.sub
    (Num.mul (Num.sub (Vector3.y queryPoint) (Vector2.y pointA))
             (Num.sub (Vector2.x pointB) (Vector2.x pointA)))
    (Num.mul (Num.sub (Vector3.x queryPoint) (Vector2.x pointA))
             (Num.sub (Vector2.y pointB) (Vector2.y pointA))).

(** Reading [polygon[i]] for an index inside the array. *)
Definition at_index (polygon : list Vector2.t) (i : nat) : Vector2.t :=
  nth i polygon (Vector2.mk 0 0).

(** One iteration of the loop of [isPointInPolygon] at index [i] with the
    current [windingNum]: [None] is the early [return false], [Some w] the
    winding number after the iteration. *)
Definition loopBody (point : Vector3.t) (polygon : list Vector2.t)
    (windingNum : Z) (i : nat) : option Z :=
  let pointOnLine :=
    substitutePointOnLine (at_index polygon i)
      (at_index polygon ((i + 1) mod List.length polygon)) point in
  if Num.eqb pointOnLine 0 then None
  else if Num.leb (Vector2.y (at_index polygon i)) (Vector3.y point) then
    if Num.ltb (Vector3.y point)
         (Vector2.y (at_index polygon ((i + 1) mod List.length polygon))) then
      if Num.ltb 0 pointOnLine then Some (windingNum + 1)%Z else Some windingNum
    else Some windingNum
  else
    if Num.ltb (Vector2.y (at_index polygon ((i + 1) mod List.length polygon)))
         (Vector3.y point) then
      if Num.ltb pointOnLine 0 then Some (windingNum - 1)%Z else Some windingNum
    else Some windingNum.

(** The [for] loop over the remaining indices. *)
Fixpoint loop (point : Vector3.t) (polygon : list Vector2.t)
    (indices : list nat) (windingNum : Z) : option Z :=
  match indices with
  | [] => Some windingNum
  | i :: rest =>
      match loopBody point polygon windingNum i with
      | None => None
      | Some w => loop point polygon rest w
      end
  end.

(** [isPointInPolygon(point, polygon)] *)
Definition isPointInPolygon (point : Vector3.t) (polygon : list Vector2.t) : bool :=
  match loop point polygon (seq 0 (List.length polygon)) 0%Z with
  | None => false
  | Some windingNum => negb (windingNum =? 0)%Z
  end.

(** *** The loop, edge by edge *)

(** The polygon is an implicitly closed vertex loop: its edges join each
    vertex to the next one and the last vertex to the first. *)
Definition edges (polygon : list Vector2.t) : list (Vector2.t * Vector2.t) :=
  match polygon with
  | [] => []
  | first :: others => combine polygon (others ++ [first])
  end.

(** The edge read by the loop at index [i]. *)
Definition edgeAt (polygon : list Vector2.t) (i : nat) : Vector2.t * Vector2.t :=
  (at_index polygon i, at_index polygon ((i + 1) mod List.length polygon)).

(** The value of [pointOnLine] for an edge, as the loop computes it. *)
Definition crossTerm (point : Vector3.t) (e : Vector2.t * Vector2.t) : Q :=
  substitutePointOnLine (fst e) (snd e) point.

(** The first branch of the loop: the edge starts at or below the level of
    the point and ends strictly above it. *)
Definition countsUpward (point : Vector3.t) (e : Vector2.t * Vector2.t) : bool :=
  Num.leb (Vector2.y (fst e)) (Vector3.y point)
  && Num.ltb (Vector3.y point) (Vector2.y (snd e)).

(** The second branch of the loop: the edge starts strictly above the level
    of the point and ends strictly below it. *)
Definition countsDownward (point : Vector3.t) (e : Vector2.t * Vector2.t) : bool :=
  Num.ltb (Vector3.y point) (Vector2.y (fst e))
  && Num.ltb (Vector2.y (snd e)) (Vector3.y point).

(** What one iteration adds to [windingNum]. *)
Definition counted (point : Vector3.t) (e : Vector2.t * Vector2.t) : Z :=
  if countsUpward point e && Num.ltb 0 (crossTerm point e) then 1%Z
  else if countsDownward point e && Num.ltb (crossTerm point e) 0 then (-1)%Z
  else 0%Z.

(** The value of [windingNum] after the loop has run over all edges. *)
Definition loopCounter (point : Vector3.t) (polygon : list Vector2.t) : Z :=
  fold_left (fun acc e => (acc + counted point e)%Z) (edges polygon) 0%Z.

(** The loop takes its early return: [pointOnLine] is zero for some edge. *)
Definition zeroCrossTerm (point : Vector3.t) (polygon : list Vector2.t) : bool :=
  existsb (fun e => Num.eqb (crossTerm point e) 0) (edges polygon).

(** *** The reading of the specification: distance and winding number *)

(** The squared Euclidean distance, in the plane, from a point to a center. *)
Definition squaredDistance (point : Vector3.t) (center : Vector2.t) : Q :=
  (Vector3.x point - Vector2.x center) * (Vector3.x point - Vector2.x center)
  + (Vector3.y point - Vector2.y center) * (Vector3.y point - Vector2.y center).

(** The computation of [isPointInCircle] meets no rounding: the two
    differences, the three squares and the sum are doubles as they stand,
    none beyond the largest double. *)
Definition computedExactly (center : Vector2.t) (radius : Q) (point : Vector3.t) : Prop :=
  Num.add (Num.pow2 (Num.sub (Vector3.x point) (Vector2.x center)))
          (Num.pow2 (Num.sub (Vector3.y point) (Vector2.y center)))
  == squaredDistance point center
  /\ Num.pow2 radius == radius * radius
  /\ squaredDistance point center <= Double.maxValue
  /\ radius * radius <= Double.maxValue.

(** A multiple of [2^-k] whose magnitude is at most [2^24] steps of that
    size. *)
Definition onGrid (k : Z) (q : Q) : Prop :=
  exists z : Z, (Z.abs z <= 2 ^ 24)%Z /\ q == inject_Z z * Double.twoTo (- k).

(** The signed cross-product term of the query point with an edge: twice
    the signed area of the triangle of the edge and the point. *)
Definition crossProduct (point : Vector3.t) (e : Vector2.t * Vector2.t) : Q :=
  (Vector3.y point - Vector2.y (fst e)) * (Vector2.x (snd e) - Vector2.x (fst e))
  - (Vector3.x point - Vector2.x (fst e)) * (Vector2.y (snd e) - Vector2.y (fst e)).

(** The edge crosses the horizontal ray of the point upward: it starts at
    or below the level of the point and ends strictly above it. *)
Definition crossesUpward (point : Vector3.t) (e : Vector2.t * Vector2.t) : bool :=
  Num.leb (Vector2.y (fst e)) (Vector3.y point)
  && Num.ltb (Vector3.y point) (Vector2.y (snd e)).

(** The edge crosses the horizontal ray of the point downward: it starts
    strictly above the level of the point and ends at or below it.  The two
    crossings treat the level alike, so that a loop passing through the
    level at a vertex is counted once on its way and once on its way
    back. *)
Definition crossesDownward (point : Vector3.t) (e : Vector2.t * Vector2.t) : bool :=
  Num.ltb (Vector3.y point) (Vector2.y (fst e))
  && Num.leb (Vector2.y (snd e)) (Vector3.y point).

(** The contribution of one edge to the winding number. *)
Definition contribution (point : Vector3.t) (e : Vector2.t * Vector2.t) : Z :=
  if crossesUpward point e && Num.ltb 0 (crossProduct point e) then 1%Z
  else if crossesDownward point e && Num.ltb (crossProduct point e) 0 then (-1)%Z
  else 0%Z.

(** The accumulated winding number over all edges. *)
Definition windingNumber (point : Vector3.t) (polygon : list Vector2.t) : Z :=
  fold_right Z.add 0%Z (map (contribution point) (edges polygon)).

(** The rule of the specification: not inside when the cross-product term
    of some edge is zero, otherwise inside exactly when the winding number
    is not zero. *)
Definition insideByWinding (point : Vector3.t) (polygon : list Vector2.t) : bool :=
  if existsb (fun e => Num.eqb (crossProduct point e) 0) (edges polygon) then false
  else negb (windingNumber point polygon =? 0)%Z.

(** Polygons used by the examples. *)
Definition unitSquare : list Vector2.t :=
  [Vector2.mk (-1) (-1); Vector2.mk 1 (-1); Vector2.mk 1 1; Vector2.mk (-1) 1].

Definition diamond : list Vector2.t :=
  [Vector2.mk 0 (-1); Vector2.mk 1 0; Vector2.mk 0 1; Vector2.mk (-1) 0].

(** The same diamond run through clockwise. *)
Definition diamondClockwise : list Vector2.t :=
  [Vector2.mk 0 (-1); Vector2.mk (-1) 0; Vector2.mk 0 1; Vector2.mk 1 0].

End MathUtils.

(** ** Failure: a thrown exception is [None] *)

Definition bind {A B : Type} (c : option A) (k : A -> option B) : option B :=
  match c with
  | Some a => k a
  | None => None
  end.

Notation "x <- c ;; k" := (bind c (fun x => k))
  (at level 61, c at next level, right associativity).

(** ** CoordinateFormat *)

Module CoordinateFormat.

(** The class [CoordinateFormatSpec]: a name and, for each axis of
    [three.js], the index of that axis in the project's coordinates. *)
Record CoordinateFormatSpec : Type := mkSpec {
  name : string;
  xIdx : nat;
  yIdx : nat;
  zIdx : nat
}.

(** [toProjectCoords(threeJSCoords)]: three chained [setComponent] calls on a
    fresh vector. *)
Definition toProjectCoords (this : CoordinateFormatSpec) (threeJSCoords : Vector3.t)
    : option Vector3.t :=
  v1 <- Vector3.setComponent (xIdx this) (Vector3.x threeJSCoords) Vector3.zero ;;
  v2 <- Vector3.setComponent (yIdx this) (Vector3.y threeJSCoords) v1 ;;
  Vector3.setComponent (zIdx this) (Vector3.z threeJSCoords) v2.

(** [toThreeJSCoords(projectCoords)]: three [getComponent] reads. *)
Definition toThreeJSCoords (this : CoordinateFormatSpec) (projectCoords : Vector3.t)
    : option Vector3.t :=
  x <- Vector3.getComponent (xIdx this) projectCoords ;;
  y <- Vector3.getComponent (yIdx this) projectCoords ;;
  z <- Vector3.getComponent (zIdx this) projectCoords ;;
  Some (Vector3.mk x y z).

Definition XYZ : CoordinateFormatSpec := mkSpec "XYZ" 0 1 2.
Definition XZY : CoordinateFormatSpec := mkSpec "XZY" 0 2 1.
Definition YXZ : CoordinateFormatSpec := mkSpec "YXZ" 1 0 2.
Definition YZX : CoordinateFormatSpec := mkSpec "YZX" 2 0 1.
Definition ZXY : CoordinateFormatSpec := mkSpec "ZXY" 1 2 0.
Definition ZYX : CoordinateFormatSpec := mkSpec "ZYX" 2 1 0.

(** The frozen object [CoordinateFormat]: its six values in declaration
    order.  The class is not exported, so these are all the instances. *)
Definition CoordinateFormat : list CoordinateFormatSpec :=
  [XYZ; XZY; YXZ; YZX; ZXY; ZYX].

(** The three indices are a permutation of 0, 1, 2. *)
Definition isPermutation (f : CoordinateFormatSpec) : bool :=
  existsb (fun p => Nat.eqb (xIdx f) (fst (fst p)) && Nat.eqb (yIdx f) (snd (fst p))
                    && Nat.eqb (zIdx f) (snd p))
    [(0, 1, 2); (0, 2, 1); (1, 0, 2); (1, 2, 0); (2, 0, 1); (2, 1, 0)]%nat.

(** The axis of [three.js] named by a letter of a format's name. *)
Definition axisOf (letter : Ascii.ascii) (threeJSCoords : Vector3.t) : option Q :=
  if Ascii.eqb letter "X"%char then Some (Vector3.x threeJSCoords)
  else if Ascii.eqb letter "Y"%char then Some (Vector3.y threeJSCoords)
  else if Ascii.eqb letter "Z"%char then Some (Vector3.z threeJSCoords)
  else None.

End CoordinateFormat.

(** ** lodash helpers and typed-array slices *)

Module Lodash.

(** [_.clamp(number, lower, upper)]: first capped by [upper], then raised
    to [lower]. *)
Definition clamp (number lower upper : Q) : Q :=
  let capped := if Num.leb number upper then number else upper in
  if Num.leb lower capped then capped else lower.

(** [_.range(end)] for a non-negative [end]: the integers from 0 up to,
    and not including, the ceiling of [end]. *)
Definition range (end_ : Q) : list nat := seq 0 (Z.to_nat (Qceiling end_)).

End Lodash.

Module TypedArray.

(** Conversion of a number to an integer by truncation towards zero. *)
Definition toInteger (q : Q) : Z := Z.quot (Qnum q) (Zpos (Qden q)).

(** A relative index resolved against the length: a negative one counts from
    the end, and the result is kept inside [0, len]. *)
Definition resolve (len : Z) (relative : Z) : Z :=
  if (relative <? 0)%Z then Z.max (len + relative) 0 else Z.min relative len.

(** [Float32Array.prototype.slice(start, end)] *)
Definition slice (start end_ : Q) (arr : list Q) : list Q :=
  let len := Z.of_nat (List.length arr) in
  let k := resolve len (toInteger start) in
  let final := resolve len (toInteger end_) in
  firstn (Z.to_nat (final - k)) (skipn (Z.to_nat k) arr).

End TypedArray.

(** ** PointBuffer *)

Module PointBuffer.

(** The messages written by [console.error], with the values they print. *)
Inductive Diagnostic : Type :=
| TooFewChannels (numChannels : Z)
| ChannelsDoNotDivide (numChannels : Z) (dataLength : nat)
| PointIdxOutOfRange (pointIdx : Q) (numPoints : Q).

(** [checkNumChannels(data, numChannels)]: the cleaned channel count and the
    diagnostics logged. *)
Definition checkNumChannels (data : list Q) (numChannels : Z) : Z * list Diagnostic :=
  if (numChannels <? 3)%Z then
    (3%Z, [TooFewChannels numChannels])
  else if negb (Z.rem (Z.of_nat (List.length data)) numChannels =? 0)%Z then
    (Z.of_nat (List.length data), [ChannelsDoNotDivide numChannels (List.length data)])
  else
    (numChannels, []).

Record t : Type := mk {
  data : list Q;
  format : CoordinateFormat.CoordinateFormatSpec;
  numChannels : Z;
  numPoints : Q
}.

(** [new PointBuffer(data, format, numChannels)]: the buffer and the
    diagnostics logged by the constructor.  [numPoints] is the quotient of
    the two numbers as JavaScript's [/] gives it. *)
Definition new (data : list Q) (format : CoordinateFormat.CoordinateFormatSpec)
    (numChannels : Z) : t * list Diagnostic :=
  let cleanedNumChannels := fst (checkNumChannels data numChannels) in
  (mk data format cleanedNumChannels
      (inject_Z (Z.of_nat (List.length data)) / inject_Z cleanedNumChannels),
   snd (checkNumChannels data numChannels)).

(** [#checkPointIdx(pointIdx)] *)
Definition checkPointIdx (this : t) (pointIdx : Q) : Q * list Diagnostic :=
  if Num.ltb pointIdx 0 || Num.leb (numPoints this) pointIdx then
    (Lodash.clamp pointIdx 0 (numPoints this - 1),
     [PointIdxOutOfRange pointIdx (numPoints this)])
  else
    (pointIdx, []).

(** [getPoint(pointIdx)] *)
Definition getPoint (this : t) (pointIdx : Q) : list Q * list Diagnostic :=
  let cleanedPointIdx := fst (checkPointIdx this pointIdx) in
  (TypedArray.slice (inject_Z (numChannels this) * cleanedPointIdx)
                    (inject_Z (numChannels this) * (cleanedPointIdx + 1))
                    (data this),
   snd (checkPointIdx this pointIdx)).

(** [getPointCoords(pointIdx)].  The destructuring [[a, b, c]] of a slice
    with fewer than three values leaves the missing ones [undefined], and
    [new THREE.Vector3(a, b, c)] puts 0 in their place.  Console output is
    not tracked from here on. *)
Definition getPointCoords (this : t) (pointIdx : Q) : option Vector3.t :=
  let values := fst (getPoint this pointIdx) in
  CoordinateFormat.toThreeJSCoords (format this)
    (Vector3.mk (nth 0 values 0) (nth 1 values 0) (nth 2 values 0)).

(** [Array.prototype.map] with a callback that may throw. *)
Fixpoint mapM {A B : Type} (f : A -> option B) (l : list A) : option (list B) :=
  match l with
  | [] => Some []
  | a :: rest =>
      b <- f a ;;
      bs <- mapM f rest ;;
      Some (b :: bs)
  end.

(** [getCoords()] *)
Definition getCoords (this : t) : option (list Vector3.t) :=
  mapM (fun i => getPointCoords this (inject_Z (Z.of_nat i))) (Lodash.range (numPoints this)).

(** Data used by the examples. *)
Definition oneToTen : list Q := [1; 2; 3; 4; 5; 6; 7; 8; 9; 10].

Definition twelve : list Q := [10; 11; 12; 20; 21; 22; 30; 31; 32; 40; 41; 42].

(** *** The remaining methods of the class *)

(** The message written by [#checkChannelIdx]. *)
Inductive ChannelDiagnostic : Type :=
| ChannelIdxOutOfRange (channelIdx : Q) (numChannels : Z).

(** [#checkChannelIdx(channelIdx)] *)
Definition checkChannelIdx (this : t) (channelIdx : Q) : Q * list ChannelDiagnostic :=
  if Num.ltb channelIdx 0 || Num.leb (inject_Z (numChannels this)) channelIdx then
    (Lodash.clamp channelIdx 0 (inject_Z (numChannels this) - 1),
     [ChannelIdxOutOfRange channelIdx (numChannels this)])
  else
    (channelIdx, []).

(** Reading [data[k]]: a value for an integer [k] inside the array,
    [undefined] otherwise. *)
Definition element (arr : list Q) (k : Q) : option Q :=
  if Num.eqb (inject_Z (Qfloor k)) k && (0 <=? Qfloor k)%Z
  then nth_error arr (Z.to_nat (Qfloor k))
  else None.

(** [getChannel(channelIdx)]: the values and the diagnostics logged.  An
    [undefined] element is outside the numbers of this model and makes the
    result [None]. *)
Definition getChannel (this : t) (channelIdx : Q) : option (list Q) * list ChannelDiagnostic :=
  let cleanedChannelIdx := fst (checkChannelIdx this channelIdx) in
  (mapM (fun i => element (data this)
                    (inject_Z (Z.of_nat i) * inject_Z (numChannels this) + cleanedChannelIdx))
        (Lodash.range (numPoints this)),
   snd (checkChannelIdx this channelIdx)).

(** [clone()]: the constructor applied to a copy of the data. *)
Definition clone (this : t) : t * list Diagnostic :=
  new (data this) (format this) (numChannels this).

(** [THREE.BufferGeometry.setFromPoints(points)] followed by
    [getAttribute('position').array]: the coordinates of the points, three
    for each point, in order, each rounded to the binary32 number that the
    [Float32Array] of the attribute stores. *)
Definition positionArray (points : list Vector3.t) : list Q :=
  flat_map (fun p => [Double.fround (Vector3.x p); Double.fround (Vector3.y p);
                      Double.fround (Vector3.z p)]) points.

(** A point as the [Float32Array] holds it, for the statements about
    buffers built from points. *)
Definition stored (p : Vector3.t) : Vector3.t :=
  Vector3.mk (Double.fround (Vector3.x p)) (Double.fround (Vector3.y p))
             (Double.fround (Vector3.z p)).

(** The coordinates of the point do not exceed the largest binary32 number,
    so that none of them is stored as an infinity. *)
Definition withinFloat32 (p : Vector3.t) : Prop :=
  Qabs (Vector3.x p) <= Double.maxFloat32
  /\ Qabs (Vector3.y p) <= Double.maxFloat32
  /\ Qabs (Vector3.z p) <= Double.maxFloat32.

(** [fromBufferAttribute(bufferAttribute, format)] for the position
    attribute of a geometry: a float attribute of item size 3, so neither
    check throws. *)
Definition fromBufferAttribute (array : list Q)
    (format : CoordinateFormat.CoordinateFormatSpec) : t * list Diagnostic :=
  new array format 3.

(** [fromVec3Array(coordArray, format)]: [None] for the argument is [null],
    which is not an array and makes the method throw. *)
Definition fromVec3Array (coordArray : option (list Vector3.t))
    (format : CoordinateFormat.CoordinateFormatSpec) : option (t * list Diagnostic) :=
  match coordArray with
  | None => None
  | Some points => Some (fromBufferAttribute (positionArray points) format)
  end.

(** Reading of [_.clamp] on integer indices, for the statements about
    indices out of range: the nearest index of [0, count). *)
Definition clampIndex (count i : Z) : Z := Z.max 0 (Z.min i (count - 1)).

End PointBuffer.

(** ** PointCloud, LabelClass, LabelSelection *)

Module PointCloud.

(** The buffer, the cached projection of its points to normalized device
    coordinates, and the display size of the points (kept by the material
    of the rendered object in the source). *)
Record t : Type := mk {
  buffer : PointBuffer.t;
  bufferNDC : list Vector3.t;
  pointSize : Q
}.

(** [new PointCloud(buffer, pointSize)]: the constructor reads the
    coordinates of the buffer to build the rendered geometry, and the cache
    of projections starts empty. *)
Definition new (buffer : PointBuffer.t) (pointSize : Q) : option t :=
  coords <- PointBuffer.getCoords buffer ;;
  Some (mk buffer [] pointSize).

End PointCloud.

Module LabelClass.

Record t : Type := mk {
  id : Z;
  name : string;
  color : string
}.

End LabelClass.

Module LabelSelection.

(** [pointsNDC] has no initial value: it is [undefined] ([None]) until the
    scene assigns the projection; [labelClass] likewise. *)
Record t : Type := mk {
  id : Q;
  points : list Vector3.t;
  pointsNDC : option (list Vector3.t);
  pointSize : Q;
  labelClass : option LabelClass.t
}.

(** [new LabelSelection({id, points, pointSize})] *)
Definition new (id : Q) (points : list Vector3.t) (pointSize : Q) : t :=
  mk id points None pointSize None.

(** [updateSelectionPoints(points)]: the points are replaced wholesale. *)
Definition updateSelectionPoints (this : t) (points : list Vector3.t) : t :=
  mk (id this) points (pointsNDC this) (pointSize this) (labelClass this).

(** The setter of [labelClass]. *)
Definition set_labelClass (this : t) (value : LabelClass.t) : t :=
  mk (id this) (points this) (pointsNDC this) (pointSize this) (Some value).


End LabelSelection.

(** ** ThreeUtils: differences of point arrays *)

Module ThreeUtils.

(** [isCoordinatesInArray(array, point)] *)
Definition isCoordinatesInArray (array : list Vector3.t) (point : Vector3.t) : bool :=
  existsb (fun vec => Vector3.equals vec point) array.

(** [differenceOfArrays(arrA, arrB)] *)
Definition differenceOfArrays (arrA arrB : list Vector3.t) : list Vector3.t :=
  filter (fun point => negb (isCoordinatesInArray arrB point)) arrA.

(** *** Tolerances and checked settings *)

(** [EPSILON]: the double written [1e-07]. *)
Definition EPSILON : Q := Double.round (1 # 10000000).

(** [isAbsClose(a, b, tol)]; the default of [tol] is [EPSILON]. *)
Definition isAbsClose (a b tol : Q) : bool := Num.leb (Qabs (Num.sub a b)) tol.

(** [isRelClose(a, b, tol)]; the default of [tol] is [EPSILON]. *)
Definition isRelClose (a b tol : Q) : bool :=
  Num.leb (Num.mul (Num.sub 1 tol) b) a && Num.leb a (Num.mul (Num.add 1 tol) b).

(** The argument of [checkSize] and [checkOpacity]: [NaN], which both test
    for, or a number. *)
Inductive Setting : Type :=
| NaN
| Number (value : Q).

(** The messages written by [checkSize] and [checkOpacity], with the
    argument they print. *)
Inductive Diagnostic : Type :=
| NegativeSize (size : Setting)
| OpacityOutOfRange (opacity : Setting).

(** [checkSize(size)] *)
Definition checkSize (size : Setting) : Q * list Diagnostic :=
  match size with
  | NaN => (0, [NegativeSize size])
  | Number value =>
      if Num.ltb value 0 then (- value, [NegativeSize size]) else (value, [])
  end.

(** [checkOpacity(opacity)] *)
Definition checkOpacity (opacity : Setting) : Q * list Diagnostic :=
  match opacity with
  | NaN => (0, [OpacityOutOfRange opacity])
  | Number value =>
      if Num.ltb value 0 || Num.ltb 1 value
      then (Lodash.clamp value 0 1, [OpacityOutOfRange opacity])
      else (value, [])
  end.

(** *** Pixels and normalized device coordinates *)

(** What the conversions read from an HTML element: whether its document has
    a pointer-lock element, and its bounding rectangle. *)
Record DomElement : Type := mkDom {
  pointerLock : bool;
  left : Q;
  top : Q;
  width : Q;
  height : Q
}.

(** What the conversions read from a pointer event. *)
Record PointerEvent : Type := mkPointer {
  clientX : Q;
  clientY : Q;
  pageX : Q;
  pageY : Q;
  button : Z
}.

(** The two formulas shared by [getPointerNDC] and [pixelCoordsToNDC].
    Neither function checks the size of the element or throws: with a zero
    width or height the division gives an infinity or [NaN], which are
    outside the numbers of this model; [None] stands for such a result. *)
Definition toNDC (domElement : DomElement) (px py : Q) : option Vector2.t :=
  if Num.eqb (width domElement) 0 || Num.eqb (height domElement) 0 then None
  else Some (Vector2.mk
               (Num.sub (Num.mul (Num.div (Num.sub px (left domElement))
                                          (width domElement)) 2) 1)
               (- Num.sub (Num.mul (Num.div (Num.sub py (top domElement))
                                            (height domElement)) 2) 1)).

(** [getPointerNDC(domElement, event)] *)
Definition getPointerNDC (domElement : DomElement) (event : PointerEvent)
    : option Vector2.t :=
  if pointerLock domElement then Some (Vector2.mk 0 0)
  else toNDC domElement (clientX event) (clientY event).

(** [pixelCoordsToNDC(domElement, coord)] *)
Definition pixelCoordsToNDC (domElement : DomElement) (coord : Vector2.t)
    : option Vector2.t :=
  if pointerLock domElement then Some (Vector2.mk 0 0)
  else toNDC domElement (Vector2.x coord) (Vector2.y coord).

(** [pixelCoordsListToNDC(domElement, coordsList)] *)
Definition pixelCoordsListToNDC (domElement : DomElement) (coordsList : list Vector2.t)
    : option (list Vector2.t) :=
  PointBuffer.mapM (pixelCoordsToNDC domElement) coordsList.

(** [getPointerPosOnCanvas(event, canvas)], with the offsets of the canvas. *)
Definition getPointerPosOnCanvas (event : PointerEvent) (offsetLeft offsetTop : Q)
    : Vector2.t :=
  Vector2.mk (Num.sub (pageX event) offsetLeft) (Num.sub (pageY event) offsetTop).


(** *** Filtering a cloud *)

(** [filterPointCloud(pointCloud, points, mode)]: with a mode other than
    ['add'] and ['erase'] the filtered points stay [null] and
    [fromVec3Array] throws. *)
Definition filterPointCloud (pointCloud : PointCloud.t) (points : list Vector3.t)
    (mode : string) : option PointCloud.t :=
  filteredPoints <-
    (if String.eqb mode "add" then
       coords <- PointBuffer.getCoords (PointCloud.buffer pointCloud) ;;
       Some (Some (differenceOfArrays coords points))
     else if String.eqb mode "erase" then
       coords <- PointBuffer.getCoords (PointCloud.buffer pointCloud) ;;
       Some (Some (coords ++ points))
     else Some None) ;;
  pointBuffer <- PointBuffer.fromVec3Array filteredPoints CoordinateFormat.XYZ ;;
  PointCloud.new (fst pointBuffer) (PointCloud.pointSize pointCloud).

(** An element used by the examples: 800 by 600 pixels at the origin of the
    page, without pointer lock. *)
Definition canvas800x600 : DomElement := mkDom false 0 0 800 600.

End ThreeUtils.

(** ** EditSelection *)

Module EditSelection.

(** A drawn object: an array of vertices (polygon, box, curvature) or a
    circle [{center, radius}]. *)
Inductive Shape : Type :=
| Polygon (vertices : list Vector2.t)
| Circle (center : Vector2.t) (radius : Q).

(** The test applied by both queries to the cached projection of the point
    at one index.  The projection read at an index beyond the cache is
    [undefined]: the circle test and the polygon test with at least one
    vertex then read a property of [undefined] and throw, while the polygon
    test with no vertex never touches the point. *)
Definition inDrawnObject (object : Shape) (pointNDC : option Vector3.t) : option bool :=
  match object, pointNDC with
  | Polygon vertices, Some p => Some (MathUtils.isPointInPolygon p vertices)
  | Polygon [], None => Some false
  | Polygon (_ :: _), None => None
  | Circle center radius, Some p => Some (MathUtils.isPointInCircle center radius p)
  | Circle _ _, None => None
  end.

(** [Array.prototype.filter] with a callback that looks at the index only
    and may throw. *)
Fixpoint filterByIndex {A : Type} (keep : nat -> option bool) (i : nat) (l : list A)
    : option (list A) :=
  match l with
  | [] => Some []
  | a :: rest =>
      k <- keep i ;;
      kept <- filterByIndex keep (S i) rest ;;
      Some (if k then a :: kept else kept)
  end.

(** [#queryPointFromPcd(object, pointCloud)] *)
Definition queryPointFromPcd (object : Shape) (pointCloud : PointCloud.t)
    : option (list Vector3.t) :=
  coords <- PointBuffer.getCoords (PointCloud.buffer pointCloud) ;;
  filterByIndex
    (fun i => inDrawnObject object (nth_error (PointCloud.bufferNDC pointCloud) i))
    0 coords.

(** [#queryPointFromSelection(object, selection)]: indexing an [undefined]
    cache throws. *)
Definition queryPointFromSelection (object : Shape) (selection : LabelSelection.t)
    : option (list Vector3.t) :=
  filterByIndex
    (fun i =>
       match LabelSelection.pointsNDC selection with
       | None => None
       | Some cache => inDrawnObject object (nth_error cache i)
       end)
    0 (LabelSelection.points selection).

Inductive EventType : Type := selection_added | selection_changed.

(** The events dispatched by [EditSelection]. *)
Record EditSelectionEvent : Type := mkEvent {
  type : EventType;
  labelSelection : LabelSelection.t;
  queriedPoints : list Vector3.t
}.

(** The private state of the editor. *)
Record t : Type := mk {
  newLabelSelection : option LabelSelection.t
}.

(** [createSelection(object, labelClass, pointCloud)].  [random] is the value
    returned by [Math.random()].  The result is the editor afterwards and the
    events dispatched, in order; [None] when the call throws. *)
Definition createSelection (this : t) (object : Shape) (labelClass : LabelClass.t)
    (pointCloud : PointCloud.t) (random : Q) : option (t * list EditSelectionEvent) :=
  pointsInObj <- queryPointFromPcd object pointCloud ;;
  let selectionPoints := pointsInObj in
  if (0 <? List.length selectionPoints)%nat then
    let created :=
      LabelSelection.set_labelClass
        (LabelSelection.new (Num.add (Num.mul random 100) 5) selectionPoints
           (PointCloud.pointSize pointCloud))
        labelClass in
    Some (mk (Some created), [mkEvent selection_added created pointsInObj])
  else
    Some (this, []).

(** [modifySelection(object, pointCloud, labelSelection, mode)].  The result
    is the label selection afterwards and the events dispatched; [None] when
    the call throws. *)
Definition modifySelection (object : Shape) (pointCloud : PointCloud.t)
    (labelSelection : LabelSelection.t) (mode : string)
    : option (LabelSelection.t * list EditSelectionEvent) :=
  let selectionElement := LabelSelection.points labelSelection in
  if String.eqb mode "add" then
    pointsInObj <- queryPointFromPcd object pointCloud ;;
    let updated :=
      LabelSelection.updateSelectionPoints labelSelection (pointsInObj ++ selectionElement) in
    Some (updated, [mkEvent selection_changed updated pointsInObj])
  else if String.eqb mode "erase" then
    pointsInObj <- queryPointFromSelection object labelSelection ;;
    let updated :=
      LabelSelection.updateSelectionPoints labelSelection
        (ThreeUtils.differenceOfArrays selectionElement pointsInObj) in
    Some (updated, [mkEvent selection_changed updated pointsInObj])
  else
    Some (labelSelection, []).

(** *** The reading of the specification *)

(** The test of a drawn object on a projected point. *)
Definition inside (object : Shape) (pointNDC : Vector3.t) : bool :=
  match object with
  | Polygon vertices => MathUtils.isPointInPolygon pointNDC vertices
  | Circle center radius => MathUtils.isPointInCircle center radius pointNDC
  end.

(** The points whose cached projection, found at the same index, falls
    inside the drawn object. *)
Definition matchedPoints (object : Shape) (points cache : list Vector3.t)
    : list Vector3.t :=
  map fst (filter (fun pn => inside object (snd pn)) (combine points cache)).

(** Points with the same coordinates have projections with the same
    outcome of the test. *)
Definition sameOutcome (object : Shape) (points cache : list Vector3.t) : Prop :=
  forall p n q m,
    In (p, n) (combine points cache) -> In (q, m) (combine points cache) ->
    Vector3.equals p q = true -> inside object n = inside object m.


(** The erase mode as the specification states it: the point count of the
    selection decreases by exactly the number of matched points. *)
Definition eraseDropsMatchedCount (object : Shape) (pointCloud : PointCloud.t)
    (selection : LabelSelection.t) : Prop :=
  forall updated dispatched matched,
    modifySelection object pointCloud selection "erase" = Some (updated, dispatched) ->
    queryPointFromSelection object selection = Some matched ->
    (List.length (LabelSelection.points updated) + List.length matched
     = List.length (LabelSelection.points selection))%nat.

(** *** Inputs used by the examples *)

Definition unitCircle : Shape := Circle (Vector2.mk 0 0) 1.

(** A cloud of four points, those of [PointBuffer.twelve], with the first
    and the third projected inside the unit circle. *)
Definition fourPoints : PointCloud.t :=
  PointCloud.mk (fst (PointBuffer.new PointBuffer.twelve CoordinateFormat.XYZ 3))
    [Vector3.mk 0 0 0; Vector3.mk 2 0 0; Vector3.mk (1 # 2) (1 # 2) 0; Vector3.mk 0 3 0]
    2.

(** The same cloud with every point projected outside the unit circle. *)
Definition fourPointsOutside : PointCloud.t :=
  PointCloud.mk (fst (PointBuffer.new PointBuffer.twelve CoordinateFormat.XYZ 3))
    [Vector3.mk 5 0 0; Vector3.mk 2 0 0; Vector3.mk 5 5 0; Vector3.mk 0 3 0]
    2.

(** The same cloud with a cache that holds the projection of the first point
    only. *)
Definition partlyCached : PointCloud.t :=
  PointCloud.mk (fst (PointBuffer.new PointBuffer.twelve CoordinateFormat.XYZ 3))
    [Vector3.mk 0 0 0]
    2.

Definition car : LabelClass.t := LabelClass.mk 1 "car" "pink".

(** A selection of three distinct points with a current projection: the
    first and the last are inside the unit circle. *)
Definition threePoints : LabelSelection.t :=
  LabelSelection.mk 7
    [Vector3.mk 10 11 12; Vector3.mk 20 21 22; Vector3.mk 30 31 32]
    (Some [Vector3.mk 0 0 0; Vector3.mk 2 0 0; Vector3.mk (1 # 2) 0 0])
    2 (Some car).

(** A selection holding the same point twice, with a cache whose two
    entries differ: the first is inside the unit circle, the second is not. *)
Definition twins : LabelSelection.t :=
  LabelSelection.mk 7
    [Vector3.mk 10 11 12; Vector3.mk 10 11 12]
    (Some [Vector3.mk 0 0 0; Vector3.mk 5 5 0])
    2 (Some car).

End EditSelection.

(** ** CollectionUtils *)

Module CollectionUtils.

(** [every(collection, predicate)] *)
Fixpoint every {A : Type} (collection : list A) (predicate : A -> bool) : bool :=
  match collection with
  | [] => true
  | v :: rest => if negb (predicate v) then false else every rest predicate
  end.

(** [some(collection, predicate)] *)
Fixpoint some {A : Type} (collection : list A) (predicate : A -> bool) : bool :=
  match collection with
  | [] => false
  | v :: rest => if predicate v then true else some rest predicate
  end.

End CollectionUtils.

(** ** JavaScript maps, ReadonlyArrayMap and DefaultMap *)

Module JsMap.

Section WithKeys.

Context {K V : Type}.
Context (K_eq_dec : forall a b : K, {a = b} + {a <> b}).

(** A [Map]: its entries in insertion order, no key twice. *)
Definition t : Type := list (K * V).

(** [Map.prototype.get(key)]: [None] is [undefined]. *)
Fixpoint get (m : t) (key : K) : option V :=
  match m with
  | [] => None
  | (k, v) :: rest => if K_eq_dec k key then Some v else get rest key
  end.

(** [Map.prototype.has(key)] *)
Definition has (m : t) (key : K) : bool :=
  match get m key with
  | Some _ => true
  | None => false
  end.

(** [Map.prototype.set(key, value)]: the value of a present key is replaced
    where the key stands, a new key goes to the end. *)
Fixpoint set (m : t) (key : K) (value : V) : t :=
  match m with
  | [] => [(key, value)]
  | (k, v) :: rest =>
      if K_eq_dec k key then (k, value) :: rest else (k, v) :: set rest key value
  end.

(** [new Map(entries)] *)
Definition ofEntries (entries : list (K * V)) : t :=
  fold_left (fun m e => set m (fst e) (snd e)) entries [].

(** [Map.prototype.size] *)
Definition size (m : t) : nat := List.length m.

(** [Map.prototype.keys()] *)
Definition keys (m : t) : list K := map fst m.

End WithKeys.

End JsMap.

Module ReadonlyArrayMap.

Section WithKeys.

Context {K V : Type}.
Context (K_eq_dec : forall a b : K, {a = b} + {a <> b}).

Record t : Type := mk {
  getKey : V -> K;
  elements : list V;
  idxByKey : @JsMap.t K nat
}.

(** The constructor: [None] when it throws for duplicated keys. *)
Definition new (getKey : V -> K) (elements : list V) : option t :=
  let idxByKey :=
    JsMap.ofEntries K_eq_dec
      (combine (map getKey elements) (seq 0 (List.length elements))) in
  if negb (Nat.eqb (JsMap.size idxByKey) (List.length elements)) then None
  else Some (mk getKey elements idxByKey).

(** [findIndexByKey(key)] *)
Definition findIndexByKey (this : t) (key : K) : option nat :=
  if negb (JsMap.has K_eq_dec (idxByKey this) key) then None
  else JsMap.get K_eq_dec (idxByKey this) key.

(** [findByKey(key)] *)
Definition findByKey (this : t) (key : K) : option V :=
  match findIndexByKey this key with
  | None => None
  | Some idx => nth_error (elements this) idx
  end.

(** [includesByKey(key)] *)
Definition includesByKey (this : t) (key : K) : bool :=
  match findIndexByKey this key with
  | None => false
  | Some _ => true
  end.

(** The getter [length]. *)
Definition length (this : t) : nat := List.length (elements this).

End WithKeys.

End ReadonlyArrayMap.

Module DefaultMap.

Section WithKeys.

Context {K V : Type}.
Context (K_eq_dec : forall a b : K, {a = b} + {a <> b}).

(** The entries of the map and the factory of default values. *)
Record t : Type := mk {
  entries : @JsMap.t K V;
  defaultFactory : unit -> V
}.

(** [new DefaultMap(defaultFactory, entries)] *)
Definition new (defaultFactory : unit -> V) (entries : list (K * V)) : t :=
  mk (JsMap.ofEntries K_eq_dec entries) defaultFactory.

(** [get(key)]: the value returned by [super.get] and the map afterwards. *)
Definition get (this : t) (key : K) : option V * t :=
  let this1 :=
    if negb (JsMap.has K_eq_dec (entries this) key)
    then mk (JsMap.set K_eq_dec (entries this) key (defaultFactory this tt))
            (defaultFactory this)
    else this in
  (JsMap.get K_eq_dec (entries this1) key, this1).

(** [has(key)], inherited from [Map]. *)
Definition has (this : t) (key : K) : bool := JsMap.has K_eq_dec (entries this) key.

End WithKeys.

End DefaultMap.

(** ** KeyView *)

Module KeyView.

Section WithKeys.

Context {K V : Type}.
Context (K_eq_dec : forall a b : K, {a = b} + {a <> b}).

(** The view holds the map itself. *)
Record t : Type := mk { map : @JsMap.t K V }.

(** [has(value)] *)
Definition has (this : t) (value : K) : bool := JsMap.has K_eq_dec (map this) value.

(** The getter [size]. *)
Definition size (this : t) : nat := JsMap.size (map this).

(** [values()] and [keys()] *)
Definition values (this : t) : list K := JsMap.keys (map this).

(** [entries()] *)
Definition entries (this : t) : list (K * K) :=
  List.map (fun v => (v, v)) (values this).

End WithKeys.

End KeyView.

(** ** Picker *)

Module Picker.

Section WithObjects.

(** The type of the objects that can be picked, compared by identity, and
    the state of the raycaster. *)
Context {TObject : Type}.
Context (TObject_eq_dec : forall a b : TObject, {a = b} + {a <> b}).
Context {Raycaster : Type}.

(** [a === b] on objects. *)
Definition same (a b : TObject) : bool :=
  if TObject_eq_dec a b then true else false.

(** An intersection as returned by the raycast function: only its distance
    is read. *)
Record Intersection : Type := mkIntersection { distance : Q }.

(** The iterable assigned to [objects]: the setter compares iterables by
    reference, so each carries the identity of the reference next to its
    elements in iteration order. *)
Record Iterable : Type := mkIterable {
  reference : nat;
  elements : list TObject
}.

Inductive EventType : Type := hoverin | hoverout | selectin | selectout.

Record PickerEvent : Type := mkEvent {
  type : EventType;
  object : TObject;
  isFromPointer : bool
}.

(** What a call leaves behind: events dispatched and console warnings. *)
Inductive Output : Type :=
| Dispatch (e : PickerEvent)
| Warn (message : string).

Record t : Type := mk {
  hoverEnabled : bool;
  selectEnabled : bool;
  objects : Iterable;
  raycastFunc : TObject -> Raycaster -> list Intersection;
  raycaster : Raycaster;
  hoveredObj : option TObject;
  selectedObj : option TObject
}.

(** [prev !== value] on nullable objects. *)
Definition differs (prev value : option TObject) : bool :=
  match prev, value with
  | None, None => false
  | Some a, Some b => negb (same a b)
  | _, _ => true
  end.

(** The current minimum of [getHoveredObj]: [None] is positive infinity. *)
Definition closer (d : Q) (minDistance : option Q) : bool :=
  match minDistance with
  | None => true
  | Some m => Num.ltb d m
  end.

(** The loop of [getHoveredObj] over the remaining objects, carrying
    [hoveredObj] and [minDistance]. *)
Fixpoint getHoveredObj_loop (this : t) (remaining : list TObject)
    (hovered : option TObject) (minDistance : option Q) : option TObject :=
  match remaining with
  | [] => hovered
  | obj :: rest =>
      match raycastFunc this obj (raycaster this) with
      | [] => getHoveredObj_loop this rest hovered minDistance
      | first :: _ =>
          if closer (distance first) minDistance
          then getHoveredObj_loop this rest (Some obj) (Some (distance first))
          else getHoveredObj_loop this rest hovered minDistance
      end
  end.

(** [getHoveredObj()] *)
Definition getHoveredObj (this : t) : option TObject :=
  getHoveredObj_loop this (elements (objects this)) None None.

(** *** The reading of the specification: the nearest hit *)

(** The distance of the first intersection of an object with the current
    ray, when there is one. *)
Definition firstDistance (this : t) (obj : TObject) : option Q :=
  match raycastFunc this obj (raycaster this) with
  | [] => None
  | first :: _ => Some (distance first)
  end.

(** [result] is the nearest hit among [objs]: no object intersects and the
    result is null, or the result sits at some position of [objs], its first
    intersection is at most as far as that of every other object, and
    strictly nearer than that of every object before it. *)
Definition nearestFirst (this : t) (objs : list TObject) (result : option TObject) : Prop :=
  match result with
  | None => forall o, In o objs -> firstDistance this o = None
  | Some o =>
      exists i d,
        nth_error objs i = Some o
        /\ firstDistance this o = Some d
        /\ forall j o' d',
             nth_error objs j = Some o' -> firstDistance this o' = Some d' ->
             d <= d' /\ ((j < i)%nat -> d < d')
  end.

(** The invariant of the loop of [getHoveredObj] once the objects [done]
    have been visited. *)
Definition tracked (this : t) (done : list TObject)
    (hovered : option TObject) (minDistance : option Q) : Prop :=
  match hovered, minDistance with
  | None, None => forall o, In o done -> firstDistance this o = None
  | Some o, Some m =>
      exists i,
        nth_error done i = Some o
        /\ firstDistance this o = Some m
        /\ forall j o' d',
             nth_error done j = Some o' -> firstDistance this o' = Some d' ->
             m <= d' /\ ((j < i)%nat -> m < d')
  | _, _ => False
  end.

(** *** Assignments and listeners *)

(** Commands on the picker: the state afterwards and the output, in order. *)
Definition Command : Type := t -> t * list Output.

Definition andThen (c1 c2 : Command) : Command :=
  fun this =>
    let r1 := c1 this in
    let r2 := c2 (fst r1) in
    (fst r2, snd r1 ++ snd r2).

Definition with_hoveredObj (this : t) (value : option TObject) : t :=
  mk (hoverEnabled this) (selectEnabled this) (objects this) (raycastFunc this)
     (raycaster this) value (selectedObj this).

Definition with_selectedObj (this : t) (value : option TObject) : t :=
  mk (hoverEnabled this) (selectEnabled this) (objects this) (raycastFunc this)
     (raycaster this) (hoveredObj this) value.

Definition with_hoverEnabled (this : t) (value : bool) : t :=
  mk value (selectEnabled this) (objects this) (raycastFunc this)
     (raycaster this) (hoveredObj this) (selectedObj this).

Definition with_selectEnabled (this : t) (value : bool) : t :=
  mk (hoverEnabled this) value (objects this) (raycastFunc this)
     (raycaster this) (hoveredObj this) (selectedObj this).

Definition with_objects (this : t) (value : Iterable) : t :=
  mk (hoverEnabled this) (selectEnabled this) value (raycastFunc this)
     (raycaster this) (hoveredObj this) (selectedObj this).

Definition with_raycaster (this : t) (value : Raycaster) : t :=
  mk (hoverEnabled this) (selectEnabled this) (objects this) (raycastFunc this)
     value (hoveredObj this) (selectedObj this).

(** The output for the value leaving a role. *)
Definition leave (kind : EventType) (prev : option TObject) (isFromPointer : bool)
    : list Output :=
  match prev with
  | Some o => [Dispatch (mkEvent kind o isFromPointer)]
  | None => []
  end.

(** The output for the value entering a role: the warning when no tracked
    object is the value, then the event. *)
Definition enter (this : t) (kind : EventType) (message : string)
    (value : option TObject) (isFromPointer : bool) : list Output :=
  match value with
  | Some o =>
      (if CollectionUtils.every (elements (objects this)) (fun e => negb (same e o))
       then [Warn message] else [])
      ++ [Dispatch (mkEvent kind o isFromPointer)]
  | None => []
  end.

(** [#setHoveredObj(value, isFromPointer)] *)
Definition setHoveredObj (value : option TObject) (isFromPointer : bool) : Command :=
  fun this =>
    let prevHoveredObj := hoveredObj this in
    if differs prevHoveredObj value then
      (with_hoveredObj this value,
       leave hoverout prevHoveredObj isFromPointer
       ++ enter this hoverin "This picker does not interact with the object to hover over"
            value isFromPointer)
    else (this, []).

(** [#setSelectedObj(value, isFromPointer)] *)
Definition setSelectedObj (value : option TObject) (isFromPointer : bool) : Command :=
  fun this =>
    let prevSelectedObj := selectedObj this in
    if differs prevSelectedObj value then
      (with_selectedObj this value,
       leave selectout prevSelectedObj isFromPointer
       ++ enter this selectin "This picker does not interact with the object to select"
            value isFromPointer)
    else (this, []).

(** The setters of [hoveredObj] and [selectedObj]. *)
Definition set_hoveredObj (value : option TObject) : Command := setHoveredObj value false.

Definition set_selectedObj (value : option TObject) : Command := setSelectedObj value false.

(** The setter of [hoverEnabled]. *)
Definition set_hoverEnabled (value : bool) : Command :=
  fun this =>
    let this1 := with_hoverEnabled this value in
    if value then set_hoveredObj (getHoveredObj this1) this1
    else set_hoveredObj None this1.

(** Assignment to the plain field [selectEnabled]. *)
Definition set_selectEnabled (value : bool) : Command :=
  fun this => (with_selectEnabled this value, []).

(** The setter of [objects]. *)
Definition set_objects (value : Iterable) : Command :=
  fun this =>
    if negb (Nat.eqb (reference (objects this)) (reference value)) then
      andThen (set_selectedObj None) (set_hoveredObj None) (with_objects this value)
    else (this, []).

(** The [pointermove] listener: [moved] is the raycaster after
    [updateRaycaster]. *)
Definition onPointerMove (moved : Raycaster) : Command :=
  fun this =>
    let this1 := with_raycaster this moved in
    if hoverEnabled this1 then setHoveredObj (getHoveredObj this1) true this1
    else (this1, []).

(** The [pointerdown] listener. *)
Definition onPointerDown (button : Z) : Command :=
  fun this =>
    if (button =? 0)%Z then
      if selectEnabled this then setSelectedObj (getHoveredObj this) true this
      else (this, [])
    else (this, []).

(** *** The reading of the specification: transitions *)

(** The events of a transition: the one for the value that leaves, then the
    one for the value that enters. *)
Definition transitionEvents (out into : EventType) (prev value : option TObject)
    (isFromPointer : bool) : list PickerEvent :=
  match prev with
  | Some o => [mkEvent out o isFromPointer]
  | None => []
  end
  ++ match value with
     | Some o => [mkEvent into o isFromPointer]
     | None => []
     end.

(** The dispatched events among the output. *)
Definition events (out : list Output) : list PickerEvent :=
  flat_map (fun o => match o with Dispatch e => [e] | Warn _ => [] end) out.

(** The warnings among the output. *)
Definition warnings (out : list Output) : list string :=
  flat_map (fun o => match o with Dispatch _ => [] | Warn m => [m] end) out.

(** *** Sequences of interactions *)

(** What can happen to a picker from outside without naming an object: the
    two pointer events it listens to and the assignments to [hoverEnabled],
    [selectEnabled] and [objects]. *)
Inductive Action : Type :=
| PointerMove (moved : Raycaster)
| PointerDown (button : Z)
| SetHoverEnabled (value : bool)
| SetSelectEnabled (value : bool)
| SetObjects (value : Iterable).

Definition perform (action : Action) : Command :=
  match action with
  | PointerMove moved => onPointerMove moved
  | PointerDown button => onPointerDown button
  | SetHoverEnabled value => set_hoverEnabled value
  | SetSelectEnabled value => set_selectEnabled value
  | SetObjects value => set_objects value
  end.

Fixpoint performAll (actions : list Action) : Command :=
  match actions with
  | [] => fun this => (this, [])
  | action :: rest => andThen (perform action) (performAll rest)
  end.

(** A nullable object is null or one of the objects of the picker. *)
Definition isTracked (this : t) (value : option TObject) : Prop :=
  match value with
  | None => True
  | Some o => In o (elements (objects this))
  end.

(** The hovered and the selected object are objects of the picker. *)
Definition consistent (this : t) : Prop :=
  isTracked this (hoveredObj this) /\ isTracked this (selectedObj this).

End WithObjects.

End Picker.

(** ** RectangleBox *)

Module RectangleBox.

(** The state of the tool: the fields of [DrawingTool], the offsets of the
    canvas, whether the canvas gave a 2-D context, and the two corners.  The
    list of vertices is empty between two calls of [#end]; what the tool
    paints on the canvas is not part of the state. *)
Record t : Type := mk {
  baseElement : ThreeUtils.DomElement;
  offsetLeft : Q;
  offsetTop : Q;
  mode : string;
  enabled : bool;
  hasContext : bool;
  isDrawing : bool;
  startPos : Vector2.t;
  endPos : Vector2.t
}.

(** The events dispatched by the tool; [end_draw] carries the drawn
    object. *)
Inductive DrawEvent : Type :=
| begin_draw
| end_draw (drawnObject : list Vector2.t).

(** [#setBoxCoords()] on the empty list of vertices. *)
Definition setBoxCoords (startPos endPos : Vector2.t) : list Vector2.t :=
  [startPos;
   Vector2.mk (Vector2.x startPos) (Vector2.y endPos);
   endPos;
   Vector2.mk (Vector2.x endPos) (Vector2.y startPos)].

(** [#getClientOffset(event)] *)
Definition getClientOffset (this : t) (event : ThreeUtils.PointerEvent) : Vector2.t :=
  ThreeUtils.getPointerPosOnCanvas event (offsetLeft this) (offsetTop this).

(** [onPointerDown(event)]: the corner and the flag are set whether or not
    there is a context; only [start] looks at it. *)
Definition onPointerDown (this : t) (event : ThreeUtils.PointerEvent) : t :=
  if negb (enabled this) || negb (String.eqb (mode this) "draw") then this
  else if negb (ThreeUtils.button event =? 0)%Z then this
  else mk (baseElement this) (offsetLeft this) (offsetTop this) (mode this)
          (enabled this) (hasContext this) true (getClientOffset this event)
          (endPos this).

(** [onPointerMove(event)]: the state afterwards and the events
    dispatched. *)
Definition onPointerMove (this : t) (event : ThreeUtils.PointerEvent)
    : t * list DrawEvent :=
  if negb (enabled this) || negb (isDrawing this) then (this, [])
  else if negb (hasContext this) then (this, [])
  else (mk (baseElement this) (offsetLeft this) (offsetTop this) (mode this)
           (enabled this) (hasContext this) (isDrawing this) (startPos this)
           (getClientOffset this event),
        [begin_draw]).

(** [#end()]: [None] when the conversion of the vertices leaves the numbers
    of the model. *)
Definition finish (this : t) : option (t * list DrawEvent) :=
  if negb (hasContext this) then Some (this, [])
  else
    boxNDC <- ThreeUtils.pixelCoordsListToNDC (baseElement this)
                (setBoxCoords (startPos this) (endPos this)) ;;
    Some (mk (baseElement this) (offsetLeft this) (offsetTop this) (mode this)
             (enabled this) (hasContext this) false (startPos this) (endPos this),
          [end_draw boxNDC]).

(** [onPointerUp(event)] *)
Definition onPointerUp (this : t) (event : ThreeUtils.PointerEvent)
    : option (t * list DrawEvent) :=
  if negb (enabled this) || negb (String.eqb (mode this) "draw") then Some (this, [])
  else if negb (ThreeUtils.button event =? 0)%Z then Some (this, [])
  else finish this.

(** A tool used by the examples: enabled, in draw mode, with a context, on
    the 800 by 600 element, with both corners at the origin. *)
Definition boxTool : t :=
  mk ThreeUtils.canvas800x600 0 0 "draw" true true false (Vector2.mk 0 0)
     (Vector2.mk 0 0).

End RectangleBox.

(** ** RangeInput *)

Module RangeInput.

(** The numeric fields of the widget; a bound that was never assigned is
    [undefined] ([None]), and so is the value. *)
Record t : Type := mk {
  min : option Q;
  max : option Q;
  value : option Q
}.

(** [_.clamp(number, lower, upper)] with bounds that may be [undefined]:
    without an upper bound the lower one takes its place and nothing bounds
    from below. *)
Definition clamp (number : Q) (lower upper : option Q) : Q :=
  match upper with
  | None =>
      match lower with
      | None => number
      | Some l => if Num.leb number l then number else l
      end
  | Some u =>
      let capped := if Num.leb number u then number else u in
      match lower with
      | None => capped
      | Some l => if Num.leb l capped then capped else l
      end
  end.

(** [this.value !== value] for the stored value and a number. *)
Definition differs (stored : option Q) (value : Q) : bool :=
  match stored with
  | None => true
  | Some s => negb (Num.eqb s value)
  end.

(** The setter of [value]. *)
Definition set_value (this : t) (value : Q) : t :=
  if differs (RangeInput.value this) value
  then mk (min this) (max this) (Some (clamp value (min this) (max this)))
  else this.

(** The setters of [min] and [max]: the stored value is not touched. *)
Definition set_min (this : t) (value : Q) : t :=
  if differs (min this) value
  then mk (Some value) (max this) (RangeInput.value this)
  else this.

Definition set_max (this : t) (value : Q) : t :=
  if differs (max this) value
  then mk (min this) (Some value) (RangeInput.value this)
  else this.

(** [#onInputChange(event)] for a target that is an input element holding
    the number [valueAsNumber]: the widget afterwards and the argument
    passed to [onchange]. *)
Definition onInputChange (this : t) (valueAsNumber : Q) : t * option Q :=
  (set_value this valueAsNumber, RangeInput.value (set_value this valueAsNumber)).

End RangeInput.

(** ** The polygon and the curvature tool *)

Module PolygonTool.

(** The state of the tool: the fields of [DrawingTool], the offsets of the
    canvas, whether the canvas gave a 2-D context, and the vertices.  What
    the tool paints on the canvas is not part of the state. *)
Record t : Type := mk {
  baseElement : ThreeUtils.DomElement;
  offsetLeft : Q;
  offsetTop : Q;
  mode : string;
  enabled : bool;
  hasContext : bool;
  isDrawing : bool;
  vertices : list Vector2.t
}.

(** The event dispatched by the tool, with the drawn object. *)
Inductive DrawEvent : Type :=
| end_draw (drawnObject : list Vector2.t).

(** [#getClientOffset(event)] *)
Definition getClientOffset (this : t) (event : ThreeUtils.PointerEvent) : Vector2.t :=
  ThreeUtils.getPointerPosOnCanvas event (offsetLeft this) (offsetTop this).

(** [#isCoordsExist(coords)]: [isCoordinatesInArray] on the vertices. *)
Definition isCoordsExist (this : t) (coords : Vector2.t) : bool :=
  existsb (fun vec => Vector2.equals vec coords) (vertices this).

(** [onPointerDown(event)] *)
Definition onPointerDown (this : t) (event : ThreeUtils.PointerEvent) : t :=
  if negb (enabled this) || negb (String.eqb (mode this) "draw") then this
  else if negb (ThreeUtils.button event =? 0)%Z then this
  else if negb (hasContext this) then this
  else
    let newCoords := getClientOffset this event in
    mk (baseElement this) (offsetLeft this) (offsetTop this) (mode this)
       (enabled this) (hasContext this) true
       (if negb (isCoordsExist this newCoords)
        then vertices this ++ [newCoords]
        else vertices this).

(** [#end()], the listener of [dblclick]: [None] when the conversion of the
    vertices leaves the numbers of the model. *)
Definition finish (this : t) : option (t * list DrawEvent) :=
  if negb (hasContext this) then Some (this, [])
  else
    polygonNDC <- ThreeUtils.pixelCoordsListToNDC (baseElement this) (vertices this) ;;
    Some (mk (baseElement this) (offsetLeft this) (offsetTop this) (mode this)
             (enabled this) (hasContext this) false [],
          [end_draw polygonNDC]).

(** No two vertices have the same coordinates. *)
Definition distinct (vs : list Vector2.t) : Prop :=
  forall i j p q,
    nth_error vs i = Some p -> nth_error vs j = Some q ->
    Vector2.equals p q = true -> i = j.

(** A tool used by the examples: enabled, in draw mode, on the 800 by 600
    element, with no vertex yet. *)
Definition polygonTool : t :=
  mk ThreeUtils.canvas800x600 0 0 "draw" true true false [].

End PolygonTool.

Module Curvature.

(** The state of the tool, as for the polygon tool. *)
Record t : Type := mk {
  baseElement : ThreeUtils.DomElement;
  offsetLeft : Q;
  offsetTop : Q;
  mode : string;
  enabled : bool;
  hasContext : bool;
  isDrawing : bool;
  vertices : list Vector2.t
}.

Inductive DrawEvent : Type :=
| end_draw (drawnObject : list Vector2.t).

(** [#getClientOffset(event)] *)
Definition getClientOffset (this : t) (event : ThreeUtils.PointerEvent) : Vector2.t :=
  ThreeUtils.getPointerPosOnCanvas event (offsetLeft this) (offsetTop this).

(** [onPointerMove(event)] *)
Definition onPointerMove (this : t) (event : ThreeUtils.PointerEvent) : t :=
  if negb (enabled this) || negb (isDrawing this) then this
  else mk (baseElement this) (offsetLeft this) (offsetTop this) (mode this)
          (enabled this) (hasContext this) (isDrawing this)
          (vertices this ++ [getClientOffset this event]).

(** [onPointerDown(event)] *)
Definition onPointerDown (this : t) (event : ThreeUtils.PointerEvent) : t :=
  if negb (enabled this) || negb (String.eqb (mode this) "draw") then this
  else if negb (ThreeUtils.button event =? 0)%Z then this
  else if negb (hasContext this) then this
  else mk (baseElement this) (offsetLeft this) (offsetTop this) (mode this)
          (enabled this) (hasContext this) true
          (vertices this ++ [getClientOffset this event]).

(** [#end()]: [None] when the conversion of the vertices leaves the numbers
    of the model. *)
Definition finish (this : t) : option (t * list DrawEvent) :=
  if negb (hasContext this) then Some (this, [])
  else
    curveNDC <- ThreeUtils.pixelCoordsListToNDC (baseElement this) (vertices this) ;;
    Some (mk (baseElement this) (offsetLeft this) (offsetTop this) (mode this)
             (enabled this) (hasContext this) false [],
          [end_draw curveNDC]).

(** [onPointerUp(event)] *)
Definition onPointerUp (this : t) (event : ThreeUtils.PointerEvent)
    : option (t * list DrawEvent) :=
  if negb (enabled this) || negb (String.eqb (mode this) "draw") then Some (this, [])
  else if negb (ThreeUtils.button event =? 0)%Z then Some (this, [])
  else if negb (hasContext this) then Some (this, [])
  else finish this.

(** A tool used by the examples: enabled, in draw mode, on the 800 by 600
    element, with no vertex yet. *)
Definition curvatureTool : t :=
  mk ThreeUtils.canvas800x600 0 0 "draw" true true false [].

End Curvature.

(** ** Scene: the refreshed caches *)

Module Scene.



End Scene.

(** ** Concrete inputs used by the examples *)

Module PickerExample.

(** Three objects, identified by 0, 1 and 2, hit by the current ray at the
    distances 5, 2 and 8. *)
Definition raycast (obj : nat) (ray : unit) : list Picker.Intersection :=
  match obj with
  | 0%nat => [Picker.mkIntersection 5]
  | 1%nat => [Picker.mkIntersection 2; Picker.mkIntersection 3]
  | 2%nat => [Picker.mkIntersection 8]
  | _ => []
  end.

Definition threeObjects : Picker.Iterable := Picker.mkIterable 1 [0; 1; 2]%nat.

Definition withoutNearest : Picker.Iterable := Picker.mkIterable 2 [0; 2]%nat.

Definition initial : Picker.t :=
  Picker.mk true true threeObjects raycast tt None None.

(** The same picker while object 1 is hovered and object 2 is selected. *)
Definition busy : Picker.t :=
  Picker.mk true true threeObjects raycast tt (Some 1%nat) (Some 2%nat).

End PickerExample.

(** * Properties *)

(** ** Comparisons of numbers *)

Lemma Num_ltb_lt (a b : Q) : Num.ltb a b = true <-> a < b.
Proof.
  unfold Num.ltb. rewrite negb_true_iff.
  split; intros H.
  - apply Qnot_le_lt. intros Hle. apply Qle_bool_iff in Hle. congruence.
  - destruct (Qle_bool b a) eqn:E; [|reflexivity].
    apply Qle_bool_iff in E. exfalso. apply (Qlt_not_le _ _ H E).
Qed.

Lemma Num_ltb_ge (a b : Q) : Num.ltb a b = false <-> b <= a.
Proof.
  unfold Num.ltb. rewrite negb_false_iff. apply Qle_bool_iff.
Qed.

Lemma Num_leb_le (a b : Q) : Num.leb a b = true <-> a <= b.
Proof. apply Qle_bool_iff. Qed.

Lemma Num_leb_gt (a b : Q) : Num.leb a b = false <-> b < a.
Proof.
  rewrite <- Num_ltb_lt. unfold Num.ltb, Num.leb.
  destruct (Qle_bool a b); simpl; split; congruence.
Qed.

Lemma Num_eqb_eq (a b : Q) : Num.eqb a b = true <-> a == b.
Proof. apply Qeq_bool_iff. Qed.

Lemma Num_eqb_refl (a : Q) : Num.eqb a a = true.
Proof. apply Num_eqb_eq. reflexivity. Qed.

Lemma Num_eqb_sym (a b : Q) : Num.eqb a b = Num.eqb b a.
Proof.
  destruct (Num.eqb a b) eqn:E1, (Num.eqb b a) eqn:E2; try reflexivity.
  - apply Num_eqb_eq in E1. symmetry in E1. apply Num_eqb_eq in E1. congruence.
  - apply Num_eqb_eq in E2. symmetry in E2. apply Num_eqb_eq in E2. congruence.
Qed.

Lemma Num_eqb_trans (a b c : Q) :
  Num.eqb a b = true -> Num.eqb b c = true -> Num.eqb a c = true.
Proof.
  rewrite !Num_eqb_eq. intros H1 H2. rewrite H1. exact H2.
Qed.

(** ** Rounding *)

Section Rounding.

Import Double.

Lemma twoTo_pos (z : Z) : 0 < twoTo z.
Proof. apply Qpower_0_lt. reflexivity. Qed.

Lemma twoTo_plus (a b : Z) : twoTo (a + b) == twoTo a * twoTo b.
Proof. apply Qpower_plus. discriminate. Qed.

Lemma twoTo_le (a b : Z) : (a <= b)%Z -> twoTo a <= twoTo b.
Proof. intros H. apply Qpower_le_compat_l; [exact H|discriminate]. Qed.

Lemma twoTo_lt_inv (a b : Z) : twoTo a < twoTo b -> (a < b)%Z.
Proof. intros H. apply (Qpower_lt_compat_l_inv 2); [exact H|reflexivity]. Qed.

Lemma twoTo_Z (n : Z) : (0 <= n)%Z -> twoTo n == inject_Z (2 ^ n).
Proof. intros H. unfold twoTo. rewrite Zpower_Qpower by exact H. reflexivity. Qed.

(** The binade of a positive number. *)
Lemma binade_spec (q : Q) :
  0 < q -> twoTo (binade q) <= q /\ q < twoTo (binade q + 1).
Proof.
  intros Hq. unfold binade.
  destruct q as [n d]. cbn [Qnum Qden].
  assert (Hn : (0 < n)%Z).
  { unfold Qlt in Hq. cbn in Hq. lia. }
  pose proof (Z.log2_spec n Hn) as [Hn1 Hn2].
  pose proof (Z.log2_spec (Zpos d) (Pos2Z.is_pos d)) as [Hd1 Hd2].
  pose proof (Z.log2_nonneg n) as Ha. pose proof (Z.log2_nonneg (Zpos d)) as Hb.
  set (a := Z.log2 n) in *. set (b := Z.log2 (Zpos d)) in *.
  assert (Hq' : n # d == inject_Z n / inject_Z (Zpos d)) by apply Qmake_Qdiv.
  assert (Hdpos : 0 < inject_Z (Zpos d)) by reflexivity.
  assert (HA1 : twoTo a <= inject_Z n) by (rewrite twoTo_Z by lia; rewrite <- Zle_Qle; lia).
  assert (HA2 : inject_Z n < twoTo (a + 1))
    by (rewrite twoTo_Z by lia; rewrite <- Zlt_Qlt; replace (a + 1)%Z with (Z.succ a) by lia; lia).
  assert (HB1 : twoTo b <= inject_Z (Zpos d)) by (rewrite twoTo_Z by lia; rewrite <- Zle_Qle; lia).
  assert (HB2 : inject_Z (Zpos d) < twoTo (b + 1))
    by (rewrite twoTo_Z by lia; rewrite <- Zlt_Qlt; replace (b + 1)%Z with (Z.succ b) by lia; lia).
  assert (Hup : n # d < twoTo (a - b + 1)).
  { rewrite Hq'. apply Qlt_shift_div_r; [exact Hdpos|].
    replace (a - b + 1)%Z with ((a + 1) + - b)%Z by lia.
    rewrite twoTo_plus.
    assert (Hb' : twoTo (- b) * twoTo b == 1).
    { rewrite <- twoTo_plus. replace (- b + b)%Z with 0%Z by lia. reflexivity. }
    pose proof (twoTo_pos (- b)) as P1. pose proof (twoTo_pos (a + 1)) as P2.
    assert (H1 : 1 <= twoTo (- b) * inject_Z (Z.pos d)) by nra.
    set (u := twoTo (- b) * inject_Z (Z.pos d)) in *.
    rewrite <- Qmult_assoc. fold u.
    assert (H2 : twoTo (a + 1) * 1 <= twoTo (a + 1) * u) by (apply Qmult_le_l; lra).
    lra. }
  assert (Hlow : twoTo (a - b - 1) <= n # d).
  { rewrite Hq'. apply Qle_shift_div_l; [exact Hdpos|].
    replace (a - b - 1)%Z with (a + - (b + 1))%Z by lia.
    rewrite twoTo_plus.
    assert (Hb' : twoTo (- (b + 1)) * twoTo (b + 1) == 1).
    { rewrite <- twoTo_plus. replace (- (b + 1) + (b + 1))%Z with 0%Z by lia. reflexivity. }
    pose proof (twoTo_pos (- (b + 1))) as P1. pose proof (twoTo_pos a) as P2.
    assert (H1 : twoTo (- (b + 1)) * inject_Z (Z.pos d) <= 1) by nra.
    set (u := twoTo (- (b + 1)) * inject_Z (Z.pos d)) in *.
    rewrite <- Qmult_assoc. fold u.
    assert (H2 : twoTo a * u <= twoTo a * 1) by (apply Qmult_le_l; lra).
    lra. }
  destruct (Qle_bool (twoTo (a - b)) (n # d)) eqn:E.
  - apply Qle_bool_iff in E. split; [exact E|exact Hup].
  - split; [exact Hlow|].
    replace (a - b - 1 + 1)%Z with (a - b)%Z by lia.
    apply Qnot_le_lt. intros H. apply Qle_bool_iff in H. congruence.
Qed.

Lemma binade_le (x y : Q) : 0 < x -> x <= y -> (binade x <= binade y)%Z.
Proof.
  intros Hx Hxy.
  destruct (binade_spec x Hx) as [H1 _].
  destruct (binade_spec y) as [_ H2]; [lra|].
  assert (H : twoTo (binade x) < twoTo (binade y + 1)) by lra.
  apply twoTo_lt_inv in H. lia.
Qed.

Lemma nearestEven_Z (z : Z) : nearestEven (inject_Z z) = z.
Proof.
  unfold nearestEven. rewrite Qfloor_Z.
  assert (H : Qcompare (inject_Z z - inject_Z z) (1 # 2) = Lt)
    by (apply (proj1 (Qlt_alt _ _)); lra).
  rewrite H. reflexivity.
Qed.

Lemma nearestEven_comp (a b : Q) : a == b -> nearestEven a = nearestEven b.
Proof.
  intros H. unfold nearestEven. rewrite (Qfloor_comp _ _ H).
  assert (E : Qcompare (a - inject_Z (Qfloor b)) (1 # 2)
              = Qcompare (b - inject_Z (Qfloor b)) (1 # 2))
    by (apply Qcompare_comp; [rewrite H; reflexivity|reflexivity]).
  rewrite E. reflexivity.
Qed.

Lemma nearestEven_bounds (q : Q) :
  (Qfloor q <= nearestEven q <= Qfloor q + 1)%Z.
Proof.
  unfold nearestEven. destruct (Qcompare _ _); [destruct (Z.even _)| |]; lia.
Qed.

Lemma nearestEven_le (a b : Q) : a <= b -> (nearestEven a <= nearestEven b)%Z.
Proof.
  intros Hab.
  pose proof (Qfloor_resp_le _ _ Hab) as Hf.
  destruct (Z.eq_dec (Qfloor a) (Qfloor b)) as [E|E].
  - unfold nearestEven. rewrite E.
    destruct (Qcompare_spec (a - inject_Z (Qfloor b)) (1 # 2)),
             (Qcompare_spec (b - inject_Z (Qfloor b)) (1 # 2));
      try (destruct (Z.even (Qfloor b))); try lia; exfalso; lra.
  - pose proof (nearestEven_bounds a). pose proof (nearestEven_bounds b). lia.
Qed.

Lemma nearestEven_nonneg (q : Q) : 0 <= q -> (0 <= nearestEven q)%Z.
Proof.
  intros Hq. rewrite <- (nearestEven_Z 0). apply nearestEven_le. exact Hq.
Qed.

Lemma roundPositive_nonneg (prec emin : Z) (q : Q) :
  0 <= q -> 0 <= roundPositive prec emin q.
Proof.
  intros Hq. unfold roundPositive.
  set (p := Z.max _ _). pose proof (twoTo_pos p) as Hp.
  apply Qmult_le_0_compat; [|lra].
  change 0 with (inject_Z 0). rewrite <- Zle_Qle. apply nearestEven_nonneg.
  apply Qle_shift_div_l; [exact Hp|lra].
Qed.

Lemma roundPositive_le (prec emin : Z) (x y : Q) :
  (1 <= prec)%Z -> 0 < x -> x <= y ->
  roundPositive prec emin x <= roundPositive prec emin y.
Proof.
  intros Hprec Hx Hxy. assert (Hy : 0 < y) by lra.
  unfold roundPositive.
  pose proof (binade_le x y Hx Hxy) as He.
  destruct (binade_spec x Hx) as [Hx1 Hx2]. destruct (binade_spec y Hy) as [Hy1 Hy2].
  set (ex := binade x) in *. set (ey := binade y) in *.
  set (px := Z.max (ex - (prec - 1)) emin). set (py := Z.max (ey - (prec - 1)) emin).
  pose proof (twoTo_pos px) as Hpx. pose proof (twoTo_pos py) as Hpy.
  destruct (Z.eq_dec px py) as [E|E].
  - rewrite E. apply Qmult_le_compat_r; [|lra].
    rewrite <- Zle_Qle. apply nearestEven_le.
    apply Qle_shift_div_l; [exact Hpy|].
    assert (Hq : x / twoTo py * twoTo py == x) by (field; lra).
    rewrite E in Hpx. lra.
  - assert (Hlt : (px < py)%Z) by lia.
    assert (Hpy' : py = (ey - (prec - 1))%Z) by lia.
    set (k := Z.max (ex + 1 - px) 0).
    assert (Hk : (0 <= k)%Z) by lia.
    assert (Hupper : inject_Z (nearestEven (x / twoTo px)) * twoTo px <= twoTo (k + px)).
    { rewrite twoTo_plus. apply Qmult_le_compat_r; [|lra].
      rewrite (twoTo_Z k) by exact Hk. rewrite <- Zle_Qle.
      rewrite <- (nearestEven_Z (2 ^ k)). apply nearestEven_le.
      rewrite <- (twoTo_Z k) by exact Hk.
      apply Qle_shift_div_r; [exact Hpx|].
      rewrite <- twoTo_plus.
      assert (H : twoTo (ex + 1) <= twoTo (k + px)) by (apply twoTo_le; lia).
      lra. }
    assert (Hlower : twoTo ey <= inject_Z (nearestEven (y / twoTo py)) * twoTo py).
    { replace ey with ((prec - 1) + py)%Z at 1 by lia.
      rewrite twoTo_plus. apply Qmult_le_compat_r; [|lra].
      rewrite (twoTo_Z (prec - 1)) by lia. rewrite <- Zle_Qle.
      rewrite <- (nearestEven_Z (2 ^ (prec - 1))) at 1. apply nearestEven_le.
      rewrite <- (twoTo_Z (prec - 1)) by lia.
      apply Qle_shift_div_l; [exact Hpy|].
      rewrite <- twoTo_plus. replace (prec - 1 + py)%Z with ey by lia. exact Hy1. }
    assert (H : twoTo (k + px) <= twoTo ey) by (apply twoTo_le; lia).
    lra.
Qed.

Lemma nearest_comp (prec emin : Z) (a b : Q) :
  a == b -> nearest prec emin a = nearest prec emin b.
Proof. intros H. unfold nearest. rewrite (Qred_complete a b H). reflexivity. Qed.

Lemma nearest_nonneg (prec emin : Z) (a : Q) : 0 <= a -> 0 <= nearest prec emin a.
Proof.
  intros Ha. unfold nearest.
  destruct (Qcompare (Qred a) 0) eqn:E.
  - lra.
  - apply Qlt_alt in E. rewrite Qred_correct in E. lra.
  - apply Qgt_alt in E. apply roundPositive_nonneg. lra.
Qed.

Lemma nearest_opp (prec emin : Z) (a : Q) :
  nearest prec emin (- a) == - nearest prec emin a.
Proof.
  unfold nearest. rewrite Qred_opp.
  destruct (Qcompare (Qred a) 0) eqn:E.
  - apply Qeq_alt in E.
    assert (E' : Qcompare (- Qred a) 0 = Eq) by (apply (proj1 (Qeq_alt _ _)); lra).
    rewrite E'. reflexivity.
  - apply Qlt_alt in E.
    assert (E' : Qcompare (- Qred a) 0 = Gt) by (apply (proj1 (Qgt_alt _ _)); lra).
    rewrite E'. ring.
  - apply Qgt_alt in E.
    assert (E' : Qcompare (- Qred a) 0 = Lt) by (apply (proj1 (Qlt_alt _ _)); lra).
    rewrite E'.
    replace (- - Qred a) with (Qred a); [reflexivity|].
    destruct (Qred a) as [n d]. unfold Qopp. cbn. rewrite Z.opp_involutive. reflexivity.
Qed.

Lemma nearest_nonpos (prec emin : Z) (a : Q) : a <= 0 -> nearest prec emin a <= 0.
Proof.
  intros Ha.
  assert (H : 0 <= nearest prec emin (- a)) by (apply nearest_nonneg; lra).
  rewrite nearest_opp in H. lra.
Qed.

Lemma nearest_positive (prec emin : Z) (a : Q) :
  0 < a -> nearest prec emin a = roundPositive prec emin (Qred a).
Proof.
  intros Ha. unfold nearest.
  assert (E : Qcompare (Qred a) 0 = Gt)
    by (apply (proj1 (Qgt_alt _ _)); rewrite Qred_correct; exact Ha).
  rewrite E. reflexivity.
Qed.

(** Rounding is monotone. *)
Lemma nearest_le (prec emin : Z) (a b : Q) :
  (1 <= prec)%Z -> a <= b -> nearest prec emin a <= nearest prec emin b.
Proof.
  intros Hprec Hab.
  destruct (Qlt_le_dec 0 a) as [Ha|Ha].
  - rewrite (nearest_positive prec emin a Ha), (nearest_positive prec emin b) by lra.
    apply roundPositive_le; [exact Hprec| |]; rewrite !Qred_correct; lra.
  - destruct (Qlt_le_dec 0 b) as [Hb|Hb].
    + pose proof (nearest_nonpos prec emin a Ha).
      pose proof (nearest_nonneg prec emin b). lra.
    + destruct (Qeq_dec b 0) as [Eb|Eb].
      * rewrite (nearest_comp prec emin b 0 Eb).
        pose proof (nearest_nonpos prec emin a Ha).
        change (nearest prec emin 0) with 0. exact H.
      * assert (Hb' : 0 < - b) by lra.
        assert (H : nearest prec emin (- b) <= nearest prec emin (- a)).
        { rewrite (nearest_positive prec emin (- b) Hb'),
            (nearest_positive prec emin (- a)) by lra.
          apply roundPositive_le; [exact Hprec| |]; rewrite !Qred_correct; lra. }
        rewrite !nearest_opp in H. lra.
Qed.

(** A number with at most [prec] significant bits above [2^emin] is not
    changed. *)
Lemma nearest_dyadic (prec emin : Z) (z e : Z) :
  (1 <= prec)%Z -> (Z.abs z < 2 ^ prec)%Z -> (emin <= e)%Z ->
  nearest prec emin (inject_Z z * twoTo e) == inject_Z z * twoTo e.
Proof.
  intros Hprec Hz He.
  assert (Hpos : forall z', (0 < z' < 2 ^ prec)%Z ->
                   nearest prec emin (inject_Z z' * twoTo e) == inject_Z z' * twoTo e).
  { intros z' [Hz1 Hz2]. pose proof (twoTo_pos e) as Hte.
    assert (Hq : 0 < inject_Z z' * twoTo e).
    { apply Qmult_lt_0_compat; [|exact Hte].
      change 0 with (inject_Z 0). rewrite <- Zlt_Qlt. exact Hz1. }
    rewrite (nearest_positive _ _ _ Hq). unfold roundPositive.
    assert (Hred : Qred (inject_Z z' * twoTo e) == inject_Z z' * twoTo e)
      by apply Qred_correct.
    assert (Hq' : 0 < Qred (inject_Z z' * twoTo e)) by (rewrite Hred; exact Hq).
    destruct (binade_spec _ Hq') as [Hb1 _].
    set (b := binade (Qred (inject_Z z' * twoTo e))) in *.
    assert (Hb : (b < prec + e)%Z).
    { apply twoTo_lt_inv. rewrite twoTo_plus.
      assert (H : inject_Z z' < twoTo prec).
      { rewrite twoTo_Z by lia. rewrite <- Zlt_Qlt. exact Hz2. }
      pose proof (twoTo_pos prec). nra. }
    set (p := Z.max (b - (prec - 1)) emin).
    assert (Hp : (p <= e)%Z) by lia.
    pose proof (twoTo_pos p) as Htp.
    assert (Hm : Qred (inject_Z z' * twoTo e) / twoTo p == inject_Z (z' * 2 ^ (e - p))).
    { rewrite Hred, inject_Z_mult, <- twoTo_Z by lia.
      replace e with ((e - p) + p)%Z at 1 by lia. rewrite twoTo_plus. field. lra. }
    rewrite (nearestEven_comp _ _ Hm), nearestEven_Z.
    rewrite inject_Z_mult, <- twoTo_Z by lia.
    replace e with ((e - p) + p)%Z at 2 by lia. rewrite twoTo_plus. ring. }
  destruct (Z.lt_trichotomy z 0) as [Hneg|[->|Hp]].
  - assert (H : nearest prec emin (inject_Z (- z) * twoTo e) == inject_Z (- z) * twoTo e)
      by (apply Hpos; lia).
    rewrite inject_Z_opp in H.
    rewrite (nearest_comp _ _ (- inject_Z z * twoTo e) (- (inject_Z z * twoTo e))) in H
      by ring.
    rewrite nearest_opp in H. lra.
  - rewrite (nearest_comp _ _ (inject_Z 0 * twoTo e) 0) by ring.
    change (nearest prec emin 0) with 0. ring.
  - apply Hpos. lia.
Qed.

Lemma roundTo_nearest (prec emin : Z) (a : Q) :
  roundTo prec emin a == nearest prec emin a.
Proof. unfold roundTo. apply Qred_correct. Qed.

Lemma roundTo_comp (prec emin : Z) (a b : Q) :
  a == b -> roundTo prec emin a = roundTo prec emin b.
Proof. intros H. unfold roundTo. rewrite (nearest_comp prec emin a b H). reflexivity. Qed.

Lemma roundTo_nonneg (prec emin : Z) (a : Q) : 0 <= a -> 0 <= roundTo prec emin a.
Proof. intros H. rewrite roundTo_nearest. apply nearest_nonneg. exact H. Qed.

Lemma roundTo_opp (prec emin : Z) (a : Q) :
  roundTo prec emin (- a) == - roundTo prec emin a.
Proof. rewrite !roundTo_nearest. apply nearest_opp. Qed.


Lemma roundTo_le (prec emin : Z) (a b : Q) :
  (1 <= prec)%Z -> a <= b -> roundTo prec emin a <= roundTo prec emin b.
Proof. intros Hp H. rewrite !roundTo_nearest. apply nearest_le; assumption. Qed.

Lemma roundTo_dyadic (prec emin : Z) (z e : Z) :
  (1 <= prec)%Z -> (Z.abs z < 2 ^ prec)%Z -> (emin <= e)%Z ->
  roundTo prec emin (inject_Z z * twoTo e) == inject_Z z * twoTo e.
Proof. intros Hp Hz He. rewrite roundTo_nearest. apply nearest_dyadic; assumption. Qed.

End Rounding.

(** ** Point in circle *)

Section PointInCircle.

Import MathUtils.

(** The test is the comparison of the two numbers that the function
    computes. *)
Lemma isPointInCircle_computed (center : Vector2.t) (radius : Q) (point : Vector3.t) :
  isPointInCircle center radius point = true
  <-> Num.add (Num.pow2 (Num.sub (Vector3.x point) (Vector2.x center)))
              (Num.pow2 (Num.sub (Vector3.y point) (Vector2.y center)))
      < Num.pow2 radius.
Proof. unfold isPointInCircle. apply Num_ltb_lt. Qed.

Lemma isPointInCircle_iff (center : Vector2.t) (radius : Q) (point : Vector3.t) :
  computedExactly center radius point ->
  (isPointInCircle center radius point = true
   <-> squaredDistance point center < radius * radius).
Proof.
  intros [Hd [Hr _]]. rewrite isPointInCircle_computed, Hd, Hr. reflexivity.
Qed.

(** Numbers on a grid of step [2^-k]: differences, squares and sums of a
    few of them are doubles. *)
Lemma round_dyadic (z e : Z) (q : Q) :
  (Z.abs z < 2 ^ 53)%Z -> (-1074 <= e)%Z -> q == inject_Z z * Double.twoTo e ->
  Double.round q == q.
Proof.
  intros Hz He Hq. unfold Double.round.
  rewrite (roundTo_comp 53 (-1074) _ _ Hq), Hq.
  apply roundTo_dyadic; [lia | exact Hz | exact He].
Qed.

Lemma Num_sub_dyadic (a b e : Z) (x y : Q) :
  (Z.abs (a - b) < 2 ^ 53)%Z -> (-1074 <= e)%Z ->
  x == inject_Z a * Double.twoTo e -> y == inject_Z b * Double.twoTo e ->
  Num.sub x y == inject_Z (a - b) * Double.twoTo e.
Proof.
  intros Hz He Hx Hy.
  assert (Hq : x - y == inject_Z (a - b) * Double.twoTo e).
  { rewrite Hx, Hy. unfold Z.sub. rewrite inject_Z_plus, inject_Z_opp. ring. }
  unfold Num.sub. rewrite (round_dyadic _ _ _ Hz He Hq). exact Hq.
Qed.

Lemma Num_add_dyadic (a b e : Z) (x y : Q) :
  (Z.abs (a + b) < 2 ^ 53)%Z -> (-1074 <= e)%Z ->
  x == inject_Z a * Double.twoTo e -> y == inject_Z b * Double.twoTo e ->
  Num.add x y == inject_Z (a + b) * Double.twoTo e.
Proof.
  intros Hz He Hx Hy.
  assert (Hq : x + y == inject_Z (a + b) * Double.twoTo e).
  { rewrite Hx, Hy, inject_Z_plus. ring. }
  unfold Num.add. rewrite (round_dyadic _ _ _ Hz He Hq). exact Hq.
Qed.

Lemma Num_mul_dyadic (a b e f : Z) (x y : Q) :
  (Z.abs (a * b) < 2 ^ 53)%Z -> (-1074 <= e + f)%Z ->
  x == inject_Z a * Double.twoTo e -> y == inject_Z b * Double.twoTo f ->
  Num.mul x y == inject_Z (a * b) * Double.twoTo (e + f).
Proof.
  intros Hz He Hx Hy.
  assert (Hq : x * y == inject_Z (a * b) * Double.twoTo (e + f)).
  { rewrite Hx, Hy, inject_Z_mult, twoTo_plus. ring. }
  unfold Num.mul. rewrite (round_dyadic _ _ _ Hz He Hq). exact Hq.
Qed.

Lemma Num_pow2_dyadic (a e : Z) (x : Q) :
  (Z.abs (a * a) < 2 ^ 53)%Z -> (-1074 <= e + e)%Z ->
  x == inject_Z a * Double.twoTo e ->
  Num.pow2 x == inject_Z (a * a) * Double.twoTo (e + e).
Proof.
  intros Hz He Hx. exact (Num_mul_dyadic a a e e x x Hz He Hx Hx).
Qed.

Lemma square_bound (d m : Z) : (Z.abs d <= m)%Z -> (Z.abs (d * d) <= m * m)%Z.
Proof.
  intros H. rewrite Z.abs_mul.
  apply Z.mul_le_mono_nonneg; try exact H; apply Z.abs_nonneg.
Qed.

(** A number of at most [n] steps of size [2^e], [e <= 0], is far below
    the largest double. *)
Lemma dyadic_below_max (z n e : Z) (q : Q) :
  (0 <= z <= n)%Z -> (n <= 2 ^ 53)%Z -> (e <= 0)%Z ->
  q == inject_Z z * Double.twoTo e -> q <= Double.maxValue.
Proof.
  intros Hz Hn He Hq. rewrite Hq.
  assert (Ht : Double.twoTo e <= 1)
    by (change 1 with (Double.twoTo 0); apply twoTo_le; exact He).
  pose proof (twoTo_pos e) as Hp.
  assert (Ha : 0 <= inject_Z z)
    by (change 0 with (inject_Z 0); rewrite <- Zle_Qle; lia).
  assert (Hb : inject_Z z <= inject_Z (2 ^ 53)) by (rewrite <- Zle_Qle; lia).
  assert (Hm : inject_Z (2 ^ 53) <= Double.maxValue) by (vm_compute; discriminate).
  set (t := Double.twoTo e) in *. set (a := inject_Z z) in *.
  set (b := inject_Z (2 ^ 53)) in *. set (m := Double.maxValue) in *.
  clearbody t a b m. nra.
Qed.

Lemma onGrid_computedExactly (k : Z) (center : Vector2.t) (radius : Q)
    (point : Vector3.t) :
  (0 <= k <= 537)%Z ->
  onGrid k (Vector2.x center) -> onGrid k (Vector2.y center) ->
  onGrid k (Vector3.x point) -> onGrid k (Vector3.y point) ->
  onGrid k radius ->
  computedExactly center radius point.
Proof.
  intros Hk [cx [Hcx Ecx]] [cy [Hcy Ecy]] [px [Hpx Epx]] [py [Hpy Epy]] [r [Hr Er]].
  assert (H24 : (2 ^ 24 = 16777216)%Z) by reflexivity.
  assert (H53 : (2 ^ 53 = 9007199254740992)%Z) by reflexivity.
  assert (Hdx : Num.sub (Vector3.x point) (Vector2.x center)
                == inject_Z (px - cx) * Double.twoTo (- k)).
  { apply Num_sub_dyadic; [lia | lia | exact Epx | exact Ecx]. }
  assert (Hdy : Num.sub (Vector3.y point) (Vector2.y center)
                == inject_Z (py - cy) * Double.twoTo (- k)).
  { apply Num_sub_dyadic; [lia | lia | exact Epy | exact Ecy]. }
  assert (Bx : (Z.abs ((px - cx) * (px - cx)) <= 33554432 * 33554432)%Z)
    by (apply square_bound; lia).
  assert (By : (Z.abs ((py - cy) * (py - cy)) <= 33554432 * 33554432)%Z)
    by (apply square_bound; lia).
  assert (Br : (Z.abs (r * r) <= 16777216 * 16777216)%Z)
    by (apply square_bound; lia).
  assert (Hsx : Num.pow2 (Num.sub (Vector3.x point) (Vector2.x center))
                == inject_Z ((px - cx) * (px - cx)) * Double.twoTo (- k + - k)).
  { apply Num_pow2_dyadic; [lia | lia | exact Hdx]. }
  assert (Hsy : Num.pow2 (Num.sub (Vector3.y point) (Vector2.y center))
                == inject_Z ((py - cy) * (py - cy)) * Double.twoTo (- k + - k)).
  { apply Num_pow2_dyadic; [lia | lia | exact Hdy]. }
  assert (Hdist : squaredDistance point center
                  == inject_Z ((px - cx) * (px - cx) + (py - cy) * (py - cy))
                     * Double.twoTo (- k + - k)).
  { unfold squaredDistance. rewrite Epx, Ecx, Epy, Ecy.
    rewrite inject_Z_plus, !inject_Z_mult, twoTo_plus.
    unfold Z.sub. rewrite !inject_Z_plus, !inject_Z_opp. ring. }
  assert (Hrad : radius * radius == inject_Z (r * r) * Double.twoTo (- k + - k)).
  { rewrite Er, inject_Z_mult, twoTo_plus. ring. }
  assert (Px : (0 <= (px - cx) * (px - cx))%Z) by apply Z.square_nonneg.
  assert (Py : (0 <= (py - cy) * (py - cy))%Z) by apply Z.square_nonneg.
  assert (Pr : (0 <= r * r)%Z) by apply Z.square_nonneg.
  split; [|split; [|split]].
  - rewrite (Num_add_dyadic ((px - cx) * (px - cx)) ((py - cy) * (py - cy))
               (- k + - k) _ _ ltac:(lia) ltac:(lia) Hsx Hsy).
    symmetry. exact Hdist.
  - rewrite (Num_pow2_dyadic r (- k) radius ltac:(lia) ltac:(lia) Er).
    symmetry. exact Hrad.
  - apply (dyadic_below_max ((px - cx) * (px - cx) + (py - cy) * (py - cy))
             (2 ^ 53) (- k + - k)); [lia|lia|lia|exact Hdist].
  - apply (dyadic_below_max (r * r) (2 ^ 53) (- k + - k)); [lia|lia|lia|exact Hrad].
Qed.

(** C9: whenever the differences, the squares and the sum are computed
    without rounding, [isPointInCircle] is true exactly when the squared
    distance from the point to the center is strictly below the squared
    radius, and a point whose squared distance equals the squared radius is
    excluded; this is so for coordinates and a radius that are multiples of
    [2^-k], [0 <= k <= 537], of at most [2^24] steps; with center (0,0) and
    radius 1 the point (1/2,1/2) is inside and (1,0) is outside. *)
Theorem isPointInCircle_strict :
  (forall center radius point,
      computedExactly center radius point ->
      (isPointInCircle center radius point = true
       <-> squaredDistance point center < radius * radius)
      /\ (squaredDistance point center == radius * radius ->
          isPointInCircle center radius point = false))
  /\ (forall k center radius point,
         (0 <= k <= 537)%Z ->
         onGrid k (Vector2.x center) -> onGrid k (Vector2.y center) ->
         onGrid k (Vector3.x point) -> onGrid k (Vector3.y point) ->
         onGrid k radius ->
         computedExactly center radius point)
  /\ isPointInCircle (Vector2.mk 0 0) 1 (Vector3.mk (1 # 2) (1 # 2) 0) = true
  /\ isPointInCircle (Vector2.mk 0 0) 1 (Vector3.mk 1 0 0) = false.
Proof.
  split; [|split; [exact onGrid_computedExactly | split; vm_compute; reflexivity]].
  intros center radius point Hexact.
  split; [exact (isPointInCircle_iff center radius point Hexact)|].
  intros Heq.
  destruct (isPointInCircle center radius point) eqn:E; [|reflexivity].
  apply (isPointInCircle_iff center radius point Hexact) in E. rewrite Heq in E.
  exfalso. apply (Qlt_irrefl _ E).
Qed.

Lemma isPointInCircle_strict_witness :
  computedExactly (Vector2.mk 0 0) 5 (Vector3.mk 3 4 0)
  /\ squaredDistance (Vector3.mk 3 4 0) (Vector2.mk 0 0) == 5 * 5
  /\ isPointInCircle (Vector2.mk 0 0) 5 (Vector3.mk 3 4 0) = false.
Proof.
  assert (Hexact : computedExactly (Vector2.mk 0 0) 5 (Vector3.mk 3 4 0)).
  { repeat split; vm_compute; first [reflexivity|discriminate]. }
  split; [exact Hexact|].
  split; [reflexivity|].
  apply (proj2 (proj1 isPointInCircle_strict _ _ _ Hexact)). reflexivity.
Defined.

(** The claim without the condition fails in doubles: the square of the
    radius [2^-600] underflows to 0, so the center itself is reported
    outside; and around (0,0) with radius 1/4 the point made of the doubles
    nearest to 0.07 and 0.24, which lies inside, has a computed squared
    distance of exactly 1/16. *)
Lemma isPointInCircle_rounding_counterexample :
  (squaredDistance (Vector3.mk 0 0 0) (Vector2.mk 0 0)
   < Double.twoTo (-600) * Double.twoTo (-600)
   /\ isPointInCircle (Vector2.mk 0 0) (Double.twoTo (-600)) (Vector3.mk 0 0 0) = false)
  /\ (squaredDistance (Vector3.mk (Double.round (7 # 100)) (Double.round (24 # 100)) 0)
                      (Vector2.mk 0 0)
      < (1 # 4) * (1 # 4)
      /\ isPointInCircle (Vector2.mk 0 0) (1 # 4)
           (Vector3.mk (Double.round (7 # 100)) (Double.round (24 # 100)) 0) = false).
Proof.
  split; split; vm_compute; reflexivity.
Qed.

End PointInCircle.

(** ** Point in polygon *)

Section PointInPolygon.

Import MathUtils.

Lemma loopBody_edge (point : Vector3.t) (polygon : list Vector2.t) (w : Z) (i : nat) :
  loopBody point polygon w i
  = if Num.eqb (crossTerm point (edgeAt polygon i)) 0 then None
    else Some (w + counted point (edgeAt polygon i))%Z.
Proof.
  unfold loopBody, counted, countsUpward, countsDownward, crossTerm, edgeAt.
  cbn [fst snd].
  set (a := at_index polygon i).
  set (b := at_index polygon ((i + 1) mod List.length polygon)).
  set (c := substitutePointOnLine a b point).
  destruct (Num.eqb c 0); [reflexivity|].
  change (Num.ltb (Vector3.y point) (Vector2.y a))
    with (negb (Num.leb (Vector2.y a) (Vector3.y point))).
  destruct (Num.leb (Vector2.y a) (Vector3.y point)); cbn [negb andb].
  - destruct (Num.ltb (Vector3.y point) (Vector2.y b)); cbn [andb].
    + destruct (Num.ltb 0 c); cbv iota; f_equal; lia.
    + cbv iota. f_equal; lia.
  - destruct (Num.ltb (Vector2.y b) (Vector3.y point)); cbn [andb].
    + destruct (Num.ltb c 0); cbv iota; f_equal; lia.
    + cbv iota. f_equal; lia.
Qed.

Lemma loop_edges (point : Vector3.t) (polygon : list Vector2.t) (indices : list nat) :
  forall w,
    loop point polygon indices w
    = if existsb (fun e => Num.eqb (crossTerm point e) 0) (map (edgeAt polygon) indices)
      then None
      else Some (fold_left (fun acc e => (acc + counted point e)%Z)
                   (map (edgeAt polygon) indices) w).
Proof.
  induction indices as [|i rest IH]; intros w; [reflexivity|].
  cbn [loop map existsb fold_left]. rewrite loopBody_edge.
  destruct (Num.eqb (crossTerm point (edgeAt polygon i)) 0); cbn [orb]; [reflexivity|].
  apply IH.
Qed.

Lemma closing_vertex (first : Vector2.t) (others : list Vector2.t) (i : nat) :
  (i < S (List.length others))%nat ->
  nth i (others ++ [first]) (Vector2.mk 0 0)
  = at_index (first :: others) ((i + 1) mod S (List.length others)).
Proof.
  intros Hi. unfold at_index.
  destruct (Nat.eq_dec (i + 1) (S (List.length others))) as [E|E].
  - rewrite E, Nat.Div0.mod_same.
    replace i with (List.length others + 0)%nat by lia.
    rewrite app_nth2_plus. reflexivity.
  - rewrite Nat.mod_small by lia.
    replace (i + 1)%nat with (S i) by lia. cbn [nth].
    apply app_nth1. lia.
Qed.

Lemma edges_by_index (polygon : list Vector2.t) :
  edges polygon = map (edgeAt polygon) (seq 0 (List.length polygon)).
Proof.
  destruct polygon as [|first others]; [reflexivity|].
  unfold edges.
  assert (Hlen : List.length (others ++ [first]) = S (List.length others))
    by (rewrite length_app; cbn; lia).
  apply (nth_ext _ _ (Vector2.mk 0 0, Vector2.mk 0 0) (edgeAt (first :: others) 0)).
  - rewrite length_combine, length_map, length_seq, Hlen. cbn [List.length]. lia.
  - intros i Hi.
    rewrite length_combine, Hlen in Hi. cbn [List.length] in Hi.
    assert (Hlt : (i < S (List.length others))%nat) by lia.
    rewrite combine_nth by (rewrite Hlen; reflexivity).
    rewrite (map_nth (edgeAt (first :: others))), seq_nth by (cbn [List.length]; lia).
    unfold edgeAt. cbn [Nat.add List.length]. f_equal.
    apply closing_vertex. exact Hlt.
Qed.

Lemma isPointInPolygon_eq (point : Vector3.t) (polygon : list Vector2.t) :
  isPointInPolygon point polygon
  = if zeroCrossTerm point polygon then false
    else negb (loopCounter point polygon =? 0)%Z.
Proof.
  unfold isPointInPolygon, zeroCrossTerm, loopCounter.
  rewrite loop_edges, <- edges_by_index.
  destruct (existsb _ (edges polygon)); reflexivity.
Qed.

Lemma zeroCrossTerm_iff (point : Vector3.t) (polygon : list Vector2.t) :
  zeroCrossTerm point polygon = true
  <-> exists e, In e (edges polygon) /\ crossTerm point e == 0.
Proof.
  unfold zeroCrossTerm. rewrite existsb_exists.
  split; intros [e [Hin He]]; exists e; split; try exact Hin; apply Num_eqb_eq; exact He.
Qed.

(** The loop and the winding number agree on every edge that does not end
    on the level of the point, when the cross term is computed without
    rounding. *)
Lemma counted_off_level (point : Vector3.t) (e : Vector2.t * Vector2.t) :
  crossTerm point e == crossProduct point e ->
  ~ Vector2.y (snd e) == Vector3.y point ->
  counted point e = contribution point e.
Proof.
  intros Hc Hy. unfold counted, contribution, countsUpward, countsDownward,
    crossesUpward, crossesDownward.
  replace (Num.ltb 0 (crossTerm point e)) with (Num.ltb 0 (crossProduct point e))
    by (unfold Num.ltb; rewrite Hc; reflexivity).
  replace (Num.ltb (crossTerm point e) 0) with (Num.ltb (crossProduct point e) 0)
    by (unfold Num.ltb; rewrite Hc; reflexivity).
  replace (Num.ltb (Vector2.y (snd e)) (Vector3.y point))
    with (Num.leb (Vector2.y (snd e)) (Vector3.y point)); [reflexivity|].
  destruct (Num.leb (Vector2.y (snd e)) (Vector3.y point)) eqn:Hle.
  - apply Num_leb_le in Hle. symmetry. apply Num_ltb_lt.
    apply Qle_lt_or_eq in Hle. destruct Hle as [Hlt|Heq]; [exact Hlt|contradiction].
  - apply Num_leb_gt in Hle. symmetry. apply Num_ltb_ge. apply Qlt_le_weak. exact Hle.
Qed.

Lemma loopCounter_sum (point : Vector3.t) (es : list (Vector2.t * Vector2.t)) :
  forall w,
    fold_left (fun acc e => (acc + counted point e)%Z) es w
    = (w + fold_right Z.add 0%Z (map (counted point) es))%Z.
Proof.
  induction es as [|e rest IH]; intros w; cbn [fold_left map fold_right]; [lia|].
  rewrite IH. lia.
Qed.

Lemma isPointInPolygon_off_levels (point : Vector3.t) (polygon : list Vector2.t) :
  (forall e, In e (edges polygon) -> crossTerm point e == crossProduct point e) ->
  (forall e, In e (edges polygon) -> ~ Vector2.y (snd e) == Vector3.y point) ->
  isPointInPolygon point polygon = insideByWinding point polygon.
Proof.
  intros Hc Hy. rewrite isPointInPolygon_eq.
  unfold zeroCrossTerm, insideByWinding, loopCounter, windingNumber.
  rewrite loopCounter_sum, Z.add_0_l.
  revert Hc Hy. generalize (edges polygon) as es.
  intros es Hc Hy.
  assert (Hz : existsb (fun e => Num.eqb (crossTerm point e) 0) es
               = existsb (fun e => Num.eqb (crossProduct point e) 0) es).
  { induction es as [|e rest IH]; [reflexivity|]. cbn [existsb].
    rewrite IH;
      [| intros e' He'; apply Hc; right; exact He'
       | intros e' He'; apply Hy; right; exact He'].
    f_equal. unfold Num.eqb. rewrite (Hc e (or_introl eq_refl)). reflexivity. }
  assert (Hs : map (counted point) es = map (contribution point) es).
  { apply map_ext_in. intros e He. apply counted_off_level; [apply Hc|apply Hy]; exact He. }
  rewrite Hz, Hs. reflexivity.
Qed.

(** C1: the loop is not the winding-number rule at a vertex that lies on the
    level of the point.  Its second branch asks the edge to end strictly
    below the level, so of the two edges that meet at such a vertex the one
    going up from it is counted and the one coming down to it is not.  For
    the diamond (0,-1), (1,0), (0,1), (-1,0) the point (-2,0), which lies
    outside and has winding number 0 with no cross term of zero, is reported
    inside; for the same diamond run through clockwise the point (1/2,0),
    which lies inside and has winding number -1, is reported outside.  For
    the unit square, (0,0) is inside, (2,2) and (1,0) are outside, as the
    claim says. *)
Theorem isPointInPolygon_level_vertex :
  (isPointInPolygon (Vector3.mk (-2) 0 0) diamond = true
   /\ windingNumber (Vector3.mk (-2) 0 0) diamond = 0%Z
   /\ insideByWinding (Vector3.mk (-2) 0 0) diamond = false)
  /\ (isPointInPolygon (Vector3.mk (1 # 2) 0 0) diamondClockwise = false
      /\ windingNumber (Vector3.mk (1 # 2) 0 0) diamondClockwise = (-1)%Z
      /\ insideByWinding (Vector3.mk (1 # 2) 0 0) diamondClockwise = true)
  /\ (forall point,
         In point [Vector3.mk (-2) 0 0; Vector3.mk (1 # 2) 0 0] ->
         forall polygon e,
           In polygon [diamond; diamondClockwise] -> In e (edges polygon) ->
           Num.eqb (crossProduct point e) 0 = false
           /\ crossTerm point e == crossProduct point e)
  /\ isPointInPolygon (Vector3.mk 0 0 0) unitSquare = true
  /\ isPointInPolygon (Vector3.mk 2 2 0) unitSquare = false
  /\ isPointInPolygon (Vector3.mk 1 0 0) unitSquare = false.
Proof.
  split; [repeat split; vm_compute; reflexivity|].
  split; [repeat split; vm_compute; reflexivity|].
  split; [|repeat split; vm_compute; reflexivity].
  intros point Hp polygon e Hpoly He.
  destruct Hp as [<-|[<-|[]]]; destruct Hpoly as [<-|[<-|[]]];
    cbn [edges diamond diamondClockwise combine app] in He;
    destruct He as [<-|[<-|[<-|[<-|[]]]]];
    split; vm_compute; reflexivity.
Qed.

(** The edges of the unit square. *)
Example edges_unitSquare :
  edges unitSquare
  = [(Vector2.mk (-1) (-1), Vector2.mk 1 (-1)); (Vector2.mk 1 (-1), Vector2.mk 1 1);
     (Vector2.mk 1 1, Vector2.mk (-1) 1); (Vector2.mk (-1) 1, Vector2.mk (-1) (-1))].
Proof. reflexivity. Qed.

(** The edge of the diamond that comes down to the vertex (-1,0) crosses
    the ray of (-2,0) downward, and the loop does not count it. *)
Example diamond_uncounted_edge :
  crossesDownward (Vector3.mk (-2) 0 0) (Vector2.mk 0 1, Vector2.mk (-1) 0) = true
  /\ countsDownward (Vector3.mk (-2) 0 0) (Vector2.mk 0 1, Vector2.mk (-1) 0) = false
  /\ loopCounter (Vector3.mk (-2) 0 0) diamond = 1%Z.
Proof. repeat split; vm_compute; reflexivity. Qed.

End PointInPolygon.

(** ** Coordinate formats *)

Section CoordinateFormats.

Import CoordinateFormat.

Lemma permutation_roundtrip (f : CoordinateFormatSpec) (v : Vector3.t) :
  isPermutation f = true ->
  (w <- toThreeJSCoords f v ;; toProjectCoords f w) = Some v
  /\ (w <- toProjectCoords f v ;; toThreeJSCoords f w) = Some v.
Proof.
  destruct f as [n xi yi zi], v as [a b c]. unfold isPermutation. cbn [xIdx yIdx zIdx].
  destruct xi as [|[|[|xi]]], yi as [|[|[|yi]]], zi as [|[|[|zi]]];
    cbn; intros H; try discriminate H; split; reflexivity.
Qed.

Lemma instances_are_permutations :
  forallb isPermutation CoordinateFormat = true.
Proof. reflexivity. Qed.

(** C2: for each of the six instances of [CoordinateFormat] and every vector,
    [toThreeJSCoords] followed by [toProjectCoords] and [toProjectCoords]
    followed by [toThreeJSCoords] both succeed and return exactly the
    original vector. *)
Theorem CoordinateFormat_roundtrip (f : CoordinateFormatSpec) (v : Vector3.t) :
  In f CoordinateFormat ->
  (w <- toThreeJSCoords f v ;; toProjectCoords f w) = Some v
  /\ (w <- toProjectCoords f v ;; toThreeJSCoords f w) = Some v.
Proof.
  intros Hin. apply permutation_roundtrip.
  pose proof instances_are_permutations as Hall.
  rewrite forallb_forall in Hall. apply Hall. exact Hin.
Qed.

Lemma CoordinateFormat_roundtrip_witness :
  In ZXY CoordinateFormat
  /\ (w <- toThreeJSCoords ZXY (Vector3.mk 1 2 3) ;; toProjectCoords ZXY w)
     = Some (Vector3.mk 1 2 3)
  /\ (w <- toProjectCoords ZXY (Vector3.mk 1 2 3) ;; toThreeJSCoords ZXY w)
     = Some (Vector3.mk 1 2 3).
Proof.
  split.
  - do 4 right. left. reflexivity.
  - apply (CoordinateFormat_roundtrip ZXY (Vector3.mk 1 2 3)).
    do 4 right. left. reflexivity.
Defined.

(** The example of the source: (1, 2, 3) in [three.js] is (3, 1, 2) in a
    project of format [ZXY]. *)
Example ZXY_example :
  toProjectCoords ZXY (Vector3.mk 1 2 3) = Some (Vector3.mk 3 1 2)
  /\ toThreeJSCoords ZXY (Vector3.mk 3 1 2) = Some (Vector3.mk 1 2 3).
Proof. split; reflexivity. Qed.

End CoordinateFormats.

(** ** Point buffers *)

Section PointBuffers.

Import PointBuffer.

(** C8: [checkNumChannels] is total (it has no failing outcome); it returns
    the requested count, logging nothing, when the count is at least 3 and
    divides the length of the data; it logs one diagnostic and returns 3 when
    the count is below 3; it logs one diagnostic and returns the length of
    the data when the count is at least 3 and does not divide the length; on
    a 10-element array with 3 channels it returns 10. *)
Theorem checkNumChannels_cases :
  (forall data numChannels,
      (3 <= numChannels)%Z ->
      (numChannels | Z.of_nat (List.length data))%Z ->
      checkNumChannels data numChannels = (numChannels, []))
  /\ (forall data numChannels,
         (numChannels < 3)%Z ->
         checkNumChannels data numChannels = (3%Z, [TooFewChannels numChannels]))
  /\ (forall data numChannels,
         (3 <= numChannels)%Z ->
         ~ (numChannels | Z.of_nat (List.length data))%Z ->
         checkNumChannels data numChannels
         = (Z.of_nat (List.length data),
            [ChannelsDoNotDivide numChannels (List.length data)]))
  /\ checkNumChannels oneToTen 3 = (10%Z, [ChannelsDoNotDivide 3 10]).
Proof.
  split; [|split; [|split; [|reflexivity]]].
  - intros data numChannels H3 Hdiv. unfold checkNumChannels.
    destruct (Z.ltb_spec numChannels 3); [lia|].
    apply Z.rem_divide in Hdiv; [|lia]. rewrite Hdiv. reflexivity.
  - intros data numChannels H3. unfold checkNumChannels.
    destruct (Z.ltb_spec numChannels 3); [reflexivity|lia].
  - intros data numChannels H3 Hdiv. unfold checkNumChannels.
    destruct (Z.ltb_spec numChannels 3); [lia|].
    destruct (Z.eqb_spec (Z.rem (Z.of_nat (List.length data)) numChannels) 0) as [E|E];
      [|reflexivity].
    exfalso. apply Hdiv. apply Z.rem_divide; [lia|exact E].
Qed.

Lemma checkNumChannels_cases_witness :
  checkNumChannels twelve 4 = (4%Z, [])
  /\ checkNumChannels twelve 2 = (3%Z, [TooFewChannels 2])
  /\ checkNumChannels twelve 5 = (12%Z, [ChannelsDoNotDivide 5 12]).
Proof.
  split; [|split].
  - apply (proj1 checkNumChannels_cases twelve 4%Z); [lia|].
    exists 3%Z. reflexivity.
  - apply (proj1 (proj2 checkNumChannels_cases) twelve 2%Z). lia.
  - apply (proj1 (proj2 (proj2 checkNumChannels_cases)) twelve 5%Z); [lia|].
    intros [k Hk]. cbn in Hk. lia.
Defined.

(** The cleaned channel count is never below 1, so the division of the
    constructor is by a positive number. *)
Lemma checkNumChannels_positive (data : list Q) (numChannels : Z) :
  (1 <= fst (checkNumChannels data numChannels))%Z.
Proof.
  unfold checkNumChannels.
  destruct (Z.ltb_spec numChannels 3); cbn [fst]; [lia|].
  destruct (Z.eqb_spec (Z.rem (Z.of_nat (List.length data)) numChannels) 0) as [E|E];
    cbn [negb fst]; [lia|].
  destruct (List.length data); [|lia].
  exfalso. apply E. apply Z.rem_0_l. lia.
Qed.

(** With a requested count of at least 3 the cleaned count divides the
    length, and [numPoints] is the integer quotient. *)
Lemma numPoints_floor_from_three (data : list Q)
    (format : CoordinateFormat.CoordinateFormatSpec) (numChannels : Z) :
  (3 <= numChannels)%Z ->
  numPoints (fst (new data format numChannels))
  == inject_Z (Z.of_nat (List.length data)
               / PointBuffer.numChannels (fst (new data format numChannels)))%Z.
Proof.
  intros H3. unfold new. cbn [fst numPoints PointBuffer.numChannels].
  pose proof (checkNumChannels_positive data numChannels) as Hpos.
  assert (Hdiv : (fst (checkNumChannels data numChannels)
                  | Z.of_nat (List.length data))%Z).
  { unfold checkNumChannels.
    destruct (Z.ltb_spec numChannels 3); [lia|].
    destruct (Z.eqb_spec (Z.rem (Z.of_nat (List.length data)) numChannels) 0) as [E|E];
      cbn [negb fst].
    - apply Z.rem_divide; [lia|exact E].
    - apply Z.divide_refl. }
  set (c := fst (checkNumChannels data numChannels)) in *.
  destruct Hdiv as [k Hk]. rewrite Hk.
  rewrite Z.div_mul by lia.
  rewrite inject_Z_mult. field.
  intros H0. apply (inject_Z_injective c 0%Z) in H0. lia.
Qed.

(** A buffer of 12 numbers with 3 channels has 4 points, and its first point
    is made of the first 3 numbers. *)
Example twelve_by_three :
  numPoints (fst (new twelve CoordinateFormat.XYZ 3)) == 4
  /\ getPoint (fst (new twelve CoordinateFormat.XYZ 3)) 0 = ([10; 11; 12], []).
Proof. split; reflexivity. Qed.

(** C7: at data of length 10 and a requested count of 2 the constructor
    stores the fallback count 3 and [numPoints] = 10/3, which is not the
    integer floor(10 / 3) = 3. *)
Theorem numPoints_not_floored :
  PointBuffer.numChannels (fst (new oneToTen CoordinateFormat.XYZ 2)) = 3%Z
  /\ numPoints (fst (new oneToTen CoordinateFormat.XYZ 2)) == 10 # 3
  /\ ~ numPoints (fst (new oneToTen CoordinateFormat.XYZ 2))
       == inject_Z (Z.of_nat (List.length oneToTen)
                    / PointBuffer.numChannels (fst (new oneToTen CoordinateFormat.XYZ 2)))%Z.
Proof.
  split; [reflexivity|]. split; [reflexivity|].
  intros H. vm_compute in H. discriminate H.
Qed.

(** *** Buffers whose channel count is at least 3 and divides the length

    For these buffers every point has its three coordinates and [getCoords]
    returns one vector for each of the [length / numChannels] points. *)

Lemma mapM_total {A B : Type} (f : A -> option B) (l : list A) :
  (forall a, In a l -> exists b, f a = Some b) ->
  exists bs, mapM f l = Some bs /\ List.length bs = List.length l.
Proof.
  induction l as [|a rest IH]; intros Hall.
  - exists []. split; reflexivity.
  - destruct (Hall a (or_introl eq_refl)) as [b Hb].
    destruct (IH (fun x Hx => Hall x (or_intror Hx))) as [bs [Hbs Hlen]].
    exists (b :: bs). cbn [mapM]. rewrite Hb. cbn [bind]. rewrite Hbs. cbn [bind].
    split; [reflexivity|cbn; lia].
Qed.

Lemma toThreeJSCoords_total (f : CoordinateFormat.CoordinateFormatSpec) (v : Vector3.t) :
  In f CoordinateFormat.CoordinateFormat ->
  exists w, CoordinateFormat.toThreeJSCoords f v = Some w.
Proof.
  intros Hin. cbn in Hin.
  repeat (destruct Hin as [<-|Hin]; [eexists; reflexivity|]). destruct Hin.
Qed.

(** With one of the six formats, reading the coordinates of a point never
    throws, whatever the buffer holds: values that are missing count as 0. *)
Lemma getPointCoords_total (this : PointBuffer.t) (pointIdx : Q) :
  In (PointBuffer.format this) CoordinateFormat.CoordinateFormat ->
  exists v, getPointCoords this pointIdx = Some v.
Proof.
  intros Hf. unfold getPointCoords. apply toThreeJSCoords_total. exact Hf.
Qed.


Lemma toInteger_inject_Z (z : Z) : TypedArray.toInteger (inject_Z z) = z.
Proof. unfold TypedArray.toInteger. cbn. apply Z.quot_1_r. Qed.

Lemma toInteger_comp (q : Q) (z : Z) : q == inject_Z z -> TypedArray.toInteger q = z.
Proof.
  unfold TypedArray.toInteger, Qeq. cbn. intros H. rewrite Z.mul_1_r in H.
  rewrite H. apply Z.quot_mul. discriminate.
Qed.

Lemma resolve_inside (len relative : Z) :
  (0 <= relative <= len)%Z -> TypedArray.resolve len relative = relative.
Proof.
  intros H. unfold TypedArray.resolve.
  destruct (Z.ltb_spec relative 0); lia.
Qed.

Section WellFormed.

Variable data : list Q.
Variable format : CoordinateFormat.CoordinateFormatSpec.
Variable channels : Z.
Variable count : Z.

Hypothesis enough_channels : (3 <= channels)%Z.
Hypothesis count_nonneg : (0 <= count)%Z.
Hypothesis exact_length : Z.of_nat (List.length data) = (count * channels)%Z.
Hypothesis known_format : In format CoordinateFormat.CoordinateFormat.

Lemma wellformed_new :
  new data format channels
  = (mk data format channels
        (inject_Z (Z.of_nat (List.length data)) / inject_Z channels), []).
Proof.
  unfold new, checkNumChannels.
  destruct (Z.ltb_spec channels 3); [lia|].
  rewrite exact_length, Z.rem_mul by lia. reflexivity.
Qed.

Lemma wellformed_numPoints :
  inject_Z (Z.of_nat (List.length data)) / inject_Z channels == inject_Z count.
Proof.
  rewrite exact_length, inject_Z_mult. field.
  intros H0. apply (inject_Z_injective channels 0%Z) in H0. lia.
Qed.

Lemma wellformed_getPoint (i : nat) :
  (Z.of_nat i < count)%Z ->
  getPoint (fst (new data format channels)) (inject_Z (Z.of_nat i))
  = (firstn (Z.to_nat channels) (skipn (Z.to_nat (channels * Z.of_nat i)) data), []).
Proof.
  intros Hi. rewrite wellformed_new. cbn [fst].
  unfold getPoint, checkPointIdx. cbn [numPoints numChannels PointBuffer.data].
  assert (H0 : Num.ltb (inject_Z (Z.of_nat i)) 0 = false).
  { apply Num_ltb_ge. change 0 with (inject_Z 0). rewrite <- Zle_Qle. lia. }
  assert (H1 : Num.leb (inject_Z (Z.of_nat (List.length data)) / inject_Z channels)
                 (inject_Z (Z.of_nat i)) = false).
  { apply Num_leb_gt. rewrite wellformed_numPoints. rewrite <- Zlt_Qlt. exact Hi. }
  rewrite H0, H1. cbn [orb fst snd]. f_equal.
  unfold TypedArray.slice.
  rewrite (toInteger_comp (inject_Z channels * inject_Z (Z.of_nat i))
             (channels * Z.of_nat i))
    by (rewrite inject_Z_mult; reflexivity).
  rewrite (toInteger_comp (inject_Z channels * (inject_Z (Z.of_nat i) + 1))
             (channels * (Z.of_nat i + 1)))
    by (rewrite inject_Z_mult, inject_Z_plus; reflexivity).
  rewrite !resolve_inside by nia.
  f_equal. lia.
Qed.

Lemma wellformed_getCoords :
  exists coords,
    getCoords (fst (new data format channels)) = Some coords
    /\ List.length coords = Z.to_nat count.
Proof.
  unfold getCoords.
  assert (Hrange : Lodash.range (numPoints (fst (new data format channels)))
                   = seq 0 (Z.to_nat count)).
  { rewrite wellformed_new. cbn [fst numPoints]. unfold Lodash.range.
    rewrite (Qceiling_comp _ _ wellformed_numPoints), Qceiling_Z. reflexivity. }
  rewrite Hrange.
  destruct (mapM_total
              (fun i => getPointCoords (fst (new data format channels))
                          (inject_Z (Z.of_nat i)))
              (seq 0 (Z.to_nat count))) as [coords [Hc Hlen]].
  - intros i _. apply getPointCoords_total. rewrite wellformed_new. exact known_format.
  - exists coords. split; [exact Hc|]. rewrite Hlen. apply length_seq.
Qed.

End WellFormed.

End PointBuffers.

(** ** The picker: nearest hit *)

Section NearestHit.

Import Picker.

Context {TObject : Type}.
Context (TObject_eq_dec : forall a b : TObject, {a = b} + {a <> b}).
Context {Raycaster : Type}.

Lemma nth_error_snoc (done : list TObject) (obj : TObject) (j : nat) (o : TObject) :
  nth_error (done ++ [obj]) j = Some o ->
  ((j < List.length done)%nat /\ nth_error done j = Some o)
  \/ (j = List.length done /\ o = obj).
Proof.
  intros H.
  destruct (Nat.lt_ge_cases j (List.length done)) as [Hlt|Hge].
  - left. split; [exact Hlt|]. rewrite nth_error_app1 in H by exact Hlt. exact H.
  - right. rewrite nth_error_app2 in H by exact Hge.
    destruct (j - List.length done)%nat as [|k] eqn:E.
    + cbn in H. split; [lia|congruence].
    + cbn in H. destruct k; discriminate H.
Qed.

Lemma tracked_start (this : @Picker.t TObject Raycaster) : tracked this [] None None.
Proof. intros o []. Qed.

(** One iteration of the loop keeps the invariant. *)
Lemma tracked_skip (this : @Picker.t TObject Raycaster) (done : list TObject) (obj : TObject)
    (hovered : option TObject) (minDistance : option Q) :
  tracked this done hovered minDistance ->
  firstDistance this obj = None ->
  tracked this (done ++ [obj]) hovered minDistance.
Proof.
  intros Hinv Hnone.
  destruct hovered as [o|], minDistance as [m|]; cbn in *; try contradiction.
  - destruct Hinv as [i [Hi [Hd Hall]]]. exists i.
    split; [|split; [exact Hd|]].
    + rewrite nth_error_app1; [exact Hi|].
      apply nth_error_Some. congruence.
    + intros j o' d' Hj Hd'.
      apply nth_error_snoc in Hj. destruct Hj as [[_ Hj]|[_ ->]].
      * exact (Hall j o' d' Hj Hd').
      * congruence.
  - intros o Hin. apply in_app_or in Hin. destruct Hin as [Hin|[<-|[]]].
    + exact (Hinv o Hin).
    + exact Hnone.
Qed.

Lemma tracked_take (this : @Picker.t TObject Raycaster) (done : list TObject) (obj : TObject)
    (hovered : option TObject) (minDistance : option Q) (d : Q) :
  tracked this done hovered minDistance ->
  firstDistance this obj = Some d ->
  closer d minDistance = true ->
  tracked this (done ++ [obj]) (Some obj) (Some d).
Proof.
  intros Hinv Hd Hcloser. cbn.
  exists (List.length done).
  split; [|split; [exact Hd|]].
  - rewrite nth_error_app2 by lia. rewrite Nat.sub_diag. reflexivity.
  - intros j o' d' Hj Hd'.
    apply nth_error_snoc in Hj. destruct Hj as [[Hlt Hj]|[-> ->]].
    + destruct hovered as [o|], minDistance as [m|]; cbn in *; try contradiction.
      * destruct Hinv as [i [_ [_ Hall]]].
        apply Num_ltb_lt in Hcloser.
        destruct (Hall j o' d' Hj Hd') as [Hle _].
        split; [|intros _]; lra.
      * apply nth_error_In in Hj. rewrite (Hinv o' Hj) in Hd'. discriminate Hd'.
    + rewrite Hd in Hd'. injection Hd' as <-.
      split; [lra|lia].
Qed.

Lemma tracked_keep (this : @Picker.t TObject Raycaster) (done : list TObject) (obj : TObject)
    (hovered : option TObject) (minDistance : option Q) (d : Q) :
  tracked this done hovered minDistance ->
  firstDistance this obj = Some d ->
  closer d minDistance = false ->
  tracked this (done ++ [obj]) hovered minDistance.
Proof.
  intros Hinv Hd Hcloser.
  destruct hovered as [o|], minDistance as [m|]; cbn in *; try contradiction;
    try discriminate Hcloser.
  destruct Hinv as [i [Hi [Hm Hall]]]. exists i.
  assert (Hlt : (i < List.length done)%nat) by (apply nth_error_Some; congruence).
  split; [|split; [exact Hm|]].
  - rewrite nth_error_app1 by exact Hlt. exact Hi.
  - intros j o' d' Hj Hd'.
    apply nth_error_snoc in Hj. destruct Hj as [[_ Hj]|[-> ->]].
    + exact (Hall j o' d' Hj Hd').
    + rewrite Hd in Hd'. injection Hd' as <-.
      apply Num_ltb_ge in Hcloser. split; [exact Hcloser|lia].
Qed.

Lemma tracked_nearest (this : @Picker.t TObject Raycaster) (done : list TObject)
    (hovered : option TObject) (minDistance : option Q) :
  tracked this done hovered minDistance -> nearestFirst this done hovered.
Proof.
  destruct hovered as [o|], minDistance as [m|]; cbn; try contradiction.
  - intros [i H]. exists i, m. exact H.
  - intros H. exact H.
Qed.

Lemma getHoveredObj_loop_nearest (this : @Picker.t TObject Raycaster) (remaining : list TObject) :
  forall done hovered minDistance,
    tracked this done hovered minDistance ->
    nearestFirst this (done ++ remaining)
      (getHoveredObj_loop this remaining hovered minDistance).
Proof.
  induction remaining as [|obj rest IH]; intros done hovered minDistance Hinv.
  - rewrite app_nil_r. cbn. apply (tracked_nearest _ _ _ _ Hinv).
  - replace (done ++ obj :: rest) with ((done ++ [obj]) ++ rest)
      by (rewrite <- app_assoc; reflexivity).
    cbn [getHoveredObj_loop].
    destruct (raycastFunc this obj (raycaster this)) as [|first others] eqn:E.
    + apply IH. apply tracked_skip; [exact Hinv|].
      unfold firstDistance. rewrite E. reflexivity.
    + assert (Hd : firstDistance this obj = Some (distance first))
        by (unfold firstDistance; rewrite E; reflexivity).
      destruct (closer (distance first) minDistance) eqn:C; apply IH.
      * exact (tracked_take _ _ _ _ _ _ Hinv Hd C).
      * exact (tracked_keep _ _ _ _ _ _ Hinv Hd C).
Qed.

Lemma getHoveredObj_nearestFirst (this : @Picker.t TObject Raycaster) :
  nearestFirst this (elements (objects this)) (getHoveredObj this).
Proof.
  unfold getHoveredObj.
  apply (getHoveredObj_loop_nearest this (elements (objects this)) [] None None).
  apply tracked_start.
Qed.

Lemma firstDistance_None (this : @Picker.t TObject Raycaster) (o : TObject) :
  firstDistance this o = None <-> raycastFunc this o (raycaster this) = [].
Proof.
  unfold firstDistance.
  destruct (raycastFunc this o (raycaster this)); split; congruence.
Qed.

Lemma getHoveredObj_member (this : @Picker.t TObject Raycaster) (o : TObject) :
  getHoveredObj this = Some o -> In o (elements (objects this)).
Proof.
  intros H. pose proof (getHoveredObj_nearestFirst this) as Hn.
  rewrite H in Hn. destruct Hn as [i [d [Hi _]]].
  exact (nth_error_In _ _ Hi).
Qed.

Lemma getHoveredObj_None (this : @Picker.t TObject Raycaster) :
  getHoveredObj this = None
  <-> forall o, In o (elements (objects this)) -> raycastFunc this o (raycaster this) = [].
Proof.
  pose proof (getHoveredObj_nearestFirst this) as Hn. split.
  - intros H o Hin. rewrite H in Hn. apply firstDistance_None. exact (Hn o Hin).
  - intros Hall. destruct (getHoveredObj this) as [o|] eqn:E; [|reflexivity].
    destruct Hn as [i [d [Hi [Hd _]]]].
    apply nth_error_In in Hi. apply Hall, firstDistance_None in Hi. congruence.
Qed.

(** C3: [getHoveredObj] returns the object of the set whose first
    intersection is at the least distance, the first such object in iteration
    order; objects without intersections are skipped; the result is null
    exactly when no object intersects; the result is always one of the
    current objects, so once the objects are replaced by a collection that
    lacks a given object, the picker holds no hovered or selected object and
    a new query cannot return the missing one. *)
Theorem getHoveredObj_nearest :
  (forall this : @Picker.t TObject Raycaster,
      nearestFirst this (elements (objects this)) (getHoveredObj this))
  /\ (forall this : @Picker.t TObject Raycaster,
         getHoveredObj this = None
         <-> forall o, In o (elements (objects this)) ->
                       raycastFunc this o (raycaster this) = [])
  /\ (forall (this : @Picker.t TObject Raycaster) o,
         ~ In o (elements (objects this)) -> getHoveredObj this <> Some o)
  /\ (forall (this : @Picker.t TObject Raycaster) value o,
         reference value <> reference (objects this) ->
         ~ In o (elements value) ->
         objects (fst (set_objects TObject_eq_dec value this)) = value
         /\ hoveredObj (fst (set_objects TObject_eq_dec value this)) = None
         /\ selectedObj (fst (set_objects TObject_eq_dec value this)) = None
         /\ getHoveredObj (fst (set_objects TObject_eq_dec value this)) <> Some o).
Proof.
  split; [exact getHoveredObj_nearestFirst|].
  split; [exact getHoveredObj_None|].
  split.
  - intros this o Hnot H. apply Hnot. exact (getHoveredObj_member this o H).
  - intros this value o Href Hnot.
    assert (Hobjs : objects (fst (set_objects TObject_eq_dec value this)) = value
                    /\ hoveredObj (fst (set_objects TObject_eq_dec value this)) = None
                    /\ selectedObj (fst (set_objects TObject_eq_dec value this)) = None).
    { unfold set_objects.
      destruct (Nat.eqb_spec (reference (objects this)) (reference value)) as [E|E];
        [congruence|].
      cbn [negb]. unfold andThen, set_selectedObj, set_hoveredObj,
        setSelectedObj, setHoveredObj.
      destruct this as [he se objs rf rc [h|] [s|]]; cbn; repeat split. }
    destruct Hobjs as [Hobjs [Hh Hs]].
    repeat split; try assumption.
    intros H. apply getHoveredObj_member in H. rewrite Hobjs in H. contradiction.
Qed.

End NearestHit.

Section NearestHitExamples.

Import Picker.

Lemma getHoveredObj_nearest_witness :
  reference PickerExample.withoutNearest <> reference (objects PickerExample.busy)
  /\ ~ In 1%nat (elements PickerExample.withoutNearest)
  /\ getHoveredObj PickerExample.busy = Some 1%nat
  /\ hoveredObj (fst (set_objects Nat.eq_dec PickerExample.withoutNearest PickerExample.busy))
     = None
  /\ getHoveredObj (fst (set_objects Nat.eq_dec PickerExample.withoutNearest PickerExample.busy))
     <> Some 1%nat.
Proof.
  assert (Href : reference PickerExample.withoutNearest
                 <> reference (objects PickerExample.busy)) by (cbn; lia).
  assert (Hnot : ~ In 1%nat (elements PickerExample.withoutNearest))
    by (cbn; intros [H|[H|[]]]; discriminate H).
  split; [exact Href|]. split; [exact Hnot|]. split; [reflexivity|].
  destruct (proj2 (proj2 (proj2 (getHoveredObj_nearest Nat.eq_dec)))
              PickerExample.busy PickerExample.withoutNearest 1%nat Href Hnot)
    as [_ [Hh [_ Hq]]].
  split; [exact Hh|exact Hq].
Defined.

(** The distances 5, 2, 8: the object at distance 2 is returned; after the
    objects are replaced by the two others, the query returns the object at
    distance 5. *)
Example three_distances :
  getHoveredObj PickerExample.initial = Some 1%nat
  /\ getHoveredObj
       (fst (set_objects Nat.eq_dec PickerExample.withoutNearest PickerExample.initial))
     = Some 0%nat.
Proof. split; reflexivity. Qed.

End NearestHitExamples.

(** ** The picker: guarded writes *)

Section GuardedWrites.

Import Picker.

Context {TObject : Type}.
Context (TObject_eq_dec : forall a b : TObject, {a = b} + {a <> b}).
Context {Raycaster : Type}.

Lemma differs_false (prev value : option TObject) :
  differs TObject_eq_dec prev value = false <-> value = prev.
Proof.
  unfold differs, same.
  destruct prev as [a|], value as [b|]; try (split; congruence).
  destruct (TObject_eq_dec a b); cbn; split; congruence.
Qed.

Lemma differs_true (prev value : option TObject) :
  differs TObject_eq_dec prev value = true <-> value <> prev.
Proof.
  rewrite <- differs_false. destruct (differs TObject_eq_dec prev value); split; congruence.
Qed.

Lemma every_other (objs : list TObject) (o : TObject) :
  CollectionUtils.every objs (fun e => negb (same TObject_eq_dec e o)) = true
  <-> ~ In o objs.
Proof.
  induction objs as [|e rest IH]; cbn.
  - split; [intros _ []|reflexivity].
  - unfold same at 1. destruct (TObject_eq_dec e o) as [E|E]; cbn.
    + split; [discriminate|]. intros H. exfalso. apply H. left. exact E.
    + rewrite IH. split.
      * intros H [H'|H']; [exact (E H')|exact (H H')].
      * intros H H'. apply H. right. exact H'.
Qed.

Lemma events_transition (this : @Picker.t TObject Raycaster) (out into : EventType)
    (message : string) (prev value : option TObject) (isFromPointer : bool) :
  events (leave out prev isFromPointer
          ++ enter TObject_eq_dec this into message value isFromPointer)
  = transitionEvents out into prev value isFromPointer.
Proof.
  unfold transitionEvents, leave, enter, events.
  destruct prev as [p|], value as [v|]; cbn; try reflexivity;
    destruct (CollectionUtils.every _ _); reflexivity.
Qed.

Lemma warnings_transition (this : @Picker.t TObject Raycaster) (out into : EventType)
    (message : string) (prev value : option TObject) (isFromPointer : bool) :
  warnings (leave out prev isFromPointer
            ++ enter TObject_eq_dec this into message value isFromPointer)
  = match value with
    | Some o =>
        if CollectionUtils.every (elements (objects this))
             (fun e => negb (same TObject_eq_dec e o))
        then [message] else []
    | None => []
    end.
Proof.
  unfold leave, enter, warnings.
  destruct prev as [p|], value as [v|]; cbn; try reflexivity;
    destruct (CollectionUtils.every _ _); reflexivity.
Qed.

Lemma setHoveredObj_same (this : @Picker.t TObject Raycaster) (isFromPointer : bool) :
  setHoveredObj TObject_eq_dec (hoveredObj this) isFromPointer this = (this, []).
Proof.
  unfold setHoveredObj.
  rewrite (proj2 (differs_false (hoveredObj this) (hoveredObj this)) eq_refl).
  reflexivity.
Qed.

Lemma setSelectedObj_same (this : @Picker.t TObject Raycaster) (isFromPointer : bool) :
  setSelectedObj TObject_eq_dec (selectedObj this) isFromPointer this = (this, []).
Proof.
  unfold setSelectedObj.
  rewrite (proj2 (differs_false (selectedObj this) (selectedObj this)) eq_refl).
  reflexivity.
Qed.

Lemma setHoveredObj_changed (this : @Picker.t TObject Raycaster)
    (value : option TObject) (isFromPointer : bool) :
  value <> hoveredObj this ->
  setHoveredObj TObject_eq_dec value isFromPointer this
  = (with_hoveredObj this value,
     leave hoverout (hoveredObj this) isFromPointer
     ++ enter TObject_eq_dec this hoverin
          "This picker does not interact with the object to hover over"
          value isFromPointer).
Proof.
  intros H. unfold setHoveredObj.
  rewrite (proj2 (differs_true (hoveredObj this) value) H). reflexivity.
Qed.

Lemma setSelectedObj_changed (this : @Picker.t TObject Raycaster)
    (value : option TObject) (isFromPointer : bool) :
  value <> selectedObj this ->
  setSelectedObj TObject_eq_dec value isFromPointer this
  = (with_selectedObj this value,
     leave selectout (selectedObj this) isFromPointer
     ++ enter TObject_eq_dec this selectin
          "This picker does not interact with the object to select"
          value isFromPointer).
Proof.
  intros H. unfold setSelectedObj.
  rewrite (proj2 (differs_true (selectedObj this) value) H). reflexivity.
Qed.

(** Every event of a transition carries the flag of the call. *)
Lemma setHoveredObj_flag (this : @Picker.t TObject Raycaster)
    (value : option TObject) (isFromPointer : bool) (e : PickerEvent) :
  In e (events (snd (setHoveredObj TObject_eq_dec value isFromPointer this))) ->
  Picker.isFromPointer e = isFromPointer.
Proof.
  unfold setHoveredObj. destruct (differs _ _ _); cbn [snd]; [|intros []].
  rewrite events_transition. unfold transitionEvents.
  destruct (hoveredObj this), value; cbn; intros H;
    repeat (destruct H as [<-|H]; [reflexivity|]); destruct H.
Qed.

Lemma setSelectedObj_flag (this : @Picker.t TObject Raycaster)
    (value : option TObject) (isFromPointer : bool) (e : PickerEvent) :
  In e (events (snd (setSelectedObj TObject_eq_dec value isFromPointer this))) ->
  Picker.isFromPointer e = isFromPointer.
Proof.
  unfold setSelectedObj. destruct (differs _ _ _); cbn [snd]; [|intros []].
  rewrite events_transition. unfold transitionEvents.
  destruct (selectedObj this), value; cbn; intros H;
    repeat (destruct H as [<-|H]; [reflexivity|]); destruct H.
Qed.

(** C6: assigning the hovered or the selected object is a guarded write.
    Assigning the current value changes nothing and produces no output.
    Assigning another value leaves a picker that holds the new value in that
    role and is otherwise as before, and dispatches first the "out" event of
    the previous value, when it is not null, then the "in" event of the new
    value, when it is not null, each with the flag given to the call; a
    warning is logged exactly when the new value is an object that is not
    among the tracked objects, and the transition is performed all the same.
    The setters pass the flag false, the pointer listeners the flag true. *)
Theorem guarded_write (this : @Picker.t TObject Raycaster)
    (value : option TObject) (isFromPointer : bool) :
  (value = hoveredObj this ->
   setHoveredObj TObject_eq_dec value isFromPointer this = (this, []))
  /\ (value <> hoveredObj this ->
      fst (setHoveredObj TObject_eq_dec value isFromPointer this)
      = Picker.mk (hoverEnabled this) (selectEnabled this) (objects this)
          (raycastFunc this) (raycaster this) value (selectedObj this)
      /\ events (snd (setHoveredObj TObject_eq_dec value isFromPointer this))
         = transitionEvents hoverout hoverin (hoveredObj this) value isFromPointer
      /\ (warnings (snd (setHoveredObj TObject_eq_dec value isFromPointer this)) <> []
          <-> exists o, value = Some o /\ ~ In o (elements (objects this))))
  /\ (value = selectedObj this ->
      setSelectedObj TObject_eq_dec value isFromPointer this = (this, []))
  /\ (value <> selectedObj this ->
      fst (setSelectedObj TObject_eq_dec value isFromPointer this)
      = Picker.mk (hoverEnabled this) (selectEnabled this) (objects this)
          (raycastFunc this) (raycaster this) (hoveredObj this) value
      /\ events (snd (setSelectedObj TObject_eq_dec value isFromPointer this))
         = transitionEvents selectout selectin (selectedObj this) value isFromPointer
      /\ (warnings (snd (setSelectedObj TObject_eq_dec value isFromPointer this)) <> []
          <-> exists o, value = Some o /\ ~ In o (elements (objects this))))
  /\ (forall e,
         In e (events (snd (set_hoveredObj TObject_eq_dec value this)))
         \/ In e (events (snd (set_selectedObj TObject_eq_dec value this))) ->
         Picker.isFromPointer e = false)
  /\ (forall moved button e,
         In e (events (snd (onPointerMove TObject_eq_dec moved this)))
         \/ In e (events (snd (onPointerDown TObject_eq_dec button this))) ->
         Picker.isFromPointer e = true).
Proof.
  assert (Hwarn : forall message : string,
             (match value with
              | Some o =>
                  if CollectionUtils.every (elements (objects this))
                       (fun e => negb (same TObject_eq_dec e o))
                  then [message] else []
              | None => []
              end <> [])
             <-> exists o, value = Some o /\ ~ In o (elements (objects this))).
  { intros message. destruct value as [o|].
    - destruct (CollectionUtils.every _ _) eqn:E.
      + apply every_other in E. split; [|discriminate].
        intros _. exists o. split; [reflexivity|exact E].
      + split; [congruence|]. intros [o' [Ho' Hnot]]. injection Ho' as <-.
        apply every_other in Hnot. congruence.
    - split; [congruence|]. intros [o [Ho _]]. discriminate Ho. }
  split; [intros ->; apply setHoveredObj_same|].
  split.
  { intros H. rewrite (setHoveredObj_changed this value isFromPointer H). cbn [fst snd].
    rewrite events_transition, warnings_transition.
    split; [reflexivity|]. split; [reflexivity|]. apply Hwarn. }
  split; [intros ->; apply setSelectedObj_same|].
  split.
  { intros H. rewrite (setSelectedObj_changed this value isFromPointer H). cbn [fst snd].
    rewrite events_transition, warnings_transition.
    split; [reflexivity|]. split; [reflexivity|]. apply Hwarn. }
  split.
  - intros e [H|H].
    + exact (setHoveredObj_flag this value false e H).
    + exact (setSelectedObj_flag this value false e H).
  - intros moved button e [H|H].
    + unfold onPointerMove in H.
      destruct (hoverEnabled (with_raycaster this moved)); [|destruct H].
      exact (setHoveredObj_flag _ _ true e H).
    + unfold onPointerDown in H.
      destruct (button =? 0)%Z; [|destruct H].
      destruct (selectEnabled this); [|destruct H].
      exact (setSelectedObj_flag _ _ true e H).
Qed.

(** C10: setting [hoverEnabled] to false clears the hovered object,
    dispatching its "hoverout" event exactly when there was one, and keeps
    the selected object and the objects; setting [selectEnabled] to false
    keeps the hovered object, the selected object and the objects, and
    produces no output. *)
Theorem disabling_frames (this : @Picker.t TObject Raycaster) :
  (hoverEnabled (fst (set_hoverEnabled TObject_eq_dec false this)) = false
   /\ hoveredObj (fst (set_hoverEnabled TObject_eq_dec false this)) = None
   /\ selectedObj (fst (set_hoverEnabled TObject_eq_dec false this)) = selectedObj this
   /\ objects (fst (set_hoverEnabled TObject_eq_dec false this)) = objects this
   /\ selectEnabled (fst (set_hoverEnabled TObject_eq_dec false this)) = selectEnabled this
   /\ snd (set_hoverEnabled TObject_eq_dec false this)
      = match hoveredObj this with
        | Some o => [Dispatch (mkEvent hoverout o false)]
        | None => []
        end)
  /\ (selectEnabled (fst (set_selectEnabled false this)) = false
      /\ hoveredObj (fst (set_selectEnabled false this)) = hoveredObj this
      /\ selectedObj (fst (set_selectEnabled false this)) = selectedObj this
      /\ objects (fst (set_selectEnabled false this)) = objects this
      /\ hoverEnabled (fst (set_selectEnabled false this)) = hoverEnabled this
      /\ snd (set_selectEnabled false this) = []).
Proof.
  split; [|repeat split].
  unfold set_hoverEnabled, set_hoveredObj, setHoveredObj.
  destruct this as [he se objs rf rc [h|] s]; cbn; repeat split.
Qed.

End GuardedWrites.

Section GuardedWriteExamples.

Import Picker.

Lemma guarded_write_witness :
  setHoveredObj Nat.eq_dec (Some 1%nat) true PickerExample.busy = (PickerExample.busy, [])
  /\ snd (setHoveredObj Nat.eq_dec (Some 7%nat) true PickerExample.busy)
     = [Dispatch (mkEvent hoverout 1%nat true);
        Warn "This picker does not interact with the object to hover over";
        Dispatch (mkEvent hoverin 7%nat true)]
  /\ fst (setSelectedObj Nat.eq_dec (Some 0%nat) false PickerExample.busy)
     = mk true true PickerExample.threeObjects PickerExample.raycast tt
         (Some 1%nat) (Some 0%nat)
  /\ events (snd (setSelectedObj Nat.eq_dec (Some 0%nat) false PickerExample.busy))
     = [mkEvent selectout 2%nat false; mkEvent selectin 0%nat false].
Proof.
  split; [|split].
  - apply (proj1 (guarded_write Nat.eq_dec PickerExample.busy (Some 1%nat) true)).
    reflexivity.
  - reflexivity.
  - assert (Hne : Some 0%nat <> selectedObj PickerExample.busy) by (cbn; congruence).
    destruct (proj1 (proj2 (proj2 (proj2
                (guarded_write Nat.eq_dec PickerExample.busy (Some 0%nat) false)))) Hne)
      as [Hstate [Hev _]].
    split; [exact Hstate|exact Hev].
Defined.

(** Disabling the hover while object 1 is hovered. *)
Example disabling_busy :
  set_hoverEnabled Nat.eq_dec false PickerExample.busy
  = (mk false true PickerExample.threeObjects PickerExample.raycast tt None (Some 2%nat),
     [Dispatch (mkEvent hoverout 1%nat false)])
  /\ set_selectEnabled false PickerExample.busy
     = (mk true false PickerExample.threeObjects PickerExample.raycast tt
          (Some 1%nat) (Some 2%nat), []).
Proof. split; reflexivity. Qed.

End GuardedWriteExamples.

(** ** Creating and editing selections *)

Section Selections.

Import EditSelection.

Lemma filterByIndex_shift {A : Type} (keep : nat -> option bool) (l : list A) :
  forall i, filterByIndex keep (S i) l = filterByIndex (fun j => keep (S j)) i l.
Proof.
  induction l as [|a rest IH]; intros i; [reflexivity|].
  cbn [filterByIndex]. rewrite IH. reflexivity.
Qed.

Lemma inDrawnObject_defined (object : Shape) (p : Vector3.t) :
  inDrawnObject object (Some p) = Some (inside object p).
Proof. destruct object as [[|v vs]|c r]; reflexivity. Qed.

(** With a cache that covers every index, the filter of both queries
    succeeds and keeps the matched points. *)
Lemma filterByIndex_matched (object : Shape) (points : list Vector3.t) :
  forall cache,
    (List.length points <= List.length cache)%nat ->
    filterByIndex (fun i => inDrawnObject object (nth_error cache i)) 0 points
    = Some (matchedPoints object points cache).
Proof.
  induction points as [|a rest IH]; intros cache Hlen; [reflexivity|].
  destruct cache as [|n cache]; [cbn in Hlen; lia|].
  cbn [filterByIndex nth_error]. rewrite inDrawnObject_defined. cbn [bind].
  rewrite filterByIndex_shift. cbn [nth_error].
  rewrite (IH cache) by (cbn in Hlen; lia). cbn [bind].
  unfold matchedPoints. cbn [combine filter snd].
  destruct (inside object n); reflexivity.
Qed.

Lemma queryPointFromPcd_matched (object : Shape) (pointCloud : PointCloud.t)
    (coords : list Vector3.t) :
  PointBuffer.getCoords (PointCloud.buffer pointCloud) = Some coords ->
  (List.length coords <= List.length (PointCloud.bufferNDC pointCloud))%nat ->
  queryPointFromPcd object pointCloud
  = Some (matchedPoints object coords (PointCloud.bufferNDC pointCloud)).
Proof.
  intros Hc Hlen. unfold queryPointFromPcd. rewrite Hc. cbn [bind].
  apply filterByIndex_matched. exact Hlen.
Qed.

Lemma queryPointFromSelection_matched (object : Shape) (selection : LabelSelection.t)
    (cache : list Vector3.t) :
  LabelSelection.pointsNDC selection = Some cache ->
  (List.length (LabelSelection.points selection) <= List.length cache)%nat ->
  queryPointFromSelection object selection
  = Some (matchedPoints object (LabelSelection.points selection) cache).
Proof.
  intros Hc Hlen. unfold queryPointFromSelection. rewrite Hc.
  apply filterByIndex_matched. exact Hlen.
Qed.

(** For a cloud over a buffer whose channel count is at least 3 and divides
    the length, with one of the six formats and a cache of at least as many
    projections as points, the query does not throw. *)
Lemma queryPointFromPcd_wellformed (object : Shape) (data : list Q)
    (format : CoordinateFormat.CoordinateFormatSpec) (channels count : Z)
    (cache : list Vector3.t) (size : Q) :
  (3 <= channels)%Z -> (0 <= count)%Z ->
  Z.of_nat (List.length data) = (count * channels)%Z ->
  In format CoordinateFormat.CoordinateFormat ->
  (Z.to_nat count <= List.length cache)%nat ->
  exists coords,
    PointBuffer.getCoords (fst (PointBuffer.new data format channels)) = Some coords
    /\ List.length coords = Z.to_nat count
    /\ queryPointFromPcd object
         (PointCloud.mk (fst (PointBuffer.new data format channels)) cache size)
       = Some (matchedPoints object coords cache).
Proof.
  intros H3 H0 Hlen Hf Hcache.
  destruct (wellformed_getCoords data format channels count H3 Hlen Hf)
    as [coords [Hc Hn]].
  exists coords. split; [exact Hc|]. split; [exact Hn|].
  apply queryPointFromPcd_matched; cbn [PointCloud.buffer PointCloud.bufferNDC];
    [exact Hc|lia].
Qed.



(** The two cases on the cloud of four points: the first and the third
    point are projected inside the unit circle; with every projection
    outside nothing happens. *)
Example createSelection_fourPoints :
  createSelection (EditSelection.mk None) unitCircle car fourPoints (1 # 4)
  = Some (EditSelection.mk
            (Some (LabelSelection.mk 30 [Vector3.mk 10 11 12; Vector3.mk 30 31 32]
                     None 2 (Some car))),
          [mkEvent selection_added
             (LabelSelection.mk 30 [Vector3.mk 10 11 12; Vector3.mk 30 31 32]
                None 2 (Some car))
             [Vector3.mk 10 11 12; Vector3.mk 30 31 32]])
  /\ createSelection (EditSelection.mk None) unitCircle car fourPointsOutside (1 # 4)
     = Some (EditSelection.mk None, []).
Proof. split; vm_compute; reflexivity. Qed.

(** A buffer with a point that lacks a coordinate: four numbers with a
    requested count of 2 are read as two points, (1,2,3) and (4,0,0), and a
    selection is created from them. *)
Example createSelection_missing_values :
  createSelection (EditSelection.mk None) unitCircle car
    (PointCloud.mk (fst (PointBuffer.new [1; 2; 3; 4] CoordinateFormat.XYZ 2))
       [Vector3.mk 0 0 0; Vector3.mk 0 0 0] 2)
    (1 # 4)
  = Some (EditSelection.mk
            (Some (LabelSelection.mk 30 [Vector3.mk 1 2 3; Vector3.mk 4 0 0]
                     None 2 (Some car))),
          [mkEvent selection_added
             (LabelSelection.mk 30 [Vector3.mk 1 2 3; Vector3.mk 4 0 0]
                None 2 (Some car))
             [Vector3.mk 1 2 3; Vector3.mk 4 0 0]]).
Proof. vm_compute. reflexivity. Qed.

(** A query that throws makes [createSelection] throw: with projections
    cached for a part of the cloud only, reading the projection of the first
    uncovered point fails, and nothing is created or dispatched. *)
Lemma createSelection_throws (this : EditSelection.t) (object : Shape)
    (labelClass : LabelClass.t) (pointCloud : PointCloud.t) (random : Q) :
  queryPointFromPcd object pointCloud = None ->
  createSelection this object labelClass pointCloud random = None.
Proof. intros H. unfold createSelection. rewrite H. reflexivity. Qed.


(** A polygon without vertices never reads the projections. *)
Example createSelection_no_vertices :
  createSelection (EditSelection.mk None) (Polygon []) car partlyCached (1 # 4)
  = Some (EditSelection.mk None, []).
Proof. vm_compute. reflexivity. Qed.

Lemma Vector3_equals_refl (p : Vector3.t) : Vector3.equals p p = true.
Proof. unfold Vector3.equals. rewrite !Num_eqb_refl. reflexivity. Qed.

Lemma fst_combine (points cache : list Vector3.t) :
  (List.length points <= List.length cache)%nat ->
  map fst (combine points cache) = points.
Proof.
  revert cache. induction points as [|a rest IH]; intros cache Hlen; [reflexivity|].
  destruct cache as [|n cache]; [cbn in Hlen; lia|].
  cbn. rewrite IH by (cbn in Hlen; lia). reflexivity.
Qed.

Lemma in_matchedPoints (object : Shape) (points cache : list Vector3.t) (q : Vector3.t) :
  In q (matchedPoints object points cache)
  <-> exists m, In (q, m) (combine points cache) /\ inside object m = true.
Proof.
  unfold matchedPoints. rewrite in_map_iff. split.
  - intros [[q' m] [Hq Hin]]. cbn in Hq. subst q'.
    apply filter_In in Hin. exists m. exact Hin.
  - intros [m [Hin Hm]]. exists (q, m). split; [reflexivity|].
    apply filter_In. split; assumption.
Qed.

(** Under [sameOutcome], a point of the selection has the coordinates of a
    matched point exactly when its own projection is inside. *)
Lemma isCoordinatesInArray_matched (object : Shape) (points cache : list Vector3.t)
    (p n : Vector3.t) :
  sameOutcome object points cache ->
  In (p, n) (combine points cache) ->
  ThreeUtils.isCoordinatesInArray (matchedPoints object points cache) p
  = inside object n.
Proof.
  intros Hsame Hin. unfold ThreeUtils.isCoordinatesInArray.
  destruct (inside object n) eqn:En.
  - apply existsb_exists. exists p. split; [|apply Vector3_equals_refl].
    apply in_matchedPoints. exists n. split; assumption.
  - destruct (existsb _ _) eqn:Ex; [|reflexivity].
    apply existsb_exists in Ex. destruct Ex as [q [Hq Heq]].
    apply in_matchedPoints in Hq. destruct Hq as [m [Hqm Hm]].
    rewrite (Hsame q m p n Hqm Hin Heq) in Hm. congruence.
Qed.

Lemma difference_count (object : Shape) (points cache : list Vector3.t) :
  (List.length points <= List.length cache)%nat ->
  sameOutcome object points cache ->
  (List.length (ThreeUtils.differenceOfArrays points (matchedPoints object points cache))
   + List.length (matchedPoints object points cache)
   = List.length points)%nat.
Proof.
  intros Hlen Hsame. unfold ThreeUtils.differenceOfArrays.
  rewrite <- (fst_combine points cache Hlen) at 1.
  rewrite filter_map_swap.
  rewrite (filter_ext_in _ (fun pn => negb (inside object (snd pn)))).
  - unfold matchedPoints. rewrite !length_map.
    rewrite Nat.add_comm, filter_length, length_combine. lia.
  - intros [p n] Hin. cbn [fst snd].
    rewrite (isCoordinatesInArray_matched object points cache p n Hsame Hin).
    reflexivity.
Qed.

(** A selection without two points of equal coordinates satisfies
    [sameOutcome] whatever its cache holds. *)
Lemma distinct_sameOutcome (object : Shape) (points cache : list Vector3.t) :
  (forall i j p q,
      nth_error points i = Some p -> nth_error points j = Some q ->
      Vector3.equals p q = true -> i = j) ->
  sameOutcome object points cache.
Proof.
  intros Hdistinct p n q m Hp Hq Heq.
  destruct (In_nth_error _ _ Hp) as [i Hi], (In_nth_error _ _ Hq) as [j Hj].
  assert (Hi' : nth_error points i = Some p).
  { clear -Hi. revert cache i Hi.
    induction points as [|a rest IH]; intros [|c cache] [|i] H; cbn in *;
      try discriminate; [congruence|eauto]. }
  assert (Hj' : nth_error points j = Some q).
  { clear -Hj. revert cache j Hj.
    induction points as [|a rest IH]; intros [|c cache] [|j] H; cbn in *;
      try discriminate; [congruence|eauto]. }
  assert (i = j) by exact (Hdistinct i j p q Hi' Hj' Heq). subst j.
  rewrite Hi in Hj. congruence.
Qed.

(** A cache that is the image of the points under one projection satisfies
    [sameOutcome] when points of equal coordinates have projections with the
    same outcome. *)
Lemma projected_sameOutcome (object : Shape) (project : Vector3.t -> Vector3.t)
    (points : list Vector3.t) :
  (forall p q, Vector3.equals p q = true ->
               inside object (project p) = inside object (project q)) ->
  sameOutcome object points (map project points).
Proof.
  intros Hproj p n q m Hp Hq Heq.
  assert (Himg : forall a b, In (a, b) (combine points (map project points)) ->
                             b = project a).
  { clear. induction points as [|x rest IH]; intros a b H; [destruct H|].
    cbn in H. destruct H as [H|H]; [congruence|exact (IH a b H)]. }
  rewrite (Himg p n Hp), (Himg q m Hq). exact (Hproj p q Heq).
Qed.

(** C4 as amended: in erase mode, with a cache of projections that covers
    the points of the selection, [modifySelection] takes the matched points
    from the selection and its own cache (the cloud plays no part) and
    dispatches one "selection-changed" event with the selection and the
    matched points.  The selection it returns differs from the given one in
    its points only: they are the points of the given selection whose
    coordinates equal the coordinates of no matched point, in their order.
    When points of equal coordinates have projections with the same outcome,
    the point count of the returned selection is the former count less the
    number of matched points. *)
Theorem modifySelection_erase (object : Shape) (pointCloud : PointCloud.t)
    (selection : LabelSelection.t) (cache : list Vector3.t) :
  LabelSelection.pointsNDC selection = Some cache ->
  (List.length (LabelSelection.points selection) <= List.length cache)%nat ->
  exists updated,
    modifySelection object pointCloud selection "erase"
    = Some (updated,
            [mkEvent selection_changed updated
               (matchedPoints object (LabelSelection.points selection) cache)])
    /\ updated
       = LabelSelection.mk (LabelSelection.id selection)
           (LabelSelection.points updated)
           (Some cache)
           (LabelSelection.pointSize selection)
           (LabelSelection.labelClass selection)
    /\ LabelSelection.points updated
       = filter (fun p =>
                   negb (existsb (fun q => Vector3.equals q p)
                           (matchedPoints object (LabelSelection.points selection)
                              cache)))
           (LabelSelection.points selection)
    /\ (sameOutcome object (LabelSelection.points selection) cache ->
        (List.length (LabelSelection.points updated)
         + List.length (matchedPoints object (LabelSelection.points selection) cache)
         = List.length (LabelSelection.points selection))%nat).
Proof.
  intros Hc Hlen.
  exists (LabelSelection.mk (LabelSelection.id selection)
            (ThreeUtils.differenceOfArrays (LabelSelection.points selection)
               (matchedPoints object (LabelSelection.points selection) cache))
            (Some cache)
            (LabelSelection.pointSize selection)
            (LabelSelection.labelClass selection)).
  cbn [LabelSelection.points].
  split; [|split; [reflexivity|split; [reflexivity|]]].
  - unfold modifySelection. cbn [String.eqb Ascii.eqb Bool.eqb].
    rewrite (queryPointFromSelection_matched object selection cache Hc Hlen).
    cbn [bind]. unfold LabelSelection.updateSelectionPoints. rewrite Hc.
    reflexivity.
  - apply difference_count. exact Hlen.
Qed.

Lemma threePoints_sameOutcome :
  sameOutcome unitCircle (LabelSelection.points threePoints)
    [Vector3.mk 0 0 0; Vector3.mk 2 0 0; Vector3.mk (1 # 2) 0 0].
Proof.
  intros p n q m Hp Hq Heq.
  cbn [threePoints LabelSelection.points combine In] in Hp, Hq.
  destruct Hp as [Hp|[Hp|[Hp|[]]]], Hq as [Hq|[Hq|[Hq|[]]]];
    injection Hp as <- <-; injection Hq as <- <-;
    try reflexivity; vm_compute in Heq; discriminate Heq.
Qed.

Lemma modifySelection_erase_witness :
  modifySelection unitCircle fourPoints threePoints "erase"
  = Some (LabelSelection.mk 7 [Vector3.mk 20 21 22]
            (Some [Vector3.mk 0 0 0; Vector3.mk 2 0 0; Vector3.mk (1 # 2) 0 0])
            2 (Some car),
          [mkEvent selection_changed
             (LabelSelection.mk 7 [Vector3.mk 20 21 22]
                (Some [Vector3.mk 0 0 0; Vector3.mk 2 0 0; Vector3.mk (1 # 2) 0 0])
                2 (Some car))
             [Vector3.mk 10 11 12; Vector3.mk 30 31 32]])
  /\ (1 + 2 = 3)%nat.
Proof.
  destruct (modifySelection_erase unitCircle fourPoints threePoints
              [Vector3.mk 0 0 0; Vector3.mk 2 0 0; Vector3.mk (1 # 2) 0 0]
              eq_refl (le_n 3)) as [updated [Hrun [Hrest [Hpoints Hcount]]]].
  assert (Hkept : LabelSelection.points updated = [Vector3.mk 20 21 22]).
  { rewrite Hpoints. vm_compute. reflexivity. }
  assert (Hmatched : matchedPoints unitCircle (LabelSelection.points threePoints)
                       [Vector3.mk 0 0 0; Vector3.mk 2 0 0; Vector3.mk (1 # 2) 0 0]
                     = [Vector3.mk 10 11 12; Vector3.mk 30 31 32]).
  { vm_compute. reflexivity. }
  split.
  - rewrite Hrun, Hmatched, Hrest, Hkept. reflexivity.
  - specialize (Hcount threePoints_sameOutcome).
    rewrite Hkept, Hmatched in Hcount. exact Hcount.
Defined.

(** C4 as stated fails on [twins]: one point is matched, and both copies of
    it are removed, so the count drops by two. *)
Lemma erase_twins_counterexample :
  modifySelection unitCircle fourPoints twins "erase"
  = Some (LabelSelection.mk 7 []
            (Some [Vector3.mk 0 0 0; Vector3.mk 5 5 0]) 2 (Some car),
          [mkEvent selection_changed
             (LabelSelection.mk 7 []
                (Some [Vector3.mk 0 0 0; Vector3.mk 5 5 0]) 2 (Some car))
             [Vector3.mk 10 11 12]])
  /\ queryPointFromSelection unitCircle twins = Some [Vector3.mk 10 11 12]
  /\ List.length (LabelSelection.points twins) = 2%nat
  /\ ~ eraseDropsMatchedCount unitCircle fourPoints twins.
Proof.
  assert (Hrun : modifySelection unitCircle fourPoints twins "erase"
                 = Some (LabelSelection.mk 7 []
                           (Some [Vector3.mk 0 0 0; Vector3.mk 5 5 0]) 2 (Some car),
                         [mkEvent selection_changed
                            (LabelSelection.mk 7 []
                               (Some [Vector3.mk 0 0 0; Vector3.mk 5 5 0]) 2 (Some car))
                            [Vector3.mk 10 11 12]]))
    by (vm_compute; reflexivity).
  assert (Hquery : queryPointFromSelection unitCircle twins = Some [Vector3.mk 10 11 12])
    by (vm_compute; reflexivity).
  split; [exact Hrun|]. split; [exact Hquery|]. split; [reflexivity|].
  intros H.
  specialize (H _ _ _ Hrun Hquery). cbn [LabelSelection.points List.length twins] in H.
  discriminate H.
Qed.

(** In add mode the matched points of the cloud are put in front of the
    points of the selection, and nothing is removed. *)
Lemma modifySelection_add (object : Shape) (pointCloud : PointCloud.t)
    (selection : LabelSelection.t) (coords : list Vector3.t) :
  PointBuffer.getCoords (PointCloud.buffer pointCloud) = Some coords ->
  (List.length coords <= List.length (PointCloud.bufferNDC pointCloud))%nat ->
  modifySelection object pointCloud selection "add"
  = Some (LabelSelection.updateSelectionPoints selection
            (matchedPoints object coords (PointCloud.bufferNDC pointCloud)
             ++ LabelSelection.points selection),
          [mkEvent selection_changed
             (LabelSelection.updateSelectionPoints selection
                (matchedPoints object coords (PointCloud.bufferNDC pointCloud)
                 ++ LabelSelection.points selection))
             (matchedPoints object coords (PointCloud.bufferNDC pointCloud))]).
Proof.
  intros Hc Hlen. unfold modifySelection. cbn [String.eqb Ascii.eqb Bool.eqb].
  rewrite (queryPointFromPcd_matched object pointCloud coords Hc Hlen).
  reflexivity.
Qed.

(** Without a cache of projections the erase mode throws as soon as the
    selection has a point. *)
Example erase_without_cache :
  modifySelection unitCircle fourPoints
    (LabelSelection.new 7 [Vector3.mk 10 11 12] 2) "erase" = None.
Proof. vm_compute. reflexivity. Qed.

End Selections.

(** * Further properties of the sources *)

(** ** Turning comparisons of numbers into propositions *)

Lemma Num_eqb_neq (a b : Q) : Num.eqb a b = false <-> ~ a == b.
Proof.
  split; intros H.
  - intros E. apply Num_eqb_eq in E. congruence.
  - destruct (Num.eqb a b) eqn:E; [|reflexivity].
    apply Num_eqb_eq in E. contradiction.
Qed.

Ltac num_case :=
  match goal with
  | |- context [Num.ltb ?a ?b] =>
      let H := fresh "Hlt" in
      destruct (Num.ltb a b) eqn:H;
      [apply Num_ltb_lt in H | apply Num_ltb_ge in H]
  | |- context [Num.leb ?a ?b] =>
      let H := fresh "Hle" in
      destruct (Num.leb a b) eqn:H;
      [apply Num_leb_le in H | apply Num_leb_gt in H]
  | |- context [Num.eqb ?a ?b] =>
      let H := fresh "Heq" in
      destruct (Num.eqb a b) eqn:H;
      [apply Num_eqb_eq in H | apply Num_eqb_neq in H]
  end.

Ltac num_cases := repeat num_case.

Ltac num_case_hyp :=
  match goal with
  | H0 : context [Num.ltb ?a ?b] |- _ =>
      let H := fresh "Hlt" in
      destruct (Num.ltb a b) eqn:H;
      [apply Num_ltb_lt in H | apply Num_ltb_ge in H]
  | H0 : context [Num.leb ?a ?b] |- _ =>
      let H := fresh "Hle" in
      destruct (Num.leb a b) eqn:H;
      [apply Num_leb_le in H | apply Num_leb_gt in H]
  end.

Ltac num_cases_all := repeat (num_case || num_case_hyp).

(** ** Circles *)

Section Circles.

Import MathUtils.

Lemma round_zero (q : Q) : q == 0 -> Double.round q = 0.
Proof.
  intros H. unfold Double.round. rewrite (roundTo_comp 53 (-1074) q 0 H). reflexivity.
Qed.

Lemma Num_pow2_nonneg (x : Q) : 0 <= Num.pow2 x.
Proof. unfold Num.pow2, Double.round. apply roundTo_nonneg. nra. Qed.

Lemma Num_pow2_le (r r' : Q) : r * r <= r' * r' -> Num.pow2 r <= Num.pow2 r'.
Proof. intros H. unfold Num.pow2, Double.round. apply roundTo_le; [lia|exact H]. Qed.

(** The smallest positive double is its own rounding. *)
Lemma round_smallest : Double.round (Double.twoTo (-1074)) == Double.twoTo (-1074).
Proof.
  apply (round_dyadic 1 (-1074)); [reflexivity|lia|].
  change (inject_Z 1) with 1. ring.
Qed.

Lemma Num_pow2_positive (radius : Q) :
  Double.twoTo (-537) <= Qabs radius -> 0 < Num.pow2 radius.
Proof.
  intros H.
  assert (Hsq : Double.twoTo (-1074) <= radius * radius).
  { change (-1074)%Z with (-537 + -537)%Z. rewrite twoTo_plus.
    pose proof (twoTo_pos (-537)) as Hpos.
    assert (Habs : radius * radius == Qabs radius * Qabs radius).
    { rewrite <- Qabs_Qmult. symmetry. apply Qabs_pos. nra. }
    rewrite Habs. nra. }
  apply Qlt_le_trans with (Double.round (Double.twoTo (-1074))).
  - rewrite round_smallest. apply twoTo_pos.
  - unfold Num.pow2, Double.round. apply roundTo_le; [lia|exact Hsq].
Qed.

(** X1: the sign of the radius plays no part; a circle of larger squared
    radius contains every point of a smaller one around the same center; the
    center is inside exactly when the square of the radius, as the function
    computes it, is not zero: it is inside for a radius of magnitude at
    least [2^-537], and outside for the radius 0 and for the radius
    [2^-600], whose square underflows. *)
Theorem isPointInCircle_radius (center : Vector2.t) (p : Vector3.t) :
  (forall radius, isPointInCircle center (- radius) p = isPointInCircle center radius p)
  /\ (forall r r',
         r * r <= r' * r' ->
         isPointInCircle center r p = true -> isPointInCircle center r' p = true)
  /\ (forall radius z,
         isPointInCircle center radius
           (Vector3.mk (Vector2.x center) (Vector2.y center) z)
         = negb (Num.eqb (Num.pow2 radius) 0)
         /\ (Double.twoTo (-537) <= Qabs radius -> Num.eqb (Num.pow2 radius) 0 = false)
         /\ (radius == 0 -> Num.eqb (Num.pow2 radius) 0 = true))
  /\ Num.eqb (Num.pow2 (Double.twoTo (-600))) 0 = true.
Proof.
  split; [|split; [|split]].
  - intros radius. unfold isPointInCircle. f_equal.
    unfold Num.pow2, Double.round. apply roundTo_comp. ring.
  - intros r r' Hle H. apply isPointInCircle_computed in H.
    apply isPointInCircle_computed.
    apply Qlt_le_trans with (Num.pow2 r); [exact H|apply Num_pow2_le; exact Hle].
  - intros radius z. split; [|split].
    + unfold isPointInCircle. cbn [Vector3.x Vector3.y].
      assert (H0 : forall c, Num.pow2 (Num.sub c c) = 0).
      { intros c. unfold Num.sub. rewrite (round_zero (c - c)) by ring. reflexivity. }
      rewrite !H0. change (Num.add 0 0) with 0.
      pose proof (Num_pow2_nonneg radius) as Hnn.
      destruct (Num.eqb (Num.pow2 radius) 0) eqn:E; cbn [negb].
      * apply Num_eqb_eq in E. apply Num_ltb_ge. rewrite E. apply Qle_refl.
      * apply Num_eqb_neq in E. apply Num_ltb_lt.
        apply Qle_lt_or_eq in Hnn. destruct Hnn as [Hlt|Heq]; [exact Hlt|].
        exfalso. apply E. symmetry. exact Heq.
    + intros Hbig. apply Num_eqb_neq. intros H0.
      pose proof (Num_pow2_positive radius Hbig) as Hpos. rewrite H0 in Hpos.
      exact (Qlt_irrefl _ Hpos).
    + intros H0. apply Num_eqb_eq. unfold Num.pow2.
      rewrite (round_zero (radius * radius)) by (rewrite H0; ring). reflexivity.
  - vm_compute. reflexivity.
Qed.

Lemma isPointInCircle_radius_witness :
  1 * 1 <= 2 * 2
  /\ isPointInCircle (Vector2.mk 0 0) 2 (Vector3.mk (1 # 2) (1 # 2) 0) = true.
Proof.
  split; [lra|].
  apply (proj1 (proj2 (isPointInCircle_radius (Vector2.mk 0 0)
                         (Vector3.mk (1 # 2) (1 # 2) 0))) 1 2);
    [lra|vm_compute; reflexivity].
Defined.

End Circles.

(** ** Polygons *)

Section Polygons.

Import MathUtils.

Lemma windingNumber_sum (point : Vector3.t) (polygon : list Vector2.t) :
  loopCounter point polygon
  = fold_right Z.add 0%Z (map (counted point) (edges polygon)).
Proof. unfold loopCounter. rewrite loopCounter_sum. lia. Qed.

Lemma sum_Permutation (l l' : list Z) :
  Permutation l l' -> fold_right Z.add 0%Z l = fold_right Z.add 0%Z l'.
Proof.
  induction 1; cbn [fold_right]; lia.
Qed.

Lemma existsb_Permutation {A : Type} (f : A -> bool) (l l' : list A) :
  Permutation l l' -> existsb f l = existsb f l'.
Proof.
  intros HP.
  destruct (existsb f l) eqn:E, (existsb f l') eqn:E'; try reflexivity.
  - apply existsb_exists in E. destruct E as [x [Hin Hx]].
    assert (existsb f l' = true)
      by (apply existsb_exists; exists x; split; [exact (Permutation_in x HP Hin)|exact Hx]).
    congruence.
  - apply existsb_exists in E'. destruct E' as [x [Hin Hx]].
    assert (existsb f l = true)
      by (apply existsb_exists; exists x; split;
          [exact (Permutation_in x (Permutation_sym HP) Hin)|exact Hx]).
    congruence.
Qed.

(** The outcome depends on the edges up to their order. *)
Lemma isPointInPolygon_edges (point : Vector3.t) (polygon polygon' : list Vector2.t) :
  Permutation (edges polygon) (edges polygon') ->
  isPointInPolygon point polygon = isPointInPolygon point polygon'.
Proof.
  intros HP. rewrite !isPointInPolygon_eq. unfold zeroCrossTerm.
  rewrite (existsb_Permutation _ _ _ HP), !windingNumber_sum.
  rewrite (sum_Permutation _ _ (Permutation_map (counted point) HP)).
  reflexivity.
Qed.

Lemma combine_snoc {A B : Type} (l : list A) (l' : list B) (a : A) (b : B) :
  List.length l = List.length l' ->
  combine (l ++ [a]) (l' ++ [b]) = combine l l' ++ [(a, b)].
Proof.
  revert l'. induction l as [|x l IH]; intros [|y l'] Hlen; cbn in Hlen;
    try discriminate; [reflexivity|].
  cbn. rewrite IH by lia. reflexivity.
Qed.

Lemma edges_rotate (a : Vector2.t) (rest : list Vector2.t) :
  Permutation (edges (a :: rest)) (edges (rest ++ [a])).
Proof.
  destruct rest as [|b r]; [apply Permutation_refl|].
  change (edges (a :: b :: r)) with ((a, b) :: combine (b :: r) (r ++ [a])).
  change (edges ((b :: r) ++ [a]))
    with (combine ((b :: r) ++ [a]) ((r ++ [a]) ++ [b])).
  rewrite (combine_snoc (b :: r) (r ++ [a]) a b)
    by (rewrite length_app; cbn; lia).
  apply Permutation_cons_append.
Qed.

(** X2: the outcome does not depend on the vertex at which the closed loop
    starts: the vertices [l1 ++ l2] and [l2 ++ l1] give the same answer for
    every point. *)
Theorem isPointInPolygon_rotate (point : Vector3.t) (l1 l2 : list Vector2.t) :
  isPointInPolygon point (l2 ++ l1) = isPointInPolygon point (l1 ++ l2).
Proof.
  revert l2. induction l1 as [|a l1 IH]; intros l2.
  - rewrite app_nil_r. reflexivity.
  - replace (l2 ++ a :: l1) with ((l2 ++ [a]) ++ l1)
      by (rewrite <- app_assoc; reflexivity).
    rewrite IH. rewrite app_assoc.
    symmetry. apply isPointInPolygon_edges. apply edges_rotate.
Qed.

Lemma edge_ends (polygon : list Vector2.t) (e : Vector2.t * Vector2.t) :
  In e (edges polygon) -> In (fst e) polygon /\ In (snd e) polygon.
Proof.
  destruct polygon as [|first others]; [intros []|].
  unfold edges. destruct e as [a b]. intros H. cbn [fst snd]. split.
  - exact (in_combine_l _ _ _ _ H).
  - apply in_combine_r in H. apply in_app_or in H.
    destruct H as [H|[<-|[]]]; [right; exact H|left; reflexivity].
Qed.

Lemma sum_zero (l : list Z) :
  (forall z, In z l -> z = 0%Z) -> fold_right Z.add 0%Z l = 0%Z.
Proof.
  induction l as [|z rest IH]; intros H; [reflexivity|].
  cbn [fold_right]. rewrite (H z (or_introl eq_refl)), IH; [reflexivity|].
  intros z' Hz'. apply H. right. exact Hz'.
Qed.

(** X3: a point that is at or above the level of every vertex, or strictly
    below the level of every vertex, is never reported inside. *)
Theorem isPointInPolygon_beyond_levels (point : Vector3.t) (polygon : list Vector2.t) :
  (forall v, In v polygon -> Vector2.y v <= Vector3.y point)
  \/ (forall v, In v polygon -> Vector3.y point < Vector2.y v) ->
  isPointInPolygon point polygon = false.
Proof.
  intros Hlevels. rewrite isPointInPolygon_eq.
  destruct (zeroCrossTerm point polygon); [reflexivity|].
  rewrite windingNumber_sum, sum_zero; [reflexivity|].
  intros z Hz. apply in_map_iff in Hz. destruct Hz as [e [<- He]].
  destruct (edge_ends polygon e He) as [Ha Hb].
  unfold counted, countsUpward, countsDownward.
  destruct Hlevels as [Hbelow|Habove].
  - pose proof (Hbelow _ Ha). pose proof (Hbelow _ Hb).
    num_cases; cbn [andb]; try reflexivity; lra.
  - pose proof (Habove _ Ha). pose proof (Habove _ Hb).
    num_cases; cbn [andb]; try reflexivity; lra.
Qed.

Lemma isPointInPolygon_beyond_levels_witness :
  isPointInPolygon (Vector3.mk 0 1 0) unitSquare = false
  /\ isPointInPolygon (Vector3.mk 0 (-2) 0) unitSquare = false.
Proof.
  split.
  - apply isPointInPolygon_beyond_levels. left.
    intros v Hv. cbn in Hv.
    destruct Hv as [<-|[<-|[<-|[<-|[]]]]]; cbn; lra.
  - apply isPointInPolygon_beyond_levels. right.
    intros v Hv. cbn in Hv.
    destruct Hv as [<-|[<-|[<-|[<-|[]]]]]; cbn; lra.
Defined.

End Polygons.

(** ** Boxes *)

Section Boxes.

Import MathUtils.






Lemma Num_sub_same (c : Q) : Num.sub c c = 0.
Proof. unfold Num.sub. apply round_zero. ring. Qed.

Lemma Num_sub_equal (a b : Q) : a == b -> Num.sub a b = 0.
Proof. intros H. unfold Num.sub. apply round_zero. rewrite H. ring. Qed.

Lemma Num_mul_zero_r (x : Q) : Num.mul x 0 = 0.
Proof. unfold Num.mul. apply round_zero. ring. Qed.

Lemma Num_mul_zero_l (x : Q) : Num.mul 0 x = 0.
Proof. unfold Num.mul. apply round_zero. ring. Qed.
















End Boxes.

(** ** Pixels, normalized device coordinates and the box tool *)

Section DeviceCoordinates.

Import ThreeUtils.

Lemma toNDC_defined (d : DomElement) (px py : Q) :
  ~ width d == 0 -> ~ height d == 0 ->
  toNDC d px py
  = Some (Vector2.mk
            (Num.sub (Num.mul (Num.div (Num.sub px (left d)) (width d)) 2) 1)
            (- Num.sub (Num.mul (Num.div (Num.sub py (top d)) (height d)) 2) 1)).
Proof.
  intros Hw Hh. unfold toNDC.
  rewrite (proj2 (Num_eqb_neq _ _) Hw), (proj2 (Num_eqb_neq _ _) Hh). reflexivity.
Qed.

Lemma round_le (a b : Q) : a <= b -> Double.round a <= Double.round b.
Proof. intros H. unfold Double.round. apply roundTo_le; [lia|exact H]. Qed.

Lemma round_comp (a b : Q) : a == b -> Double.round a = Double.round b.
Proof. intros H. unfold Double.round. apply roundTo_comp. exact H. Qed.

(** One axis of the conversion: the pixel [p] on an axis that starts at
    [l] and is [w] long. *)
Lemma axis_mono (l w p p' : Q) :
  0 < w -> p <= p' ->
  Num.sub (Num.mul (Num.div (Num.sub p l) w) 2) 1
  <= Num.sub (Num.mul (Num.div (Num.sub p' l) w) 2) 1.
Proof.
  intros Hw Hp.
  assert (H1 : Num.sub p l <= Num.sub p' l) by (apply round_le; lra).
  assert (H2 : Num.div (Num.sub p l) w <= Num.div (Num.sub p' l) w).
  { apply round_le. unfold Qdiv. apply Qmult_le_compat_r; [exact H1|].
    apply Qlt_le_weak, Qinv_lt_0_compat. exact Hw. }
  assert (H3 : Num.mul (Num.div (Num.sub p l) w) 2
               <= Num.mul (Num.div (Num.sub p' l) w) 2)
    by (apply round_le; lra).
  apply round_le. lra.
Qed.

Lemma axis_start (l w p : Q) :
  p == l -> Num.sub (Num.mul (Num.div (Num.sub p l) w) 2) 1 = -1.
Proof.
  intros E. rewrite (Num_sub_equal p l E).
  assert (H0 : Num.div 0 w = 0).
  { unfold Num.div. apply round_zero. unfold Qdiv. ring. }
  rewrite H0, Num_mul_zero_l. vm_compute. reflexivity.
Qed.

Lemma axis_end (l w p : Q) :
  0 < w -> Double.isDouble w -> p == l + w ->
  Num.sub (Num.mul (Num.div (Num.sub p l) w) 2) 1 = 1.
Proof.
  intros Hw Hd E.
  assert (H1 : Num.sub p l == w).
  { unfold Num.sub. rewrite (round_comp (p - l) w) by (rewrite E; ring).
    exact Hd. }
  assert (H2 : Num.div (Num.sub p l) w = 1).
  { unfold Num.div. rewrite (round_comp (Num.sub p l / w) 1); [vm_compute; reflexivity|].
    rewrite H1. field. lra. }
  rewrite H2. vm_compute. reflexivity.
Qed.

(** X5: for an element of positive width and height without pointer lock,
    whose width and height are doubles, the conversion of a pixel succeeds;
    a pixel within the bounding rectangle on an axis has its coordinate on
    that axis in [-1, 1]; the left and top borders go to x = -1 and y = 1,
    the right and bottom borders to x = 1 and y = -1; and the conversion
    keeps the order of pixels from left to right and turns the order from
    top to bottom around. *)
Theorem pixelCoordsToNDC_range (d : DomElement) (coord : Vector2.t) :
  pointerLock d = false -> 0 < width d -> 0 < height d ->
  Double.isDouble (width d) -> Double.isDouble (height d) ->
  exists v,
    pixelCoordsToNDC d coord = Some v
    /\ (left d <= Vector2.x coord /\ Vector2.x coord <= left d + width d
        -> -1 <= Vector2.x v /\ Vector2.x v <= 1)
    /\ (top d <= Vector2.y coord /\ Vector2.y coord <= top d + height d
        -> -1 <= Vector2.y v /\ Vector2.y v <= 1)
    /\ (Vector2.x coord == left d -> Vector2.x v == -1)
    /\ (Vector2.y coord == top d -> Vector2.y v == 1)
    /\ (Vector2.x coord == left d + width d -> Vector2.x v == 1)
    /\ (Vector2.y coord == top d + height d -> Vector2.y v == -1)
    /\ (forall coord' v',
           pixelCoordsToNDC d coord' = Some v' ->
           (Vector2.x coord <= Vector2.x coord' -> Vector2.x v <= Vector2.x v')
           /\ (Vector2.y coord <= Vector2.y coord' -> Vector2.y v' <= Vector2.y v)).
Proof.
  intros Hlock Hw Hh Dw Dh. unfold pixelCoordsToNDC. rewrite Hlock.
  rewrite toNDC_defined by lra.
  eexists. split; [reflexivity|]. cbn [Vector2.x Vector2.y].
  split; [|split; [|split; [|split; [|split; [|split]]]]].
  - intros [H1 H2]. split.
    + rewrite <- (axis_start (left d) (width d) (left d)) by reflexivity.
      apply axis_mono; assumption.
    + rewrite <- (axis_end (left d) (width d) (left d + width d) Hw Dw) at 2
        by reflexivity.
      apply axis_mono; assumption.
  - intros [H1 H2].
    pose proof (axis_mono (top d) (height d) _ _ Hh H1) as L.
    pose proof (axis_mono (top d) (height d) _ _ Hh H2) as U.
    rewrite (axis_start (top d) (height d) (top d)) in L by reflexivity.
    rewrite (axis_end (top d) (height d) (top d + height d) Hh Dh) in U by reflexivity.
    split; lra.
  - intros E. rewrite (axis_start _ _ _ E). reflexivity.
  - intros E. rewrite (axis_start _ _ _ E). reflexivity.
  - intros E. rewrite (axis_end _ _ _ Hw Dw E). reflexivity.
  - intros E. rewrite (axis_end _ _ _ Hh Dh E). reflexivity.
  - intros coord' v' Hv'. rewrite toNDC_defined in Hv' by lra.
    injection Hv' as <-. cbn [Vector2.x Vector2.y]. split; intros H.
    + apply axis_mono; assumption.
    + pose proof (axis_mono (top d) (height d) _ _ Hh H). lra.
Qed.

Lemma pixelCoordsToNDC_range_witness :
  pointerLock canvas800x600 = false
  /\ 0 < width canvas800x600 /\ 0 < height canvas800x600
  /\ Double.isDouble (width canvas800x600) /\ Double.isDouble (height canvas800x600)
  /\ exists v,
       pixelCoordsToNDC canvas800x600 (Vector2.mk 0 600) = Some v
       /\ Vector2.x v == -1 /\ Vector2.y v == -1.
Proof.
  split; [reflexivity|]. split; [reflexivity|]. split; [reflexivity|].
  split; [vm_compute; reflexivity|]. split; [vm_compute; reflexivity|].
  destruct (pixelCoordsToNDC_range canvas800x600 (Vector2.mk 0 600))
    as [v [Hv [_ [_ [Hx [_ [_ [Hy _]]]]]]]];
    [reflexivity|reflexivity|reflexivity|vm_compute; reflexivity
     |vm_compute; reflexivity|].
  exists v. split; [exact Hv|]. split.
  - apply Hx. reflexivity.
  - apply Hy. reflexivity.
Defined.

(** A coordinate in [-1, 1] does not tell that the pixel is within the
    rectangle: on the 800 by 600 element the pixel at [-2^-60], left of the
    element, is converted to x = -1. *)
Example pixelCoordsToNDC_absorbed :
  pixelCoordsToNDC canvas800x600 (Vector2.mk (- Double.twoTo (-60)) 0)
  = Some (Vector2.mk (-1) 1).
Proof. vm_compute. reflexivity. Qed.

End DeviceCoordinates.

Section BoxTool.

Import ThreeUtils RectangleBox.

Lemma pixelCoordsToNDC_defined (d : DomElement) (coord : Vector2.t) :
  ~ width d == 0 -> ~ height d == 0 ->
  exists v, pixelCoordsToNDC d coord = Some v.
Proof.
  intros Hw Hh. unfold pixelCoordsToNDC.
  destruct (pointerLock d); [eexists; reflexivity|].
  rewrite (toNDC_defined d _ _ Hw Hh). eexists. reflexivity.
Qed.

(** The conversion works on each axis by itself, so it commutes with the
    construction of the four vertices. *)
Lemma box_to_NDC (d : DomElement) (s e s' e' : Vector2.t) :
  pixelCoordsToNDC d s = Some s' ->
  pixelCoordsToNDC d e = Some e' ->
  pixelCoordsListToNDC d (setBoxCoords s e) = Some (setBoxCoords s' e').
Proof.
  unfold pixelCoordsListToNDC, setBoxCoords, pixelCoordsToNDC, toNDC.
  cbn [PointBuffer.mapM Vector2.x Vector2.y].
  destruct (pointerLock d).
  - intros Hs He. injection Hs as <-. injection He as <-. reflexivity.
  - destruct (Num.eqb (width d) 0 || Num.eqb (height d) 0); [discriminate|].
    intros Hs He. injection Hs as <-. injection He as <-. reflexivity.
Qed.

(** X6: with the tool enabled in draw mode, a press of the primary button,
    a move and a release.  When the canvas gave a 2-D context and the
    element has a width and a height that are not zero, the move dispatches
    "begin-draw" and the release one "end-draw" whose drawn object is the
    conversion of the four vertices of the box between the positions of the
    press and of the move, which is the box between the two converted
    positions; the tool is no longer drawing afterwards, and a release
    without a move after the press uses the end position that the tool
    still holds.  Without a context neither the move nor the release
    dispatches anything, and the tool keeps drawing. *)
Theorem box_drag (tool : RectangleBox.t) (down move up : PointerEvent) :
  enabled tool = true -> mode tool = "draw"%string ->
  button down = 0%Z -> button up = 0%Z ->
  (hasContext tool = true ->
   ~ width (baseElement tool) == 0 -> ~ height (baseElement tool) == 0 ->
   snd (onPointerMove (onPointerDown tool down) move) = [begin_draw]
   /\ (exists startNDC endNDC final,
          pixelCoordsToNDC (baseElement tool) (getClientOffset tool down) = Some startNDC
          /\ pixelCoordsToNDC (baseElement tool) (getClientOffset tool move) = Some endNDC
          /\ pixelCoordsListToNDC (baseElement tool)
               (setBoxCoords (getClientOffset tool down) (getClientOffset tool move))
             = Some (setBoxCoords startNDC endNDC)
          /\ onPointerUp (fst (onPointerMove (onPointerDown tool down) move)) up
             = Some (final, [end_draw (setBoxCoords startNDC endNDC)])
          /\ isDrawing final = false)
   /\ (exists startNDC heldNDC final,
          pixelCoordsToNDC (baseElement tool) (getClientOffset tool down) = Some startNDC
          /\ pixelCoordsToNDC (baseElement tool) (endPos tool) = Some heldNDC
          /\ onPointerUp (onPointerDown tool down) up
             = Some (final, [end_draw (setBoxCoords startNDC heldNDC)])
          /\ isDrawing final = false))
  /\ (hasContext tool = false ->
      onPointerMove (onPointerDown tool down) move = (onPointerDown tool down, [])
      /\ onPointerUp (onPointerDown tool down) up = Some (onPointerDown tool down, [])
      /\ isDrawing (onPointerDown tool down) = true).
Proof.
  intros Hen Hmode Hdown Hup.
  assert (Hpress : onPointerDown tool down
                   = mk (baseElement tool) (offsetLeft tool) (offsetTop tool)
                       (mode tool) (enabled tool) (hasContext tool) true
                       (getClientOffset tool down) (endPos tool)).
  { unfold onPointerDown. rewrite Hen, Hmode, Hdown. reflexivity. }
  rewrite Hpress.
  unfold onPointerMove, onPointerUp, finish.
  cbn [enabled isDrawing mode hasContext baseElement startPos endPos].
  rewrite Hen, Hmode, Hup.
  cbn [negb orb String.eqb Ascii.eqb Bool.eqb Z.eqb].
  split.
  - intros Hctx Hw Hh. rewrite Hctx. cbn [negb fst snd].
    cbn [enabled isDrawing mode hasContext baseElement startPos endPos].
    rewrite ?Hen, ?Hmode. cbn [negb orb String.eqb Ascii.eqb Bool.eqb].
    destruct (pixelCoordsToNDC_defined (baseElement tool) (getClientOffset tool down)
                Hw Hh) as [startNDC Hs].
    destruct (pixelCoordsToNDC_defined (baseElement tool) (getClientOffset tool move)
                Hw Hh) as [endNDC He].
    destruct (pixelCoordsToNDC_defined (baseElement tool) (endPos tool) Hw Hh)
      as [heldNDC Hheld].
    unfold getClientOffset in *.
    cbn [offsetLeft offsetTop].
    split; [reflexivity|]. split.
    + exists startNDC, endNDC. eexists.
      split; [exact Hs|]. split; [exact He|].
      split; [exact (box_to_NDC _ _ _ _ _ Hs He)|].
      rewrite (box_to_NDC _ _ _ _ _ Hs He). cbn [bind]. split; reflexivity.
    + exists startNDC, heldNDC. eexists.
      split; [exact Hs|]. split; [exact Hheld|].
      rewrite (box_to_NDC _ _ _ _ _ Hs Hheld). cbn [bind]. split; reflexivity.
  - intros Hctx. rewrite Hctx. cbn [negb]. repeat split.
Qed.

Lemma box_drag_witness :
  exists final,
    onPointerUp
      (fst (onPointerMove
              (onPointerDown boxTool (mkPointer 0 0 200 150 0))
              (mkPointer 0 0 600 450 0)))
      (mkPointer 0 0 600 450 0)
    = Some (final,
            [end_draw (setBoxCoords (Vector2.mk (- (1 # 2)) (1 # 2))
                                    (Vector2.mk (1 # 2) (- (1 # 2))))]).
Proof.
  destruct (proj1 (box_drag boxTool (mkPointer 0 0 200 150 0) (mkPointer 0 0 600 450 0)
                     (mkPointer 0 0 600 450 0) eq_refl eq_refl eq_refl eq_refl))
    as [_ [[startNDC [endNDC [final [Hs [He [_ [Hrun _]]]]]]] _]].
  - reflexivity.
  - vm_compute. discriminate.
  - vm_compute. discriminate.
  - exists final. rewrite Hrun.
    assert (Es : startNDC = Vector2.mk (- (1 # 2)) (1 # 2)).
    { vm_compute in Hs. injection Hs as <-. reflexivity. }
    assert (Ee : endNDC = Vector2.mk (1 # 2) (- (1 # 2))).
    { vm_compute in He. injection He as <-. reflexivity. }
    rewrite Es, Ee. reflexivity.
Defined.

End BoxTool.

(** ** More on point buffers *)

Section BufferInvariants.

Import PointBuffer.


(** X8: the index returned by [#checkPointIdx] is never negative and, in a
    buffer with a positive number of points, below that number; an index
    inside the range comes back unchanged with no diagnostic, and any other
    index is logged once. *)
Theorem checkPointIdx_range (this : PointBuffer.t) (pointIdx : Q) :
  0 <= fst (checkPointIdx this pointIdx)
  /\ (0 < numPoints this -> fst (checkPointIdx this pointIdx) < numPoints this)
  /\ (0 <= pointIdx /\ pointIdx < numPoints this ->
      checkPointIdx this pointIdx = (pointIdx, []))
  /\ (pointIdx < 0 \/ numPoints this <= pointIdx ->
      snd (checkPointIdx this pointIdx)
      = [PointIdxOutOfRange pointIdx (numPoints this)]).
Proof.
  unfold checkPointIdx, Lodash.clamp.
  repeat split.
  - num_cases; cbn [orb fst]; lra.
  - intros H1. num_cases; cbn [orb fst]; lra.
  - intros [H0 H1]. num_cases; cbn [orb]; try reflexivity; lra.
  - intros [H|H]; num_cases; cbn [orb snd]; try reflexivity; lra.
Qed.

Lemma checkPointIdx_range_witness :
  checkPointIdx (fst (new twelve CoordinateFormat.XYZ 3)) 2 = (2, [])
  /\ fst (checkPointIdx (fst (new twelve CoordinateFormat.XYZ 3)) 9)
     < numPoints (fst (new twelve CoordinateFormat.XYZ 3)).
Proof.
  split.
  - apply (proj1 (proj2 (proj2 (checkPointIdx_range
             (fst (new twelve CoordinateFormat.XYZ 3)) 2)))).
    split; [discriminate|reflexivity].
  - apply (proj1 (proj2 (checkPointIdx_range
             (fst (new twelve CoordinateFormat.XYZ 3)) 9))).
    reflexivity.
Defined.

(** X9: [clone] gives back an equal buffer and logs nothing exactly when
    the stored channel count is at least 3 and divides the length of the
    data; this is the case for every buffer built from a requested count of
    at least 3 when the count divides the length or the data has at least 3
    numbers. *)
Theorem clone_same (data : list Q) (format : CoordinateFormat.CoordinateFormatSpec)
    (requested : Z) :
  (clone (fst (new data format requested)) = (fst (new data format requested), [])
   <-> (3 <= numChannels (fst (new data format requested)))%Z
       /\ (numChannels (fst (new data format requested))
           | Z.of_nat (List.length data))%Z)
  /\ ((3 <= requested)%Z ->
      (3 <= List.length data)%nat \/ (requested | Z.of_nat (List.length data))%Z ->
      clone (fst (new data format requested)) = (fst (new data format requested), [])).
Proof.
  assert (Hiff : forall stored points,
             new data format stored = (mk data format stored points, [])
             <-> (3 <= stored)%Z /\ (stored | Z.of_nat (List.length data))%Z
                 /\ points = inject_Z (Z.of_nat (List.length data)) / inject_Z stored).
  { intros stored points. unfold new, checkNumChannels.
    destruct (Z.ltb_spec stored 3); cbn [fst snd].
    - split; [discriminate|lia].
    - destruct (Z.eqb_spec (Z.rem (Z.of_nat (List.length data)) stored) 0) as [E|E];
        cbn [negb fst snd].
      + split.
        * intros H'. injection H' as H'. split; [lia|]. split; [|symmetry; exact H'].
          apply Z.rem_divide; [lia|exact E].
        * intros [_ [_ ->]]. reflexivity.
      + split; [discriminate|]. intros [_ [Hdiv _]]. exfalso. apply E.
        apply Z.rem_divide; [lia|exact Hdiv]. }
  assert (Hclone : clone (fst (new data format requested))
                   = (fst (new data format requested), [])
                   <-> (3 <= numChannels (fst (new data format requested)))%Z
                       /\ (numChannels (fst (new data format requested))
                           | Z.of_nat (List.length data))%Z).
  { unfold clone.
    change (fst (new data format requested))
      with (mk data format (fst (checkNumChannels data requested))
              (inject_Z (Z.of_nat (List.length data))
               / inject_Z (fst (checkNumChannels data requested)))).
    cbn [PointBuffer.data PointBuffer.format numChannels].
    rewrite Hiff. split; [intros [H1 [H2 _]]; split; assumption|].
    intros [H1 H2]. split; [exact H1|]. split; [exact H2|reflexivity]. }
  split; [exact Hclone|].
  intros H3 Hcond. apply Hclone.
  unfold new, checkNumChannels. cbn [fst numChannels].
  destruct (Z.ltb_spec requested 3); [lia|].
  destruct (Z.eqb_spec (Z.rem (Z.of_nat (List.length data)) requested) 0) as [E|E];
    cbn [negb fst].
  - split; [lia|]. apply Z.rem_divide; [lia|exact E].
  - destruct Hcond as [Hlen|Hdiv].
    + split; [lia|apply Z.divide_refl].
    + exfalso. apply E. apply Z.rem_divide; [lia|exact Hdiv].
Qed.

Lemma clone_same_witness :
  clone (fst (new oneToTen CoordinateFormat.XYZ 3))
  = (fst (new oneToTen CoordinateFormat.XYZ 3), []).
Proof.
  apply (proj2 (clone_same oneToTen CoordinateFormat.XYZ 3)); [lia|].
  left. cbn. lia.
Defined.

(** A buffer built through the fallback 3 is not reproduced by [clone]: the
    copy of a buffer of 10 numbers built with the count 2 has 10 channels. *)
Example clone_after_fallback :
  numChannels (fst (new oneToTen CoordinateFormat.XYZ 2)) = 3%Z
  /\ numChannels (fst (clone (fst (new oneToTen CoordinateFormat.XYZ 2)))) = 10%Z.
Proof. split; reflexivity. Qed.

End BufferInvariants.

Section WellFormedAccess.

Import PointBuffer.

Variable data : list Q.
Variable format : CoordinateFormat.CoordinateFormatSpec.
Variable channels : Z.
Variable count : Z.

Hypothesis enough_channels : (3 <= channels)%Z.
Hypothesis some_points : (1 <= count)%Z.
Hypothesis exact_length : Z.of_nat (List.length data) = (count * channels)%Z.

Lemma access_new :
  fst (new data format channels)
  = mk data format channels
       (inject_Z (Z.of_nat (List.length data)) / inject_Z channels).
Proof.
  unfold new, checkNumChannels.
  destruct (Z.ltb_spec channels 3); [lia|].
  rewrite exact_length, Z.rem_mul by lia. reflexivity.
Qed.

Lemma access_numPoints :
  inject_Z (Z.of_nat (List.length data)) / inject_Z channels == inject_Z count.
Proof.
  rewrite exact_length, inject_Z_mult. field.
  intros H0. apply (inject_Z_injective channels 0%Z) in H0. lia.
Qed.

Lemma access_slice (q : Q) (i : Z) :
  q == inject_Z i -> (0 <= i < count)%Z ->
  TypedArray.slice (inject_Z channels * q) (inject_Z channels * (q + 1)) data
  = firstn (Z.to_nat channels) (skipn (Z.to_nat (channels * i)) data).
Proof.
  intros Hq Hi. unfold TypedArray.slice.
  rewrite (toInteger_comp (inject_Z channels * q) (channels * i))
    by (rewrite Hq, inject_Z_mult; reflexivity).
  rewrite (toInteger_comp (inject_Z channels * (q + 1)) (channels * (i + 1)))
    by (rewrite Hq, inject_Z_mult, inject_Z_plus; reflexivity).
  rewrite !resolve_inside by nia.
  f_equal. lia.
Qed.

Lemma access_checked (i : Z) :
  fst (checkPointIdx (fst (new data format channels)) (inject_Z i))
  == inject_Z (clampIndex count i).
Proof.
  rewrite access_new. unfold checkPointIdx, Lodash.clamp.
  cbn [numPoints].
  pose proof access_numPoints as Hn.
  set (np := inject_Z (Z.of_nat (List.length data)) / inject_Z channels) in *.
  assert (Hcount : 1 <= inject_Z count)
    by (change 1 with (inject_Z 1); rewrite <- Zle_Qle; lia).
  destruct (Z_lt_le_dec i 0) as [Hneg|Hnn];
    [|destruct (Z_lt_le_dec i count) as [Hin|Hout]].
  - replace (clampIndex count i) with 0%Z by (unfold clampIndex; lia).
    assert (Hq : inject_Z i < 0)
      by (change 0 with (inject_Z 0); rewrite <- Zlt_Qlt; lia).
    change (inject_Z 0) with 0.
    num_cases_all; cbn [orb fst]; lra.
  - replace (clampIndex count i) with i by (unfold clampIndex; lia).
    assert (Hq0 : 0 <= inject_Z i)
      by (change 0 with (inject_Z 0); rewrite <- Zle_Qle; lia).
    assert (Hq1 : inject_Z i < inject_Z count) by (rewrite <- Zlt_Qlt; lia).
    num_cases_all; cbn [orb fst]; lra.
  - replace (clampIndex count i) with (count + -1)%Z by (unfold clampIndex; lia).
    assert (Hq0 : 0 <= inject_Z i)
      by (change 0 with (inject_Z 0); rewrite <- Zle_Qle; lia).
    assert (Hq1 : inject_Z count <= inject_Z i) by (rewrite <- Zle_Qle; lia).
    rewrite inject_Z_plus. change (inject_Z (-1)) with (-1).
    num_cases_all; cbn [orb fst]; lra.
Qed.

(** X10: in a buffer whose channel count is at least 3 and divides the
    length, with at least one point, [getPoint] at any integer index returns
    the channels of the point at the nearest valid index, an index below 0
    giving the first point and an index past the end the last one; the
    result always has as many values as there are channels; a diagnostic is
    logged exactly when the index is outside the range. *)
Theorem getPoint_clamped (i : Z) :
  fst (getPoint (fst (new data format channels)) (inject_Z i))
  = firstn (Z.to_nat channels)
      (skipn (Z.to_nat (channels * clampIndex count i)) data)
  /\ fst (getPoint (fst (new data format channels)) (inject_Z i))
     = fst (getPoint (fst (new data format channels))
              (inject_Z (clampIndex count i)))
  /\ List.length (fst (getPoint (fst (new data format channels)) (inject_Z i)))
     = Z.to_nat channels
  /\ (snd (getPoint (fst (new data format channels)) (inject_Z i)) = []
      <-> (0 <= i < count)%Z).
Proof.
  assert (Hrange : forall j, (0 <= clampIndex count j < count)%Z)
    by (intros j; unfold clampIndex; lia).
  assert (Hget : forall j,
             fst (getPoint (fst (new data format channels)) (inject_Z j))
             = firstn (Z.to_nat channels)
                 (skipn (Z.to_nat (channels * clampIndex count j)) data)).
  { intros j. unfold getPoint. cbn [fst].
    pose proof (access_checked j) as Hc.
    rewrite access_new in *. cbn [numChannels PointBuffer.data].
    apply access_slice; [exact Hc|apply Hrange]. }
  split; [apply Hget|]. split; [|split].
  - rewrite !Hget.
    replace (clampIndex count (clampIndex count i)) with (clampIndex count i)
      by (unfold clampIndex; lia).
    reflexivity.
  - rewrite Hget, length_firstn, length_skipn.
    pose proof (Hrange i). nia.
  - unfold getPoint. cbn [snd]. rewrite access_new. unfold checkPointIdx.
    cbn [numPoints].
    pose proof access_numPoints as Hn.
    set (np := inject_Z (Z.of_nat (List.length data)) / inject_Z channels) in *.
    destruct (Z_lt_le_dec i 0) as [Hneg|Hnn];
      [|destruct (Z_lt_le_dec i count) as [Hin|Hout]].
    + assert (Hq : inject_Z i < 0)
        by (change 0 with (inject_Z 0); rewrite <- Zlt_Qlt; lia).
      num_cases; cbn [orb snd]; try lra; (split; [discriminate|lia]).
    + assert (Hq0 : 0 <= inject_Z i)
        by (change 0 with (inject_Z 0); rewrite <- Zle_Qle; lia).
      assert (Hq1 : inject_Z i < inject_Z count) by (rewrite <- Zlt_Qlt; lia).
      num_cases; cbn [orb snd]; try lra; (split; [lia|reflexivity]).
    + assert (Hq0 : 0 <= inject_Z i)
        by (change 0 with (inject_Z 0); rewrite <- Zle_Qle; lia).
      assert (Hq1 : inject_Z count <= inject_Z i) by (rewrite <- Zle_Qle; lia).
      num_cases; cbn [orb snd]; try lra; (split; [discriminate|lia]).
Qed.

End WellFormedAccess.

Lemma getPoint_clamped_witness :
  fst (PointBuffer.getPoint
         (fst (PointBuffer.new PointBuffer.twelve CoordinateFormat.XYZ 3)) (inject_Z 7))
  = [40; 41; 42]
  /\ (snd (PointBuffer.getPoint
            (fst (PointBuffer.new PointBuffer.twelve CoordinateFormat.XYZ 3)) (inject_Z 2))
      = [] <-> (0 <= 2 < 4)%Z).
Proof.
  assert (H3 : (3 <= 3)%Z) by lia.
  assert (H1 : (1 <= 4)%Z) by lia.
  assert (Hlen : Z.of_nat (List.length PointBuffer.twelve) = (4 * 3)%Z) by reflexivity.
  split.
  - exact (proj1 (getPoint_clamped PointBuffer.twelve CoordinateFormat.XYZ 3 4
                    H3 H1 Hlen 7)).
  - exact (proj2 (proj2 (proj2 (getPoint_clamped PointBuffer.twelve CoordinateFormat.XYZ
                                  3 4 H3 H1 Hlen 2)))).
Defined.

(** ** Collections *)

Section Collections.

Context {A : Type}.

(** X11: [every] holds exactly when no element of the collection fails the
    predicate and [some] exactly when an element passes it, whatever the
    early returns of the two loops; each is the negation of the other on the
    negated predicate. *)
Theorem every_some_dual (collection : list A) (predicate : A -> bool) :
  (CollectionUtils.every collection predicate = true
   <-> forall v, In v collection -> predicate v = true)
  /\ (CollectionUtils.some collection predicate = true
      <-> exists v, In v collection /\ predicate v = true)
  /\ CollectionUtils.some collection predicate
     = negb (CollectionUtils.every collection (fun v => negb (predicate v)))
  /\ CollectionUtils.every collection predicate
     = negb (CollectionUtils.some collection (fun v => negb (predicate v))).
Proof.
  repeat split.
  - induction collection as [|a rest IH]; cbn; [intros _ v []|].
    destruct (predicate a) eqn:E; cbn; [|discriminate].
    intros H v [<-|Hin]; [exact E|exact (IH H v Hin)].
  - induction collection as [|a rest IH]; cbn; [reflexivity|].
    intros H. rewrite (H a (or_introl eq_refl)). cbn.
    apply IH. intros v Hin. apply H. right. exact Hin.
  - induction collection as [|a rest IH]; cbn; [discriminate|].
    destruct (predicate a) eqn:E.
    + intros _. exists a. split; [left; reflexivity|exact E].
    + intros H. destruct (IH H) as [v [Hin Hv]]. exists v. split; [right|]; assumption.
  - induction collection as [|a rest IH]; cbn; [intros [v [[] _]]|].
    intros [v [[<-|Hin] Hv]]; [rewrite Hv; reflexivity|].
    destruct (predicate a); [reflexivity|]. apply IH. exists v. split; assumption.
  - induction collection as [|a rest IH]; cbn; [reflexivity|].
    destruct (predicate a); cbn; [reflexivity|exact IH].
  - induction collection as [|a rest IH]; cbn; [reflexivity|].
    destruct (predicate a); cbn; [exact IH|reflexivity].
Qed.

End Collections.

(** ** Maps keyed by the elements *)

Section Maps.

Context {K V : Type}.
Context (K_eq_dec : forall a b : K, {a = b} + {a <> b}).

Lemma has_keys (m : @JsMap.t K V) (key : K) :
  JsMap.has K_eq_dec m key = true <-> In key (JsMap.keys m).
Proof.
  unfold JsMap.has. induction m as [|[k v] rest IH]; cbn.
  - split; [discriminate|intros []].
  - destruct (K_eq_dec k key) as [->|Hne].
    + split; [intros _; left; reflexivity|reflexivity].
    + rewrite IH. split; [intros H; right; exact H|intros [H|H]; [contradiction|exact H]].
Qed.

Lemma has_false_keys (m : @JsMap.t K V) (key : K) :
  JsMap.has K_eq_dec m key = false <-> ~ In key (JsMap.keys m).
Proof.
  rewrite <- has_keys. destruct (JsMap.has K_eq_dec m key); split; congruence.
Qed.

Lemma get_set_same (m : @JsMap.t K V) (key : K) (value : V) :
  JsMap.get K_eq_dec (JsMap.set K_eq_dec m key value) key = Some value.
Proof.
  induction m as [|[k v] rest IH]; cbn.
  - destruct (K_eq_dec key key); [reflexivity|contradiction].
  - destruct (K_eq_dec k key) as [->|Hne]; cbn.
    + destruct (K_eq_dec key key); [reflexivity|contradiction].
    + destruct (K_eq_dec k key); [contradiction|exact IH].
Qed.

Lemma get_set_other (m : @JsMap.t K V) (key other : K) (value : V) :
  key <> other ->
  JsMap.get K_eq_dec (JsMap.set K_eq_dec m key value) other = JsMap.get K_eq_dec m other.
Proof.
  intros Hne. induction m as [|[k v] rest IH]; cbn.
  - destruct (K_eq_dec key other); [contradiction|reflexivity].
  - destruct (K_eq_dec k key) as [->|Hk]; cbn.
    + destruct (K_eq_dec key other); [contradiction|reflexivity].
    + destruct (K_eq_dec k other); [reflexivity|exact IH].
Qed.

Lemma set_absent (m : @JsMap.t K V) (key : K) (value : V) :
  ~ In key (JsMap.keys m) -> JsMap.set K_eq_dec m key value = m ++ [(key, value)].
Proof.
  unfold JsMap.keys. induction m as [|[k v] rest IH]; cbn; [reflexivity|].
  intros Hnot. destruct (K_eq_dec k key) as [->|Hne].
  - exfalso. apply Hnot. left. reflexivity.
  - rewrite IH; [reflexivity|]. intros Hin. apply Hnot. right. exact Hin.
Qed.

Lemma keys_set_present (m : @JsMap.t K V) (key : K) (value : V) :
  In key (JsMap.keys m) -> JsMap.keys (JsMap.set K_eq_dec m key value) = JsMap.keys m.
Proof.
  unfold JsMap.keys. induction m as [|[k v] rest IH]; cbn; [intros []|].
  intros Hin. destruct (K_eq_dec k key) as [->|Hne]; cbn; [reflexivity|].
  rewrite IH; [reflexivity|]. destruct Hin; [contradiction|assumption].
Qed.

Lemma keys_set (m : @JsMap.t K V) (key : K) (value : V) :
  JsMap.keys (JsMap.set K_eq_dec m key value)
  = if JsMap.has K_eq_dec m key then JsMap.keys m else JsMap.keys m ++ [key].
Proof.
  destruct (JsMap.has K_eq_dec m key) eqn:E.
  - apply keys_set_present, has_keys, E.
  - rewrite set_absent by (apply has_false_keys, E).
    unfold JsMap.keys. rewrite map_app. reflexivity.
Qed.

Lemma NoDup_snoc (l : list K) (k : K) : NoDup l -> ~ In k l -> NoDup (l ++ [k]).
Proof.
  intros Hl Hk. apply NoDup_app; [exact Hl|repeat constructor; intros []|].
  intros a Ha [<-|[]]. exact (Hk Ha).
Qed.

Lemma NoDup_keys_set (m : @JsMap.t K V) (key : K) (value : V) :
  NoDup (JsMap.keys m) -> NoDup (JsMap.keys (JsMap.set K_eq_dec m key value)).
Proof.
  intros Hm. rewrite keys_set. destruct (JsMap.has K_eq_dec m key) eqn:E; [exact Hm|].
  apply NoDup_snoc; [exact Hm|apply has_false_keys, E].
Qed.

(** The map built from the entries after [m]. *)
Lemma fold_set_keys (entries : list (K * V)) (m : @JsMap.t K V) :
  NoDup (JsMap.keys m) ->
  NoDup (JsMap.keys (fold_left (fun m e => JsMap.set K_eq_dec m (fst e) (snd e)) entries m))
  /\ (forall key,
        In key (JsMap.keys
                  (fold_left (fun m e => JsMap.set K_eq_dec m (fst e) (snd e)) entries m))
        <-> In key (JsMap.keys m) \/ In key (map fst entries)).
Proof.
  revert m. induction entries as [|[k v] rest IH]; intros m Hm; cbn [fold_left map fst snd].
  - split; [exact Hm|]. intros key. cbn. tauto.
  - destruct (IH (JsMap.set K_eq_dec m k v) (NoDup_keys_set m k v Hm)) as [Hnd Hin].
    split; [exact Hnd|]. intros key. rewrite Hin, keys_set.
    destruct (JsMap.has K_eq_dec m k) eqn:E.
    + apply has_keys in E. cbn. split; [tauto|].
      intros [H|[<-|H]]; tauto.
    + rewrite in_app_iff. cbn. tauto.
Qed.

Lemma fold_set_NoDup (entries : list (K * V)) (m : @JsMap.t K V) :
  NoDup (JsMap.keys m ++ map fst entries) ->
  fold_left (fun m e => JsMap.set K_eq_dec m (fst e) (snd e)) entries m = m ++ entries.
Proof.
  revert m. induction entries as [|[k v] rest IH]; intros m Hnd; cbn [fold_left map fst snd].
  - rewrite app_nil_r. reflexivity.
  - cbn [map fst] in Hnd.
    assert (Hk : ~ In k (JsMap.keys m)).
    { apply NoDup_remove_2 in Hnd. intros Hin. apply Hnd, in_or_app. left. exact Hin. }
    rewrite set_absent by exact Hk. rewrite IH.
    + rewrite <- app_assoc. reflexivity.
    + unfold JsMap.keys in *. rewrite map_app, <- app_assoc. exact Hnd.
Qed.

Lemma ofEntries_NoDup (entries : list (K * V)) :
  NoDup (JsMap.keys (JsMap.ofEntries K_eq_dec entries))
  /\ (forall key, In key (JsMap.keys (JsMap.ofEntries K_eq_dec entries))
                  <-> In key (map fst entries)).
Proof.
  destruct (fold_set_keys entries [] (NoDup_nil K)) as [Hnd Hin].
  split; [exact Hnd|]. intros key. unfold JsMap.ofEntries. rewrite Hin. cbn. tauto.
Qed.

Lemma ofEntries_size (entries : list (K * V)) :
  JsMap.size (JsMap.ofEntries K_eq_dec entries) = List.length entries
  <-> NoDup (map fst entries).
Proof.
  destruct (ofEntries_NoDup entries) as [Hnd Hin]. split.
  - intros Hsize.
    apply (NoDup_incl_NoDup (l := JsMap.keys (JsMap.ofEntries K_eq_dec entries))).
    + exact Hnd.
    + unfold JsMap.keys, JsMap.size in *. rewrite !length_map. lia.
    + intros key Hk. apply Hin. exact Hk.
  - intros Hkeys. unfold JsMap.ofEntries. rewrite fold_set_NoDup by exact Hkeys.
    reflexivity.
Qed.

Lemma get_combine (keys : list K) (start i : nat) (key : K) :
  NoDup keys -> nth_error keys i = Some key ->
  JsMap.get K_eq_dec (combine keys (seq start (List.length keys))) key = Some (start + i)%nat.
Proof.
  revert start i. induction keys as [|k rest IH]; intros start i Hnd Hnth.
  - destruct i; discriminate.
  - cbn. destruct i as [|i]; cbn in Hnth.
    + injection Hnth as ->. destruct (K_eq_dec key key); [|contradiction].
      f_equal. lia.
    + inversion Hnd as [|? ? Hnot Hrest]; subst.
      destruct (K_eq_dec k key) as [->|Hne].
      * exfalso. apply Hnot. eapply nth_error_In. exact Hnth.
      * rewrite (IH (S start) i Hrest Hnth). f_equal. lia.
Qed.

Lemma get_combine_bound (keys : list K) (start idx : nat) (key : K) :
  JsMap.get K_eq_dec (combine keys (seq start (List.length keys))) key = Some idx ->
  (start <= idx)%nat /\ nth_error keys (idx - start) = Some key.
Proof.
  revert start. induction keys as [|k rest IH]; intros start; cbn; [discriminate|].
  destruct (K_eq_dec k key) as [->|Hne].
  - intros H. injection H as <-. split; [lia|]. rewrite Nat.sub_diag. reflexivity.
  - intros H. destruct (IH (S start) H) as [Hle Hnth]. split; [lia|].
    replace (idx - start)%nat with (S (idx - S start)) by lia. exact Hnth.
Qed.

End Maps.

Section ArrayMaps.

Context {K V : Type}.
Context (K_eq_dec : forall a b : K, {a = b} + {a <> b}).

Lemma fst_combine_keys {A B : Type} (l : list A) (l' : list B) :
  List.length l = List.length l' -> map fst (combine l l') = l.
Proof.
  revert l'. induction l as [|a l IH]; intros [|b l'] Hlen; cbn in *;
    try reflexivity; try discriminate.
  f_equal. apply IH. lia.
Qed.

(** X12: the constructor of [ReadonlyArrayMap] succeeds exactly when no two
    elements have the same key; the map it builds keeps the elements, finds
    every element and its index by the key of the element, reports a key as
    included exactly when an element has it, and whatever [findByKey]
    returns is an element with the key asked for. *)
Theorem ReadonlyArrayMap_lookup (getKey : V -> K) (elements : list V) :
  (ReadonlyArrayMap.new K_eq_dec getKey elements <> None
   <-> NoDup (map getKey elements))
  /\ (forall this : @ReadonlyArrayMap.t K V,
        ReadonlyArrayMap.new K_eq_dec getKey elements = Some this ->
        ReadonlyArrayMap.elements this = elements
        /\ ReadonlyArrayMap.length this = List.length elements
        /\ (forall i v,
              nth_error elements i = Some v ->
              ReadonlyArrayMap.findIndexByKey K_eq_dec this (getKey v) = Some i
              /\ ReadonlyArrayMap.findByKey K_eq_dec this (getKey v) = Some v)
        /\ (forall key,
              ReadonlyArrayMap.includesByKey K_eq_dec this key = true
              <-> In key (map getKey elements))
        /\ (forall key v,
              ReadonlyArrayMap.findByKey K_eq_dec this key = Some v ->
              In v elements /\ getKey v = key)).
Proof.
  assert (Hkeys : map fst (combine (map getKey elements) (seq 0 (List.length elements)))
                  = map getKey elements).
  { apply fst_combine_keys. rewrite length_map, length_seq. reflexivity. }
  assert (Hsize : JsMap.size
                    (JsMap.ofEntries K_eq_dec
                       (combine (map getKey elements) (seq 0 (List.length elements))))
                  = List.length elements
                  <-> NoDup (map getKey elements)).
  { pose proof (ofEntries_size K_eq_dec
                  (combine (map getKey elements) (seq 0 (List.length elements)))) as H.
    rewrite Hkeys, length_combine, length_map, length_seq, Nat.min_id in H. exact H. }
  unfold ReadonlyArrayMap.new. split.
  - destruct (Nat.eqb_spec
                (JsMap.size
                   (JsMap.ofEntries K_eq_dec
                      (combine (map getKey elements) (seq 0 (List.length elements)))))
                (List.length elements)) as [E|E]; cbn [negb].
    + split; [intros _; apply Hsize, E|discriminate].
    + split; [intros H; contradiction|]. intros Hnd. exfalso. apply E, Hsize, Hnd.
  - intros this.
    destruct (Nat.eqb_spec
                (JsMap.size
                   (JsMap.ofEntries K_eq_dec
                      (combine (map getKey elements) (seq 0 (List.length elements)))))
                (List.length elements)) as [E|E]; cbn [negb]; [|discriminate].
    intros Hthis. injection Hthis as <-.
    assert (Hnd : NoDup (map getKey elements)) by (apply Hsize, E).
    assert (Hmap : JsMap.ofEntries K_eq_dec
                     (combine (map getKey elements) (seq 0 (List.length elements)))
                   = combine (map getKey elements) (seq 0 (List.length elements))).
    { unfold JsMap.ofEntries. rewrite (fold_set_NoDup K_eq_dec); [reflexivity|].
      cbn [JsMap.keys map app]. rewrite Hkeys. exact Hnd. }
    unfold ReadonlyArrayMap.findByKey, ReadonlyArrayMap.includesByKey,
      ReadonlyArrayMap.findIndexByKey, ReadonlyArrayMap.length, JsMap.has.
    cbn [ReadonlyArrayMap.elements ReadonlyArrayMap.idxByKey]. rewrite Hmap.
    assert (Hget : forall i v, nth_error elements i = Some v ->
                     JsMap.get K_eq_dec
                       (combine (map getKey elements) (seq 0 (List.length elements)))
                       (getKey v) = Some i).
    { intros i v Hnth.
      rewrite <- (length_map getKey elements).
      rewrite (get_combine K_eq_dec (map getKey elements) 0 i (getKey v) Hnd).
      - reflexivity.
      - rewrite nth_error_map, Hnth. reflexivity. }
    assert (Hback : forall key idx,
                      JsMap.get K_eq_dec
                        (combine (map getKey elements) (seq 0 (List.length elements)))
                        key = Some idx ->
                      exists v, nth_error elements idx = Some v /\ getKey v = key).
    { intros key idx Hidx. rewrite <- (length_map getKey elements) in Hidx.
      apply get_combine_bound in Hidx. destruct Hidx as [_ Hnth].
      rewrite Nat.sub_0_r, nth_error_map in Hnth.
      destruct (nth_error elements idx) as [v|]; [|discriminate].
      exists v. split; [reflexivity|]. cbn in Hnth. congruence. }
    split; [reflexivity|]. split; [reflexivity|]. split; [|split].
    + intros i v Hnth. rewrite (Hget i v Hnth). cbn [negb]. split; [reflexivity|exact Hnth].
    + intros key.
      destruct (JsMap.get K_eq_dec
                  (combine (map getKey elements) (seq 0 (List.length elements))) key)
        as [idx|] eqn:Eget; cbn [negb].
      * split; [|reflexivity]. intros _.
        destruct (Hback key idx Eget) as [v [Hnth <-]].
        apply in_map. eapply nth_error_In. exact Hnth.
      * split; [discriminate|]. intros Hin. exfalso.
        apply in_map_iff in Hin. destruct Hin as [v [<- Hv]].
        apply In_nth_error in Hv. destruct Hv as [i Hi].
        rewrite (Hget i v Hi) in Eget. discriminate.
    + intros key v.
      destruct (JsMap.get K_eq_dec
                  (combine (map getKey elements) (seq 0 (List.length elements))) key)
        as [idx|] eqn:Eget; cbn [negb]; [|discriminate].
      intros Hnth. destruct (Hback key idx Eget) as [v' [Hnth' Hkey]].
      assert (v' = v) by congruence. subst v'.
      split; [eapply nth_error_In; exact Hnth|exact Hkey].
Qed.

End ArrayMaps.

Lemma ReadonlyArrayMap_lookup_witness :
  exists this : @ReadonlyArrayMap.t Z LabelClass.t,
    ReadonlyArrayMap.new Z.eq_dec LabelClass.id
      [LabelClass.mk 1 "car" "red"; LabelClass.mk 2 "tree" "green"] = Some this
    /\ ReadonlyArrayMap.findByKey Z.eq_dec this 2%Z
       = Some (LabelClass.mk 2 "tree" "green").
Proof.
  eexists. split; [reflexivity|].
  exact (proj2 (proj1 (proj2 (proj2
           (proj2 (ReadonlyArrayMap_lookup Z.eq_dec LabelClass.id
                     [LabelClass.mk 1 "car" "red"; LabelClass.mk 2 "tree" "green"])
              _ eq_refl)))
           1%nat (LabelClass.mk 2 "tree" "green") eq_refl)).
Defined.

Section DefaultMaps.

Context {K V : Type}.
Context (K_eq_dec : forall a b : K, {a = b} + {a <> b}).

(** X13: [DefaultMap.get] always returns a value: the stored one for a
    present key, the default for a missing one, which it stores.  Afterwards
    the key is present, the other keys are read as before, the factory is
    the same, and a map that had the key is unchanged; asking again gives
    the same value and changes nothing. *)
Theorem DefaultMap_get (this : @DefaultMap.t K V) (key : K) :
  fst (DefaultMap.get K_eq_dec this key)
  = Some (match JsMap.get K_eq_dec (DefaultMap.entries this) key with
          | Some v => v
          | None => DefaultMap.defaultFactory this tt
          end)
  /\ DefaultMap.has K_eq_dec (snd (DefaultMap.get K_eq_dec this key)) key = true
  /\ (forall other,
        other <> key ->
        JsMap.get K_eq_dec (DefaultMap.entries (snd (DefaultMap.get K_eq_dec this key))) other
        = JsMap.get K_eq_dec (DefaultMap.entries this) other)
  /\ DefaultMap.defaultFactory (snd (DefaultMap.get K_eq_dec this key))
     = DefaultMap.defaultFactory this
  /\ (DefaultMap.has K_eq_dec this key = true ->
      snd (DefaultMap.get K_eq_dec this key) = this)
  /\ (DefaultMap.has K_eq_dec this key = false ->
      DefaultMap.entries (snd (DefaultMap.get K_eq_dec this key))
      = DefaultMap.entries this ++ [(key, DefaultMap.defaultFactory this tt)])
  /\ DefaultMap.get K_eq_dec (snd (DefaultMap.get K_eq_dec this key)) key
     = DefaultMap.get K_eq_dec this key.
Proof.
  unfold DefaultMap.get, DefaultMap.has, JsMap.has.
  destruct (JsMap.get K_eq_dec (DefaultMap.entries this) key) as [v|] eqn:E;
    cbn [negb fst snd DefaultMap.entries DefaultMap.defaultFactory].
  - rewrite E. cbn [negb fst snd]. rewrite E.
    repeat split; try reflexivity. discriminate.
  - rewrite get_set_same. cbn [negb fst snd DefaultMap.entries DefaultMap.defaultFactory].
    rewrite get_set_same.
    repeat split; try reflexivity.
    + intros other Hne. apply get_set_other. congruence.
    + discriminate.
    + intros _. apply set_absent. apply (has_false_keys K_eq_dec).
      unfold JsMap.has. rewrite E. reflexivity.
Qed.

(** X14: the [KeyView] of a map built from entries behaves as the set of
    the keys of the entries: its values hold each key of the entries once,
    [has] is membership among them, [size] is their number, and [entries]
    pairs each value with itself. *)
Theorem KeyView_set_like (entries : list (K * V)) :
  NoDup (KeyView.values (KeyView.mk (JsMap.ofEntries K_eq_dec entries)))
  /\ (forall key,
        In key (KeyView.values (KeyView.mk (JsMap.ofEntries K_eq_dec entries)))
        <-> In key (map fst entries))
  /\ (forall key,
        KeyView.has K_eq_dec (KeyView.mk (JsMap.ofEntries K_eq_dec entries)) key = true
        <-> In key (map fst entries))
  /\ KeyView.size (KeyView.mk (JsMap.ofEntries K_eq_dec entries))
     = List.length (KeyView.values (KeyView.mk (JsMap.ofEntries K_eq_dec entries)))
  /\ (KeyView.size (KeyView.mk (JsMap.ofEntries K_eq_dec entries))
      <= List.length entries)%nat
  /\ KeyView.entries (KeyView.mk (JsMap.ofEntries K_eq_dec entries))
     = map (fun key => (key, key))
         (KeyView.values (KeyView.mk (JsMap.ofEntries K_eq_dec entries))).
Proof.
  destruct (ofEntries_NoDup K_eq_dec entries) as [Hnd Hin].
  unfold KeyView.values, KeyView.has, KeyView.size, KeyView.entries, KeyView.values.
  cbn [KeyView.map].
  split; [exact Hnd|]. split; [exact Hin|]. split; [|split; [|split]].
  - intros key. rewrite has_keys. apply Hin.
  - unfold JsMap.size, JsMap.keys. rewrite length_map. reflexivity.
  - unfold JsMap.size. rewrite <- (length_map fst entries).
    rewrite <- (length_map fst (JsMap.ofEntries K_eq_dec entries)).
    apply NoDup_incl_length; [exact Hnd|]. intros key Hk. apply Hin. exact Hk.
  - reflexivity.
Qed.

End DefaultMaps.

(** ** Tolerances and checked settings *)

Section Settings.

Import ThreeUtils.

(** X15: [checkSize] never returns a negative size: a number comes back as
    its absolute value, [NaN] as 0; it logs exactly for [NaN] and for
    negative numbers, and its result passes the check unchanged and
    silently. *)
Theorem checkSize_absolute (size : Setting) :
  0 <= fst (checkSize size)
  /\ (forall value, size = Number value -> fst (checkSize size) == Qabs value)
  /\ (size = NaN -> fst (checkSize size) = 0)
  /\ (snd (checkSize size) = []
      <-> exists value, size = Number value /\ 0 <= value)
  /\ checkSize (Number (fst (checkSize size))) = (fst (checkSize size), []).
Proof.
  destruct size as [|value]; cbn [checkSize fst snd].
  - split; [lra|]. split; [discriminate|]. split; [reflexivity|]. split.
    + split; [discriminate|]. intros [value [H _]]. discriminate.
    + reflexivity.
  - assert (Habs : forall q, (q < 0 -> Qabs q == - q) /\ (0 <= q -> Qabs q == q)).
    { intros q. split; intros Hq.
      - apply Qabs_neg. lra.
      - apply Qabs_pos. exact Hq. }
    num_case; cbn [fst snd].
    + split; [lra|]. split.
      * intros v Hv. injection Hv as <-. symmetry. apply Habs. assumption.
      * split; [discriminate|]. split.
        -- split; [discriminate|]. intros [v [Hv H0]]. injection Hv as <-. lra.
        -- num_case; [lra|reflexivity].
    + split; [lra|]. split.
      * intros v Hv. injection Hv as <-. symmetry. apply Habs. assumption.
      * split; [discriminate|]. split.
        -- split; [|reflexivity]. intros _. exists value. split; [reflexivity|lra].
        -- num_case; [lra|reflexivity].
Qed.

(** X16: [checkOpacity] always returns an opacity between 0 and 1: a number
    inside the range comes back unchanged, a number below it as 0, a number
    above it as 1, and [NaN] as 0; it logs exactly when the argument was not
    a number of the range, and its result passes the check unchanged and
    silently. *)
Theorem checkOpacity_range (opacity : Setting) :
  0 <= fst (checkOpacity opacity) <= 1
  /\ (forall value,
        opacity = Number value ->
        (0 <= value <= 1 -> checkOpacity opacity = (value, []))
        /\ (value < 0 -> fst (checkOpacity opacity) == 0)
        /\ (1 < value -> fst (checkOpacity opacity) == 1))
  /\ (opacity = NaN -> fst (checkOpacity opacity) = 0)
  /\ (snd (checkOpacity opacity) = []
      <-> exists value, opacity = Number value /\ 0 <= value <= 1)
  /\ checkOpacity (Number (fst (checkOpacity opacity)))
     = (fst (checkOpacity opacity), []).
Proof.
  destruct opacity as [|value]; cbn [checkOpacity].
  - cbn [fst snd]. split; [lra|]. split; [discriminate|]. split; [reflexivity|]. split.
    + split; [discriminate|]. intros [value [H _]]. discriminate.
    + reflexivity.
  - unfold Lodash.clamp.
    split; [num_cases_all; cbn [orb fst]; lra|].
    split; [|split; [discriminate|split]].
    + intros v Hv. injection Hv as <-.
      split; [intros [H0 H1]|split; intros H];
        num_cases_all; cbn [orb fst]; try reflexivity; lra.
    + split.
      * intros H. exists value. split; [reflexivity|].
        revert H. num_cases; cbn [orb snd]; try discriminate; intros _; lra.
      * intros [v [Hv [H0 H1]]]. injection Hv as <-.
        num_cases; cbn [orb snd]; try reflexivity; lra.
    + num_cases_all; cbn [orb fst snd] in *; try reflexivity; try lra.
Qed.

Lemma round_one : Double.round 1 = 1.
Proof. vm_compute. reflexivity. Qed.

Lemma rel_bounds (tol : Q) :
  0 <= tol -> Num.sub 1 tol <= 1 /\ 1 <= Num.add 1 tol.
Proof.
  intros Htol. unfold Num.sub, Num.add. rewrite <- round_one at 2 3.
  split; apply round_le; lra.
Qed.

(** X17: [isAbsClose] does not depend on the order of the two numbers, holds
    between a number and itself exactly when the tolerance is not negative,
    and is kept by a larger tolerance.  [isRelClose] with a reference that
    is not negative is kept by a larger tolerance, and a double that is not
    negative is close to itself for every tolerance that is not negative;
    it is not symmetric: to a negative double nothing but that double can
    be close, and whether it is depends on the rounding of [1 - tol] and
    [1 + tol] (-1 is close to -1 for the tolerance [2^-60] and not for
    [EPSILON]); to 0 only 0 is close. *)
Theorem closeness (a b tol : Q) :
  isAbsClose a b tol = isAbsClose b a tol
  /\ (isAbsClose a a tol = true <-> 0 <= tol)
  /\ (forall tol', tol <= tol' -> isAbsClose a b tol = true -> isAbsClose a b tol' = true)
  /\ (forall tol',
         tol <= tol' -> 0 <= b ->
         isRelClose a b tol = true -> isRelClose a b tol' = true)
  /\ (0 <= tol -> 0 <= b -> Double.isDouble b -> isRelClose b b tol = true)
  /\ (0 <= tol -> b < 0 -> Double.isDouble b -> isRelClose a b tol = true -> a == b)
  /\ (isRelClose a 0 tol = true <-> a == 0)
  /\ isRelClose (-1) (-1) (Double.twoTo (-60)) = true
  /\ isRelClose (-1) (-1) EPSILON = false.
Proof.
  assert (Habs : forall q t, Qabs q <= t <-> - t <= q /\ q <= t)
    by (intros q t; apply Qabs_Qle_condition).
  split; [|split; [|split; [|split; [|split; [|split; [|split; [|split]]]]]]].
  - unfold isAbsClose.
    assert (H : Qabs (Num.sub a b) == Qabs (Num.sub b a)).
    { rewrite <- (Qabs_opp (Num.sub b a)). apply Qabs_wd.
      unfold Num.sub, Double.round. rewrite <- roundTo_opp.
      rewrite (roundTo_comp 53 (-1074) (a - b) (- (b - a))) by ring. reflexivity. }
    destruct (Num.leb (Qabs (Num.sub a b)) tol) eqn:E1,
             (Num.leb (Qabs (Num.sub b a)) tol) eqn:E2;
      try reflexivity.
    + apply Num_leb_le in E1. apply Num_leb_gt in E2. rewrite H in E1. lra.
    + apply Num_leb_gt in E1. apply Num_leb_le in E2. rewrite H in E1. lra.
  - unfold isAbsClose. rewrite Num_sub_same. rewrite Num_leb_le. reflexivity.
  - unfold isAbsClose. intros tol' Hle H. apply Num_leb_le in H. apply Num_leb_le. lra.
  - unfold isRelClose. intros tol' Hle Hb H.
    apply andb_true_iff in H. destruct H as [H1 H2].
    apply Num_leb_le in H1, H2.
    assert (L : Num.mul (Num.sub 1 tol') b <= Num.mul (Num.sub 1 tol) b).
    { apply round_le. apply Qmult_le_compat_r; [|exact Hb]. apply round_le. lra. }
    assert (U : Num.mul (Num.add 1 tol) b <= Num.mul (Num.add 1 tol') b).
    { apply round_le. apply Qmult_le_compat_r; [|exact Hb]. apply round_le. lra. }
    apply andb_true_iff. split; apply Num_leb_le; lra.
  - unfold isRelClose. intros Htol Hb Db. unfold Double.isDouble in Db.
    destruct (rel_bounds tol Htol) as [Hl Hu].
    assert (L : Num.mul (Num.sub 1 tol) b <= b).
    { rewrite <- Db at 2. apply round_le. nra. }
    assert (U : b <= Num.mul (Num.add 1 tol) b).
    { rewrite <- Db at 1. apply round_le. nra. }
    apply andb_true_iff. split; apply Num_leb_le; assumption.
  - unfold isRelClose. intros Htol Hb Db H. unfold Double.isDouble in Db.
    apply andb_true_iff in H. destruct H as [H1 H2].
    apply Num_leb_le in H1, H2.
    destruct (rel_bounds tol Htol) as [Hl Hu].
    assert (L : b <= Num.mul (Num.sub 1 tol) b).
    { rewrite <- Db at 1. apply round_le. nra. }
    assert (U : Num.mul (Num.add 1 tol) b <= b).
    { rewrite <- Db at 2. apply round_le. nra. }
    lra.
  - unfold isRelClose. rewrite !Num_mul_zero_r, andb_true_iff, !Num_leb_le.
    split; [intros [H1 H2]|intros H; split]; lra.
  - vm_compute. reflexivity.
  - vm_compute. reflexivity.
Qed.

Lemma closeness_witness :
  (0 <= EPSILON /\ 0 <= 1 /\ Double.isDouble 1 /\ isRelClose 1 1 EPSILON = true)
  /\ (0 <= Double.twoTo (-60) /\ -1 < 0 /\ Double.isDouble (-1)
      /\ isRelClose (-1) (-1) (Double.twoTo (-60)) = true /\ -1 == -1).
Proof.
  split.
  - assert (H0 : 0 <= EPSILON) by (vm_compute; discriminate).
    assert (H1 : 0 <= 1) by lra.
    assert (H2 : Double.isDouble 1) by (vm_compute; reflexivity).
    split; [exact H0|]. split; [exact H1|]. split; [exact H2|].
    exact (proj1 (proj2 (proj2 (proj2 (proj2 (closeness 1 1 EPSILON))))) H0 H1 H2).
  - assert (H0 : 0 <= Double.twoTo (-60)) by (vm_compute; discriminate).
    assert (H1 : -1 < 0) by lra.
    assert (H2 : Double.isDouble (-1)) by (vm_compute; reflexivity).
    assert (H3 : isRelClose (-1) (-1) (Double.twoTo (-60)) = true)
      by (vm_compute; reflexivity).
    split; [exact H0|]. split; [exact H1|]. split; [exact H2|]. split; [exact H3|].
    exact (proj1 (proj2 (proj2 (proj2 (proj2 (proj2
             (closeness (-1) (-1) (Double.twoTo (-60)))))))) H0 H1 H2 H3).
Defined.

End Settings.

(** ** Buffers built from points *)

Section BuffersFromPoints.

Import PointBuffer.











End BuffersFromPoints.

(** ** Differences of point arrays and filtered clouds *)

Section FilteredClouds.

Import ThreeUtils.

Lemma differenceOfArrays_fixed (arrA arrB : list Vector3.t) :
  (forall p, In p arrA -> isCoordinatesInArray arrB p = false) ->
  differenceOfArrays arrA arrB = arrA.
Proof.
  intros H. unfold differenceOfArrays.
  induction arrA as [|a rest IH]; [reflexivity|].
  cbn [filter]. rewrite (H a (or_introl eq_refl)). cbn [negb].
  f_equal. apply IH. intros p Hp. apply H. right. exact Hp.
Qed.

Lemma isCoordinatesInArray_self (arrB : list Vector3.t) (p : Vector3.t) :
  In p arrB -> isCoordinatesInArray arrB p = true.
Proof.
  intros Hin. unfold isCoordinatesInArray. apply existsb_exists.
  exists p. split; [exact Hin|apply Vector3_equals_refl].
Qed.

Lemma differenceOfArrays_self (arrB : list Vector3.t) (others : list Vector3.t) :
  (forall p, In p arrB -> In p others) -> differenceOfArrays arrB others = [].
Proof.
  intros H. unfold differenceOfArrays.
  induction arrB as [|b rest IH]; [reflexivity|].
  cbn [filter]. rewrite (isCoordinatesInArray_self others b) by (apply H; left; reflexivity).
  cbn [negb]. apply IH. intros p Hp. apply H. right. exact Hp.
Qed.

Lemma differenceOfArrays_app (arrA arrB : list Vector3.t) :
  differenceOfArrays (arrA ++ arrB) arrB = differenceOfArrays arrA arrB.
Proof.
  unfold differenceOfArrays at 1. rewrite filter_app.
  change (filter (fun point => negb (isCoordinatesInArray arrB point)) arrA)
    with (differenceOfArrays arrA arrB).
  change (filter (fun point => negb (isCoordinatesInArray arrB point)) arrB)
    with (differenceOfArrays arrB arrB).
  rewrite (differenceOfArrays_self arrB arrB) by (intros p Hp; exact Hp).
  apply app_nil_r.
Qed.

(** X19: the difference of two arrays keeps, in their order, the points of
    the first array that are equal in coordinates to no point of the second;
    it is never longer than the first array, leaves an array unchanged when
    no point of it occurs in the second, and is not changed by taking the
    difference again.  It undoes a concatenation: the difference of
    [arrA ++ arrB] and [arrB] is the difference of [arrA] and [arrB], which
    is [arrA] itself when no point of [arrA] occurs in [arrB]. *)
Theorem differenceOfArrays_concat (arrA arrB : list Vector3.t) :
  (forall p, In p (differenceOfArrays arrA arrB)
             <-> In p arrA /\ isCoordinatesInArray arrB p = false)
  /\ (List.length (differenceOfArrays arrA arrB) <= List.length arrA)%nat
  /\ differenceOfArrays (differenceOfArrays arrA arrB) arrB = differenceOfArrays arrA arrB
  /\ differenceOfArrays (arrA ++ arrB) arrB = differenceOfArrays arrA arrB
  /\ ((forall p, In p arrA -> isCoordinatesInArray arrB p = false) ->
      differenceOfArrays (arrA ++ arrB) arrB = arrA)
  /\ differenceOfArrays arrA [] = arrA.
Proof.
  pose proof (differenceOfArrays_app arrA arrB) as Hconcat.
  split; [|split; [|split; [|split; [exact Hconcat|split]]]].
  - intros p. unfold differenceOfArrays. rewrite filter_In, negb_true_iff. reflexivity.
  - apply filter_length_le.
  - apply differenceOfArrays_fixed. intros p Hp.
    unfold differenceOfArrays in Hp. apply filter_In in Hp.
    apply negb_true_iff. exact (proj2 Hp).
  - intros H. rewrite Hconcat. apply differenceOfArrays_fixed. exact H.
  - apply differenceOfArrays_fixed. intros p _. reflexivity.
Qed.

Lemma differenceOfArrays_concat_witness :
  differenceOfArrays
    ([Vector3.mk 1 2 3; Vector3.mk 4 5 6] ++ [Vector3.mk 7 8 9]) [Vector3.mk 7 8 9]
  = [Vector3.mk 1 2 3; Vector3.mk 4 5 6].
Proof.
  apply (proj1 (proj2 (proj2 (proj2 (proj2
           (differenceOfArrays_concat [Vector3.mk 1 2 3; Vector3.mk 4 5 6]
              [Vector3.mk 7 8 9])))))).
  intros p [<-|[<-|[]]]; reflexivity.
Defined.



End FilteredClouds.


(** The rebuilt buffer holds binary32 numbers: on a cloud made of the point
    (16777217, 0, 0), erasing and then adding that point leaves the point
    (16777216, 0, 0) behind. *)
Example filterPointCloud_rounds :
  (erased <- ThreeUtils.filterPointCloud
               (PointCloud.mk
                  (fst (PointBuffer.new [] CoordinateFormat.XYZ 3)) [] 1)
               [Vector3.mk 16777217 0 0] "erase" ;;
   back <- ThreeUtils.filterPointCloud erased [Vector3.mk 16777217 0 0] "add" ;;
   PointBuffer.getCoords (PointCloud.buffer back))
  = Some [Vector3.mk 16777216 0 0].
Proof. vm_compute. reflexivity. Qed.

(** ** Channels of a buffer *)

Section ChannelAccess.

Import PointBuffer.

Lemma element_comp (arr : list Q) (k k' : Q) : k == k' -> element arr k = element arr k'.
Proof.
  intros Hk. unfold element. rewrite (Qfloor_comp _ _ Hk).
  destruct (Num.eqb (inject_Z (Qfloor k')) k) eqn:E1,
           (Num.eqb (inject_Z (Qfloor k')) k') eqn:E2; try reflexivity.
  - apply Num_eqb_eq in E1. apply Num_eqb_neq in E2. rewrite Hk in E1. contradiction.
  - apply Num_eqb_neq in E1. apply Num_eqb_eq in E2. rewrite Hk in E1. contradiction.
Qed.

Lemma element_integer (arr : list Q) (k : Q) (z : Z) :
  k == inject_Z z -> (0 <= z)%Z -> element arr k = nth_error arr (Z.to_nat z).
Proof.
  intros Hk Hz. rewrite (element_comp arr k (inject_Z z) Hk). unfold element.
  rewrite Qfloor_Z, Num_eqb_refl.
  destruct (Z.leb_spec 0 z); [reflexivity|lia].
Qed.

Lemma mapM_ext {B C : Type} (f g : B -> option C) (l : list B) :
  (forall b, In b l -> f b = g b) -> mapM f l = mapM g l.
Proof.
  induction l as [|b rest IH]; intros H; [reflexivity|].
  cbn [mapM]. rewrite (H b (or_introl eq_refl)), IH; [reflexivity|].
  intros c Hc. apply H. right. exact Hc.
Qed.

Lemma mapM_nth_error {B C : Type} (f : B -> option C) (l : list B) (out : list C) :
  mapM f l = Some out ->
  List.length out = List.length l
  /\ forall i b, nth_error l i = Some b -> f b = nth_error out i.
Proof.
  revert out. induction l as [|b rest IH]; intros out; cbn [mapM].
  - intros H. injection H as <-. split; [reflexivity|]. intros [|i] c Hc; discriminate.
  - unfold bind. destruct (f b) as [c|] eqn:Ef; [|discriminate].
    destruct (mapM f rest) as [cs|]; [|discriminate].
    intros H. injection H as <-. destruct (IH cs eq_refl) as [Hlen Hnth].
    split; [cbn; rewrite Hlen; reflexivity|].
    intros [|i] b' Hb'; cbn in Hb'.
    + injection Hb' as <-. exact Ef.
    + cbn. apply Hnth. exact Hb'.
Qed.

Variable data : list Q.
Variable format : CoordinateFormat.CoordinateFormatSpec.
Variable channels : Z.
Variable count : Z.

Hypothesis enough_channels : (3 <= channels)%Z.
Hypothesis exact_length : Z.of_nat (List.length data) = (count * channels)%Z.

Lemma channel_range :
  Lodash.range (numPoints (fst (new data format channels))) = seq 0 (Z.to_nat count).
Proof.
  rewrite (wellformed_new data format channels count enough_channels exact_length).
  cbn [fst numPoints]. unfold Lodash.range.
  rewrite (Qceiling_comp _ _ (wellformed_numPoints data channels count
                                enough_channels exact_length)), Qceiling_Z.
  reflexivity.
Qed.

Lemma channel_checked (c : Z) :
  fst (checkChannelIdx (fst (new data format channels)) (inject_Z c))
  == inject_Z (clampIndex channels c)
  /\ (snd (checkChannelIdx (fst (new data format channels)) (inject_Z c)) = []
      <-> (0 <= c < channels)%Z).
Proof.
  rewrite (wellformed_new data format channels count enough_channels exact_length).
  unfold checkChannelIdx, Lodash.clamp. cbn [fst numChannels].
  assert (Hch : 3 <= inject_Z channels)
    by (change 3 with (inject_Z 3); rewrite <- Zle_Qle; lia).
  destruct (Z_lt_le_dec c 0) as [Hneg|Hnn];
    [|destruct (Z_lt_le_dec c channels) as [Hin|Hout]].
  - replace (clampIndex channels c) with 0%Z by (unfold clampIndex; lia).
    assert (Hq : inject_Z c < 0)
      by (change 0 with (inject_Z 0); rewrite <- Zlt_Qlt; lia).
    change (inject_Z 0) with 0.
    split; [num_cases_all; cbn [orb fst]; lra|].
    num_cases; cbn [orb snd]; try lra; (split; [discriminate|lia]).
  - replace (clampIndex channels c) with c by (unfold clampIndex; lia).
    assert (Hq0 : 0 <= inject_Z c)
      by (change 0 with (inject_Z 0); rewrite <- Zle_Qle; lia).
    assert (Hq1 : inject_Z c < inject_Z channels) by (rewrite <- Zlt_Qlt; lia).
    split; [num_cases_all; cbn [orb fst]; lra|].
    num_cases; cbn [orb snd]; try lra; (split; [lia|reflexivity]).
  - replace (clampIndex channels c) with (channels + -1)%Z by (unfold clampIndex; lia).
    assert (Hq0 : 0 <= inject_Z c)
      by (change 0 with (inject_Z 0); rewrite <- Zle_Qle; lia).
    assert (Hq1 : inject_Z channels <= inject_Z c) by (rewrite <- Zle_Qle; lia).
    rewrite inject_Z_plus. change (inject_Z (-1)) with (-1).
    split; [num_cases_all; cbn [orb fst]; lra|].
    num_cases; cbn [orb snd]; try lra; (split; [discriminate|lia]).
Qed.

(** X21: in a buffer whose channel count is at least 3 and divides the
    length, [getChannel] at any integer index returns one value for each
    point, the value for point [i] being the entry of [getPoint(i)] at the
    nearest valid channel index (the index itself when it is in range); a
    diagnostic is logged exactly when the index is outside the range. *)
Theorem getChannel_column (c : Z) :
  exists column,
    fst (getChannel (fst (new data format channels)) (inject_Z c)) = Some column
    /\ List.length column = Z.to_nat count
    /\ (forall i,
          (i < Z.to_nat count)%nat ->
          nth_error column i
          = nth_error (fst (getPoint (fst (new data format channels))
                              (inject_Z (Z.of_nat i))))
              (Z.to_nat (clampIndex channels c))
          /\ nth_error column i <> None)
    /\ (snd (getChannel (fst (new data format channels)) (inject_Z c)) = []
        <-> (0 <= c < channels)%Z).
Proof.
  destruct (channel_checked c) as [Hclean Hlog].
  assert (Hrange : (0 <= clampIndex channels c < channels)%Z)
    by (unfold clampIndex; lia).
  set (k := clampIndex channels c) in *.
  assert (Hget : fst (getChannel (fst (new data format channels)) (inject_Z c))
                 = mapM (fun i => nth_error data (Z.to_nat (Z.of_nat i * channels + k)))
                     (seq 0 (Z.to_nat count))).
  { unfold getChannel. cbn [fst]. rewrite channel_range.
    apply mapM_ext. intros i _.
    apply element_integer; [|lia].
    rewrite Hclean.
    rewrite (wellformed_new data format channels count enough_channels exact_length).
    cbn [fst numChannels]. rewrite inject_Z_plus, inject_Z_mult. reflexivity. }
  destruct (mapM_total
              (fun i => nth_error data (Z.to_nat (Z.of_nat i * channels + k)))
              (seq 0 (Z.to_nat count))) as [column [Hcol Hlen]].
  { intros i Hi. apply in_seq in Hi.
    destruct (nth_error data (Z.to_nat (Z.of_nat i * channels + k))) as [v|] eqn:E;
      [exists v; reflexivity|].
    apply nth_error_None in E. exfalso. nia. }
  exists column. rewrite Hget.
  split; [exact Hcol|]. split; [rewrite Hlen; apply length_seq|]. split.
  - intros i Hi.
    destruct (mapM_nth_error _ _ _ Hcol) as [_ Hnth].
    assert (Hi' : nth_error (seq 0 (Z.to_nat count)) i = Some i).
    { rewrite nth_error_seq. destruct (Nat.ltb_spec i (Z.to_nat count)); [reflexivity|lia]. }
    rewrite <- (Hnth i i Hi').
    rewrite (wellformed_getPoint data format channels count enough_channels
               exact_length i) by lia.
    cbn [fst]. split.
    + rewrite nth_error_firstn.
      destruct (Nat.ltb_spec (Z.to_nat k) (Z.to_nat channels)); [|lia].
      rewrite nth_error_skipn. f_equal. lia.
    + intros E. apply nth_error_None in E. nia.
  - unfold getChannel. cbn [snd]. exact Hlog.
Qed.

End ChannelAccess.

Lemma getChannel_column_witness :
  exists column,
    fst (PointBuffer.getChannel
           (fst (PointBuffer.new PointBuffer.twelve CoordinateFormat.XYZ 3)) (inject_Z 1))
    = Some column
    /\ List.length column = 4%nat.
Proof.
  assert (H3 : (3 <= 3)%Z) by lia.
  assert (Hlen : Z.of_nat (List.length PointBuffer.twelve) = (4 * 3)%Z) by reflexivity.
  destruct (getChannel_column PointBuffer.twelve CoordinateFormat.XYZ 3 4 H3 Hlen 1)
    as [column [Hcol [Hn _]]].
  exists column. split; [exact Hcol|exact Hn].
Defined.

(** ** The picker: replaced objects, pointer events and sequences *)

Section PickerInteractions.

Import Picker.

Context {TObject : Type}.
Context (TObject_eq_dec : forall a b : TObject, {a = b} + {a <> b}).
Context {Raycaster : Type}.

Lemma enter_tracked (this : @Picker.t TObject Raycaster) (kind : EventType)
    (message : string) (value : option TObject) (isFromPointer : bool) :
  isTracked this value ->
  enter TObject_eq_dec this kind message value isFromPointer
  = match value with
    | Some o => [Dispatch (mkEvent kind o isFromPointer)]
    | None => []
    end.
Proof.
  destruct value as [o|]; [|reflexivity]. cbn [isTracked enter]. intros Hin.
  destruct (CollectionUtils.every (elements (objects this))
              (fun e => negb (same TObject_eq_dec e o))) eqn:E; [|reflexivity].
  apply every_other in E. contradiction.
Qed.

Lemma setHoveredObj_frames (this : @Picker.t TObject Raycaster)
    (value : option TObject) (isFromPointer : bool) :
  hoveredObj (fst (setHoveredObj TObject_eq_dec value isFromPointer this)) = value
  /\ selectedObj (fst (setHoveredObj TObject_eq_dec value isFromPointer this))
     = selectedObj this
  /\ objects (fst (setHoveredObj TObject_eq_dec value isFromPointer this)) = objects this
  /\ hoverEnabled (fst (setHoveredObj TObject_eq_dec value isFromPointer this))
     = hoverEnabled this
  /\ selectEnabled (fst (setHoveredObj TObject_eq_dec value isFromPointer this))
     = selectEnabled this
  /\ raycaster (fst (setHoveredObj TObject_eq_dec value isFromPointer this))
     = raycaster this
  /\ raycastFunc (fst (setHoveredObj TObject_eq_dec value isFromPointer this))
     = raycastFunc this.
Proof.
  unfold setHoveredObj.
  destruct (differs TObject_eq_dec (hoveredObj this) value) eqn:E; cbn [fst].
  - repeat split.
  - apply differs_false in E. repeat split. symmetry. exact E.
Qed.

Lemma setSelectedObj_frames (this : @Picker.t TObject Raycaster)
    (value : option TObject) (isFromPointer : bool) :
  selectedObj (fst (setSelectedObj TObject_eq_dec value isFromPointer this)) = value
  /\ hoveredObj (fst (setSelectedObj TObject_eq_dec value isFromPointer this))
     = hoveredObj this
  /\ objects (fst (setSelectedObj TObject_eq_dec value isFromPointer this)) = objects this
  /\ hoverEnabled (fst (setSelectedObj TObject_eq_dec value isFromPointer this))
     = hoverEnabled this
  /\ selectEnabled (fst (setSelectedObj TObject_eq_dec value isFromPointer this))
     = selectEnabled this
  /\ raycaster (fst (setSelectedObj TObject_eq_dec value isFromPointer this))
     = raycaster this
  /\ raycastFunc (fst (setSelectedObj TObject_eq_dec value isFromPointer this))
     = raycastFunc this.
Proof.
  unfold setSelectedObj.
  destruct (differs TObject_eq_dec (selectedObj this) value) eqn:E; cbn [fst].
  - repeat split.
  - apply differs_false in E. repeat split. symmetry. exact E.
Qed.

Lemma setHoveredObj_output (this : @Picker.t TObject Raycaster)
    (value : option TObject) (isFromPointer : bool) :
  isTracked this value ->
  snd (setHoveredObj TObject_eq_dec value isFromPointer this)
  = if differs TObject_eq_dec (hoveredObj this) value
    then map Dispatch
           (transitionEvents hoverout hoverin (hoveredObj this) value isFromPointer)
    else [].
Proof.
  intros Htracked. unfold setHoveredObj.
  destruct (differs TObject_eq_dec (hoveredObj this) value); [|reflexivity].
  cbn [snd]. rewrite enter_tracked by exact Htracked.
  unfold leave, transitionEvents.
  destruct (hoveredObj this), value; reflexivity.
Qed.

Lemma setSelectedObj_output (this : @Picker.t TObject Raycaster)
    (value : option TObject) (isFromPointer : bool) :
  isTracked this value ->
  snd (setSelectedObj TObject_eq_dec value isFromPointer this)
  = if differs TObject_eq_dec (selectedObj this) value
    then map Dispatch
           (transitionEvents selectout selectin (selectedObj this) value isFromPointer)
    else [].
Proof.
  intros Htracked. unfold setSelectedObj.
  destruct (differs TObject_eq_dec (selectedObj this) value); [|reflexivity].
  cbn [snd]. rewrite enter_tracked by exact Htracked.
  unfold leave, transitionEvents.
  destruct (selectedObj this), value; reflexivity.
Qed.

Lemma warnings_dispatch (es : list (@PickerEvent TObject)) :
  warnings (map Dispatch es) = [].
Proof. induction es as [|e rest IH]; [reflexivity|exact IH]. Qed.

Lemma warnings_app (out1 out2 : list (@Output TObject)) :
  warnings (out1 ++ out2) = warnings out1 ++ warnings out2.
Proof. unfold warnings. apply flat_map_app. Qed.

Lemma getHoveredObj_tracked (this : @Picker.t TObject Raycaster) :
  isTracked this (getHoveredObj this).
Proof.
  destruct (getHoveredObj this) as [o|] eqn:E; [|exact I].
  cbn [isTracked]. apply getHoveredObj_member. exact E.
Qed.

(** X22: assigning to [objects] an iterable that is the one held changes
    nothing and dispatches nothing.  Assigning another iterable stores it
    and clears the selected and the hovered object; the selected object, if
    any, is announced as deselected first and then the hovered object, if
    any, as no longer hovered, both as not coming from the pointer, and no
    warning is written; the two flags are kept. *)
Theorem set_objects_clears (this : @Picker.t TObject Raycaster)
    (value : @Iterable TObject) :
  (reference value = reference (objects this) ->
   set_objects TObject_eq_dec value this = (this, []))
  /\ (reference value <> reference (objects this) ->
      objects (fst (set_objects TObject_eq_dec value this)) = value
      /\ selectedObj (fst (set_objects TObject_eq_dec value this)) = None
      /\ hoveredObj (fst (set_objects TObject_eq_dec value this)) = None
      /\ hoverEnabled (fst (set_objects TObject_eq_dec value this)) = hoverEnabled this
      /\ selectEnabled (fst (set_objects TObject_eq_dec value this)) = selectEnabled this
      /\ snd (set_objects TObject_eq_dec value this)
         = match selectedObj this with
           | Some o => [Dispatch (mkEvent selectout o false)]
           | None => []
           end
           ++ match hoveredObj this with
              | Some o => [Dispatch (mkEvent hoverout o false)]
              | None => []
              end).
Proof.
  unfold set_objects. split.
  - intros ->. rewrite Nat.eqb_refl. reflexivity.
  - intros Hne.
    destruct (Nat.eqb_spec (reference (objects this)) (reference value)) as [E|_];
      [congruence|].
    cbn [negb]. unfold andThen, set_selectedObj, set_hoveredObj.
    destruct (setSelectedObj_frames (with_objects this value) None false)
      as [Hs1 [Hs2 [Hs3 [Hs4 [Hs5 _]]]]].
    destruct (setHoveredObj_frames
                (fst (setSelectedObj TObject_eq_dec None false (with_objects this value)))
                None false) as [Hh1 [Hh2 [Hh3 [Hh4 [Hh5 _]]]]].
    cbn [fst snd].
    split; [rewrite Hh3, Hs3; reflexivity|].
    split; [rewrite Hh2, Hs1; reflexivity|].
    split; [exact Hh1|].
    split; [rewrite Hh4, Hs4; reflexivity|].
    split; [rewrite Hh5, Hs5; reflexivity|].
    rewrite (setSelectedObj_output (with_objects this value) None false I).
    rewrite (setHoveredObj_output _ None false I).
    rewrite Hs2. cbn [with_objects selectedObj hoveredObj].
    destruct (selectedObj this), (hoveredObj this); reflexivity.
Qed.

(** X23: the [pointermove] listener always stores the moved ray and never
    touches the selected object; with the hover disabled it changes nothing
    else and dispatches nothing, with the hover enabled the hovered object
    becomes the nearest hit of the moved ray, announced by a hoverout and a
    hoverin event from the pointer when it changed.  The [pointerdown]
    listener does nothing for a button other than 0 or with the selection
    disabled; otherwise the selected object becomes the nearest hit of the
    ray as the last move left it (null when nothing is hit), whether or not
    the hover is enabled, and the hovered object and the ray are kept.
    Neither listener writes a warning. *)
Theorem pointer_listeners (this : @Picker.t TObject Raycaster) (moved : Raycaster)
    (button : Z) :
  raycaster (fst (onPointerMove TObject_eq_dec moved this)) = moved
  /\ selectedObj (fst (onPointerMove TObject_eq_dec moved this)) = selectedObj this
  /\ (hoverEnabled this = false ->
      hoveredObj (fst (onPointerMove TObject_eq_dec moved this)) = hoveredObj this
      /\ snd (onPointerMove TObject_eq_dec moved this) = [])
  /\ (hoverEnabled this = true ->
      hoveredObj (fst (onPointerMove TObject_eq_dec moved this))
      = getHoveredObj (with_raycaster this moved)
      /\ snd (onPointerMove TObject_eq_dec moved this)
         = if differs TObject_eq_dec (hoveredObj this)
                (getHoveredObj (with_raycaster this moved))
           then map Dispatch
                  (transitionEvents hoverout hoverin (hoveredObj this)
                     (getHoveredObj (with_raycaster this moved)) true)
           else [])
  /\ (button <> 0%Z \/ selectEnabled this = false ->
      onPointerDown TObject_eq_dec button this = (this, []))
  /\ (button = 0%Z -> selectEnabled this = true ->
      selectedObj (fst (onPointerDown TObject_eq_dec button this)) = getHoveredObj this
      /\ hoveredObj (fst (onPointerDown TObject_eq_dec button this)) = hoveredObj this
      /\ raycaster (fst (onPointerDown TObject_eq_dec button this)) = raycaster this
      /\ snd (onPointerDown TObject_eq_dec button this)
         = if differs TObject_eq_dec (selectedObj this) (getHoveredObj this)
           then map Dispatch
                  (transitionEvents selectout selectin (selectedObj this)
                     (getHoveredObj this) true)
           else [])
  /\ warnings (snd (onPointerMove TObject_eq_dec moved this)) = []
  /\ warnings (snd (onPointerDown TObject_eq_dec button this)) = [].
Proof.
  pose proof (setHoveredObj_frames (with_raycaster this moved)
                (getHoveredObj (with_raycaster this moved)) true)
    as [Hh1 [Hh2 [_ [_ [_ [Hh6 _]]]]]].
  pose proof (setHoveredObj_output (with_raycaster this moved)
                (getHoveredObj (with_raycaster this moved)) true
                (getHoveredObj_tracked _)) as Hhout.
  pose proof (setSelectedObj_frames this (getHoveredObj this) true)
    as [Hs1 [Hs2 [_ [_ [_ [Hs6 _]]]]]].
  pose proof (setSelectedObj_output this (getHoveredObj this) true
                (getHoveredObj_tracked _)) as Hsout.
  unfold onPointerMove, onPointerDown.
  cbn [with_raycaster hoverEnabled hoveredObj selectedObj raycaster] in *.
  split; [destruct (hoverEnabled this); [exact Hh6|reflexivity]|].
  split; [destruct (hoverEnabled this); [exact Hh2|reflexivity]|].
  split; [intros ->; split; reflexivity|].
  split; [intros ->; split; [exact Hh1|exact Hhout]|].
  split.
  { intros [Hb|Hs].
    - destruct (Z.eqb_spec button 0); [contradiction|reflexivity].
    - rewrite Hs. destruct (button =? 0)%Z; reflexivity. }
  split.
  { intros -> ->. cbn [Z.eqb]. repeat split; assumption. }
  split.
  - destruct (hoverEnabled this); [|reflexivity]. rewrite Hhout.
    destruct (differs TObject_eq_dec (hoveredObj this)
                (getHoveredObj (with_raycaster this moved)));
      [apply warnings_dispatch|reflexivity].
  - destruct (button =? 0)%Z; [|reflexivity].
    destruct (selectEnabled this); [|reflexivity]. rewrite Hsout.
    destruct (differs TObject_eq_dec (selectedObj this) (getHoveredObj this));
      [apply warnings_dispatch|reflexivity].
Qed.

Lemma isTracked_objects (this that : @Picker.t TObject Raycaster)
    (value : option TObject) :
  objects that = objects this -> isTracked this value -> isTracked that value.
Proof. unfold isTracked. intros ->. exact (fun H => H). Qed.

Lemma perform_consistent (action : @Action TObject Raycaster)
    (this : @Picker.t TObject Raycaster) :
  consistent this ->
  consistent (fst (perform TObject_eq_dec action this))
  /\ warnings (snd (perform TObject_eq_dec action this)) = [].
Proof.
  intros [Hhov Hsel]. unfold consistent.
  destruct action as [moved|button|[|]|value|value]; cbn [perform].
  - unfold onPointerMove. cbn [with_raycaster hoverEnabled].
    destruct (hoverEnabled this).
    + destruct (setHoveredObj_frames (with_raycaster this moved)
                  (getHoveredObj (with_raycaster this moved)) true)
        as [H1 [H2 [H3 _]]].
      rewrite (setHoveredObj_output _ _ true (getHoveredObj_tracked _)).
      unfold with_raycaster in *.
      rewrite H1, H2. split.
      * split.
        -- apply (isTracked_objects _ _ _ H3). apply getHoveredObj_tracked.
        -- apply (isTracked_objects this); [exact H3|exact Hsel].
      * destruct (differs _ _ _); [apply warnings_dispatch|reflexivity].
    + split; [split; assumption|reflexivity].
  - unfold onPointerDown.
    destruct (button =? 0)%Z; [|split; [split; assumption|reflexivity]].
    destruct (selectEnabled this); [|split; [split; assumption|reflexivity]].
    destruct (setSelectedObj_frames this (getHoveredObj this) true) as [H1 [H2 [H3 _]]].
    rewrite (setSelectedObj_output _ _ true (getHoveredObj_tracked _)).
    rewrite H1, H2. split.
    + split.
      * apply (isTracked_objects this); [exact H3|exact Hhov].
      * apply (isTracked_objects this); [exact H3|apply getHoveredObj_tracked].
    + destruct (differs _ _ _); [apply warnings_dispatch|reflexivity].
  - unfold set_hoverEnabled, set_hoveredObj.
    destruct (setHoveredObj_frames (with_hoverEnabled this true)
                (getHoveredObj (with_hoverEnabled this true)) false) as [H1 [H2 [H3 _]]].
    rewrite (setHoveredObj_output _ _ false (getHoveredObj_tracked _)).
    rewrite H1, H2. split.
    + split.
      * apply (isTracked_objects _ _ _ H3). apply getHoveredObj_tracked.
      * apply (isTracked_objects this); [exact H3|exact Hsel].
    + destruct (differs _ _ _); [apply warnings_dispatch|reflexivity].
  - unfold set_hoverEnabled, set_hoveredObj.
    destruct (setHoveredObj_frames (with_hoverEnabled this false) None false)
      as [H1 [H2 [H3 _]]].
    rewrite (setHoveredObj_output (with_hoverEnabled this false) None false I).
    rewrite H1, H2. split.
    + split; [exact I|]. apply (isTracked_objects this); [exact H3|exact Hsel].
    + destruct (differs _ _ _); [apply warnings_dispatch|reflexivity].
  - unfold set_selectEnabled. cbn [fst snd]. split; [split; assumption|reflexivity].
  - unfold set_objects.
    destruct (negb (Nat.eqb (reference (objects this)) (reference value)));
      [|split; [split; assumption|reflexivity]].
    unfold andThen, set_selectedObj, set_hoveredObj. cbn [fst snd].
    destruct (setSelectedObj_frames (with_objects this value) None false)
      as [Hs1 _].
    destruct (setHoveredObj_frames
                (fst (setSelectedObj TObject_eq_dec None false (with_objects this value)))
                None false) as [Hh1 [Hh2 _]].
    rewrite Hh1, Hh2, Hs1. split; [split; exact I|].
    rewrite warnings_app.
    rewrite (setSelectedObj_output (with_objects this value) None false I).
    rewrite (setHoveredObj_output _ None false I).
    repeat (destruct (differs _ _ _)); rewrite ?warnings_dispatch; reflexivity.
Qed.

(** X24: when the hovered and the selected object of a picker are objects of
    the picker (or null), they still are after any sequence of pointer
    moves, pointer presses and assignments to [hoverEnabled],
    [selectEnabled] and [objects], and the whole sequence writes no
    warning: only an assignment of an object from outside can make the
    picker hold an object it does not interact with. *)
Theorem performAll_consistent (actions : list (@Action TObject Raycaster))
    (this : @Picker.t TObject Raycaster) :
  consistent this ->
  consistent (fst (performAll TObject_eq_dec actions this))
  /\ warnings (snd (performAll TObject_eq_dec actions this)) = [].
Proof.
  revert this. induction actions as [|action rest IH]; intros this Hthis.
  - split; [exact Hthis|reflexivity].
  - cbn [performAll]. unfold andThen. cbn [fst snd].
    destruct (perform_consistent action this Hthis) as [Hnext Hquiet].
    destruct (IH _ Hnext) as [Hend Hrest].
    split; [exact Hend|]. rewrite warnings_app, Hquiet, Hrest. reflexivity.
Qed.

End PickerInteractions.

Lemma performAll_consistent_witness :
  Picker.consistent
    (fst (Picker.performAll Nat.eq_dec
            [Picker.PointerMove tt; Picker.PointerDown 0;
             Picker.SetObjects PickerExample.withoutNearest;
             Picker.SetHoverEnabled true]
            PickerExample.busy))
  /\ Picker.warnings
       (snd (Picker.performAll Nat.eq_dec
               [Picker.PointerMove tt; Picker.PointerDown 0;
                Picker.SetObjects PickerExample.withoutNearest;
                Picker.SetHoverEnabled true]
               PickerExample.busy))
     = [].
Proof.
  apply (performAll_consistent Nat.eq_dec).
  split; [right; left; reflexivity|right; right; left; reflexivity].
Defined.

(** The sequence of the witness, run: the press selects the hovered object 1
    in place of 2, the new objects clear both, and enabling the hover again
    finds object 0, the nearest of the new objects. *)
Example busy_sequence :
  Picker.performAll Nat.eq_dec
    [Picker.PointerMove tt; Picker.PointerDown 0;
     Picker.SetObjects PickerExample.withoutNearest;
     Picker.SetHoverEnabled true]
    PickerExample.busy
  = (Picker.mk true true PickerExample.withoutNearest PickerExample.raycast tt
       (Some 0%nat) None,
     [Picker.Dispatch (Picker.mkEvent Picker.selectout 2%nat true);
      Picker.Dispatch (Picker.mkEvent Picker.selectin 1%nat true);
      Picker.Dispatch (Picker.mkEvent Picker.selectout 1%nat false);
      Picker.Dispatch (Picker.mkEvent Picker.hoverout 1%nat false);
      Picker.Dispatch (Picker.mkEvent Picker.hoverin 0%nat false)]).
Proof. reflexivity. Qed.

(** ** Editing selections: the modes and the caches they need *)

Section EditingModes.

Import EditSelection.

Lemma filterByIndex_None {A : Type} (keep : nat -> option bool) (l : list A) :
  forall start,
    filterByIndex keep start l = None
    <-> exists i, (i < List.length l)%nat /\ keep (start + i)%nat = None.
Proof.
  induction l as [|a rest IH]; intros start; cbn [filterByIndex List.length].
  - split; [discriminate|]. intros [i [Hi _]]. lia.
  - unfold bind. destruct (keep start) as [k|] eqn:Ek.
    + destruct (filterByIndex keep (S start) rest) as [kept|] eqn:Er.
      * split; [discriminate|]. intros [i [Hi Hnone]].
        destruct i as [|i]; [rewrite Nat.add_0_r in Hnone; congruence|].
        assert (Hex : exists j, (j < List.length rest)%nat /\ keep (S start + j)%nat = None).
        { exists i. split; [lia|]. rewrite <- Hnone. f_equal. lia. }
        apply IH in Hex. congruence.
      * split; [|reflexivity]. intros _.
        apply IH in Er. destruct Er as [j [Hj Hnone]].
        exists (S j). split; [lia|]. rewrite <- Hnone. f_equal. lia.
    + split; [|reflexivity]. intros _. exists 0%nat.
      split; [lia|]. rewrite Nat.add_0_r. exact Ek.
Qed.

Lemma inDrawnObject_None (object : Shape) (pointNDC : option Vector3.t) :
  object <> Polygon [] ->
  (inDrawnObject object pointNDC = None <-> pointNDC = None).
Proof.
  intros Hobj. destruct object as [[|v vs]|c r], pointNDC as [p|]; cbn;
    try (split; [discriminate|discriminate]); try (split; reflexivity);
    try contradiction.
Qed.

(** X25: which calls of [modifySelection] throw.  With a mode other than
    add and erase nothing is read: the selection is returned as it is and
    nothing is dispatched.  In the mode erase with a circle, or a polygon
    with at least one vertex, the call throws exactly when the cache of
    projections of the selection is undefined while the selection has a
    point, or is shorter than the points of the selection. *)
Theorem modifySelection_throws (object : Shape) (pointCloud : PointCloud.t)
    (selection : LabelSelection.t) :
  (forall mode,
     mode <> "add"%string -> mode <> "erase"%string ->
     modifySelection object pointCloud selection mode = Some (selection, []))
  /\ (object <> Polygon [] ->
      (modifySelection object pointCloud selection "erase" = None
       <-> match LabelSelection.pointsNDC selection with
           | None => LabelSelection.points selection <> []
           | Some cache =>
               (List.length cache < List.length (LabelSelection.points selection))%nat
           end)).
Proof.
  split.
  - intros mode Hadd Herase. unfold modifySelection.
    destruct (String.eqb_spec mode "add"); [contradiction|].
    destruct (String.eqb_spec mode "erase"); [contradiction|].
    reflexivity.
  - intros Hobj. unfold modifySelection. cbn [String.eqb Ascii.eqb Bool.eqb].
    assert (Hq : queryPointFromSelection object selection = None
                 <-> match LabelSelection.pointsNDC selection with
                     | None => LabelSelection.points selection <> []
                     | Some cache =>
                         (List.length cache
                          < List.length (LabelSelection.points selection))%nat
                     end).
    { unfold queryPointFromSelection. rewrite filterByIndex_None.
      destruct (LabelSelection.pointsNDC selection) as [cache|].
      - split.
        + intros [i [Hi Hnone]]. apply (inDrawnObject_None object _ Hobj) in Hnone.
          apply nth_error_None in Hnone. cbn in Hnone. lia.
        + intros Hlen. exists (List.length cache). split; [exact Hlen|].
          apply (inDrawnObject_None object _ Hobj). apply nth_error_None. cbn. lia.
      - split.
        + intros [i [Hi _]] E. rewrite E in Hi. cbn in Hi. lia.
        + intros Hne. exists 0%nat. split; [|reflexivity].
          destruct (LabelSelection.points selection); [contradiction|cbn; lia]. }
    rewrite <- Hq.
    destruct (queryPointFromSelection object selection); cbn [bind];
      split; congruence.
Qed.

Lemma modifySelection_throws_witness :
  modifySelection unitCircle fourPoints
    (LabelSelection.new 7 [Vector3.mk 10 11 12] 2) "erase" = None.
Proof.
  apply (proj2 (modifySelection_throws unitCircle fourPoints
                  (LabelSelection.new 7 [Vector3.mk 10 11 12] 2))).
  - discriminate.
  - cbn. discriminate.
Defined.


Lemma Vector3_equals_sym (p q : Vector3.t) : Vector3.equals p q = Vector3.equals q p.
Proof.
  unfold Vector3.equals.
  assert (H : forall a b, Num.eqb a b = Num.eqb b a).
  { intros a b. destruct (Num.eqb a b) eqn:E1, (Num.eqb b a) eqn:E2; try reflexivity.
    - apply Num_eqb_eq in E1. apply Num_eqb_neq in E2. exfalso. apply E2. symmetry. exact E1.
    - apply Num_eqb_neq in E1. apply Num_eqb_eq in E2. exfalso. apply E1. symmetry. exact E2. }
  rewrite (H (Vector3.x q)), (H (Vector3.y q)), (H (Vector3.z q)). reflexivity.
Qed.



End EditingModes.


(** ** The polygon and the curvature tool *)

Section DrawingTools.

Import ThreeUtils.

Lemma Vector2_equals_refl (p : Vector2.t) : Vector2.equals p p = true.
Proof. unfold Vector2.equals. rewrite !Num_eqb_refl. reflexivity. Qed.

Lemma Vector2_equals_sym (p q : Vector2.t) : Vector2.equals p q = Vector2.equals q p.
Proof.
  unfold Vector2.equals.
  assert (H : forall a b, Num.eqb a b = Num.eqb b a).
  { intros a b. destruct (Num.eqb a b) eqn:E1, (Num.eqb b a) eqn:E2; try reflexivity.
    - apply Num_eqb_eq in E1. apply Num_eqb_neq in E2. exfalso. apply E2. symmetry. exact E1.
    - apply Num_eqb_neq in E1. apply Num_eqb_eq in E2. exfalso. apply E1. symmetry. exact E2. }
  rewrite (H (Vector2.x q)), (H (Vector2.y q)). reflexivity.
Qed.

Lemma pixelCoordsListToNDC_defined (d : DomElement) (coordsList : list Vector2.t) :
  ~ width d == 0 -> ~ height d == 0 ->
  exists ndc,
    pixelCoordsListToNDC d coordsList = Some ndc
    /\ List.length ndc = List.length coordsList.
Proof.
  intros Hw Hh. unfold pixelCoordsListToNDC. apply mapM_total.
  intros coord _. unfold pixelCoordsToNDC.
  destruct (pointerLock d); [eexists; reflexivity|].
  rewrite toNDC_defined by assumption. eexists. reflexivity.
Qed.

Lemma distinct_snoc (vs : list Vector2.t) (coords : Vector2.t) :
  PolygonTool.distinct vs ->
  existsb (fun vec => Vector2.equals vec coords) vs = false ->
  PolygonTool.distinct (vs ++ [coords]).
Proof.
  intros Hvs Hnew i j p q Hi Hj Heq.
  assert (Hfresh : forall k v, nth_error vs k = Some v -> Vector2.equals v coords = false).
  { intros k v Hk.
    destruct (Vector2.equals v coords) eqn:E; [|reflexivity].
    assert (Hex : existsb (fun vec => Vector2.equals vec coords) vs = true).
    { apply existsb_exists. exists v. split; [eapply nth_error_In; exact Hk|exact E]. }
    congruence. }
  destruct (Nat.lt_ge_cases i (List.length vs)) as [Hil|Hil],
           (Nat.lt_ge_cases j (List.length vs)) as [Hjl|Hjl].
  - rewrite nth_error_app1 in Hi, Hj by assumption. exact (Hvs i j p q Hi Hj Heq).
  - rewrite nth_error_app1 in Hi by assumption.
    rewrite nth_error_app2 in Hj by assumption.
    destruct (j - List.length vs)%nat as [|k] eqn:Ek; cbn in Hj;
      [|destruct k; discriminate].
    injection Hj as <-. rewrite (Hfresh i p Hi) in Heq. discriminate.
  - rewrite nth_error_app2 in Hi by assumption.
    rewrite nth_error_app1 in Hj by assumption.
    destruct (i - List.length vs)%nat as [|k] eqn:Ek; cbn in Hi;
      [|destruct k; discriminate].
    injection Hi as <-. rewrite Vector2_equals_sym, (Hfresh j q Hj) in Heq. discriminate.
  - rewrite nth_error_app2 in Hi, Hj by assumption.
    destruct (i - List.length vs)%nat as [|k] eqn:Ei; cbn in Hi;
      [|destruct k; discriminate].
    destruct (j - List.length vs)%nat as [|k] eqn:Ej; cbn in Hj;
      [|destruct k; discriminate].
    lia.
Qed.

Lemma polygon_press (this : PolygonTool.t) (event : PointerEvent) :
  PolygonTool.distinct (PolygonTool.vertices this) ->
  PolygonTool.distinct (PolygonTool.vertices (PolygonTool.onPointerDown this event))
  /\ PolygonTool.offsetLeft (PolygonTool.onPointerDown this event)
     = PolygonTool.offsetLeft this
  /\ PolygonTool.offsetTop (PolygonTool.onPointerDown this event)
     = PolygonTool.offsetTop this
  /\ (PolygonTool.vertices (PolygonTool.onPointerDown this event)
      = PolygonTool.vertices this
      \/ PolygonTool.vertices (PolygonTool.onPointerDown this event)
         = PolygonTool.vertices this ++ [PolygonTool.getClientOffset this event]).
Proof.
  intros Hd. unfold PolygonTool.onPointerDown.
  destruct (negb (PolygonTool.enabled this)
            || negb (String.eqb (PolygonTool.mode this) "draw"));
    [repeat split; [exact Hd|left; reflexivity]|].
  destruct (negb (button event =? 0)%Z); [repeat split; [exact Hd|left; reflexivity]|].
  destruct (negb (PolygonTool.hasContext this));
    [repeat split; [exact Hd|left; reflexivity]|].
  cbn [PolygonTool.vertices PolygonTool.offsetLeft PolygonTool.offsetTop].
  unfold PolygonTool.isCoordsExist.
  destruct (existsb (fun vec => Vector2.equals vec (PolygonTool.getClientOffset this event))
              (PolygonTool.vertices this)) eqn:E; cbn [negb].
  - repeat split; [exact Hd|left; reflexivity].
  - repeat split; [apply distinct_snoc; assumption|right; reflexivity].
Qed.

(** X27: the vertices of the polygon tool never hold the same coordinates
    twice: after any sequence of presses on a tool whose vertices are
    distinct they still are, the vertices held before are kept in front,
    and every vertex added is the position on the canvas of one of the
    presses, at most one for each press (the second press of a double click
    adds nothing).  The double click ends the drawing whether or not the
    tool is enabled or in draw mode: with a 2-D context and an element of
    non-zero size it dispatches one end-draw whose drawn object is the
    conversion of the vertices the tool holds, one converted vertex for each
    of them in their order, empties the vertices and leaves the drawing
    state, the other fields staying as they are. *)
Theorem polygon_presses (this : PolygonTool.t) (events : list PointerEvent) :
  PolygonTool.distinct (PolygonTool.vertices this) ->
  PolygonTool.distinct
    (PolygonTool.vertices (fold_left PolygonTool.onPointerDown events this))
  /\ (exists added,
        PolygonTool.vertices (fold_left PolygonTool.onPointerDown events this)
        = PolygonTool.vertices this ++ added
        /\ (List.length added <= List.length events)%nat
        /\ forall v, In v added ->
                     exists e, In e events /\ v = PolygonTool.getClientOffset this e)
  /\ (PolygonTool.hasContext this = true ->
      ~ width (PolygonTool.baseElement this) == 0 ->
      ~ height (PolygonTool.baseElement this) == 0 ->
      exists polygonNDC,
        pixelCoordsListToNDC (PolygonTool.baseElement this) (PolygonTool.vertices this)
        = Some polygonNDC
        /\ List.length polygonNDC = List.length (PolygonTool.vertices this)
        /\ PolygonTool.finish this
           = Some (PolygonTool.mk (PolygonTool.baseElement this)
                     (PolygonTool.offsetLeft this) (PolygonTool.offsetTop this)
                     (PolygonTool.mode this) (PolygonTool.enabled this)
                     (PolygonTool.hasContext this) false [],
                   [PolygonTool.end_draw polygonNDC])).
Proof.
  intros Hd. split; [|split].
  - revert this Hd. induction events as [|e rest IH]; intros this Hd; [exact Hd|].
    cbn [fold_left]. apply IH. apply polygon_press. exact Hd.
  - revert this Hd. induction events as [|e rest IH]; intros this Hd.
    + exists []. cbn [fold_left]. rewrite app_nil_r.
      split; [reflexivity|]. split; [cbn; lia|]. intros v [].
    + cbn [fold_left].
      destruct (polygon_press this e Hd) as [Hd' [Hleft [Htop Hstep]]].
      destruct (IH _ Hd') as [added [Hv [Hlen Hfrom]]].
      assert (Hoffset : forall e', PolygonTool.getClientOffset
                                     (PolygonTool.onPointerDown this e) e'
                                   = PolygonTool.getClientOffset this e').
      { intros e'. unfold PolygonTool.getClientOffset. rewrite Hleft, Htop. reflexivity. }
      destruct Hstep as [Hsame|Hpush].
      * exists added. rewrite Hv, Hsame. split; [reflexivity|].
        split; [cbn; lia|]. intros v Hin.
        destruct (Hfrom v Hin) as [e' [He' ->]].
        exists e'. split; [right; exact He'|apply Hoffset].
      * exists (PolygonTool.getClientOffset this e :: added).
        rewrite Hv, Hpush, <- app_assoc. split; [reflexivity|].
        split; [cbn; lia|]. intros v [<-|Hin].
        -- exists e. split; [left; reflexivity|reflexivity].
        -- destruct (Hfrom v Hin) as [e' [He' ->]].
           exists e'. split; [right; exact He'|apply Hoffset].
  - intros Hctx Hw Hh. unfold PolygonTool.finish. rewrite Hctx. cbn [negb].
    destruct (pixelCoordsListToNDC_defined (PolygonTool.baseElement this)
                (PolygonTool.vertices this) Hw Hh) as [ndc [Hndc Hlen]].
    exists ndc. rewrite Hndc. cbn [bind].
    split; [reflexivity|]. split; [exact Hlen|reflexivity].
Qed.

Lemma curvature_moves (this : Curvature.t) (moves : list PointerEvent) :
  Curvature.enabled this = true -> Curvature.isDrawing this = true ->
  fold_left Curvature.onPointerMove moves this
  = Curvature.mk (Curvature.baseElement this) (Curvature.offsetLeft this)
      (Curvature.offsetTop this) (Curvature.mode this) true
      (Curvature.hasContext this) true
      (Curvature.vertices this ++ map (Curvature.getClientOffset this) moves).
Proof.
  revert this. induction moves as [|e rest IH]; intros this Hen Hdraw.
  - cbn [fold_left map]. rewrite app_nil_r. destruct this; cbn in *. subst. reflexivity.
  - cbn [fold_left map]. rewrite IH.
    + unfold Curvature.onPointerMove. rewrite Hen, Hdraw. cbn [negb orb].
      cbn [Curvature.baseElement Curvature.offsetLeft Curvature.offsetTop Curvature.mode
           Curvature.hasContext Curvature.vertices].
      rewrite <- app_assoc. reflexivity.
    + unfold Curvature.onPointerMove. rewrite Hen, Hdraw. reflexivity.
    + unfold Curvature.onPointerMove. rewrite Hen, Hdraw. reflexivity.
Qed.

(** X28: a stroke of the curvature tool.  With the tool enabled in draw
    mode, a 2-D context and an element of non-zero size, a press of the
    primary button, any number of moves and a release of the primary button
    dispatch one end-draw whose drawn object has one converted vertex for
    the press and one for each move, after those the tool already held, in
    that order; afterwards the tool holds no vertex and is not drawing.
    Moves on a tool that is not drawing change nothing. *)
Theorem curvature_stroke (this : Curvature.t) (down up : PointerEvent)
    (moves : list PointerEvent) :
  Curvature.enabled this = true -> Curvature.mode this = "draw"%string ->
  Curvature.hasContext this = true ->
  ~ width (Curvature.baseElement this) == 0 ->
  ~ height (Curvature.baseElement this) == 0 ->
  button down = 0%Z -> button up = 0%Z ->
  (exists curveNDC final,
     pixelCoordsListToNDC (Curvature.baseElement this)
       (Curvature.vertices this
        ++ Curvature.getClientOffset this down
           :: map (Curvature.getClientOffset this) moves)
     = Some curveNDC
     /\ List.length curveNDC
        = (List.length (Curvature.vertices this) + 1 + List.length moves)%nat
     /\ Curvature.onPointerUp
          (fold_left Curvature.onPointerMove moves (Curvature.onPointerDown this down)) up
        = Some (final, [Curvature.end_draw curveNDC])
     /\ Curvature.vertices final = []
     /\ Curvature.isDrawing final = false)
  /\ (Curvature.isDrawing this = false ->
      fold_left Curvature.onPointerMove moves this = this).
Proof.
  intros Hen Hmode Hctx Hw Hh Hdown Hup. split.
  - destruct (pixelCoordsListToNDC_defined (Curvature.baseElement this)
                (Curvature.vertices this
                 ++ Curvature.getClientOffset this down
                    :: map (Curvature.getClientOffset this) moves) Hw Hh)
      as [ndc [Hndc Hlen]].
    exists ndc.
    assert (Hpress : Curvature.onPointerDown this down
                     = Curvature.mk (Curvature.baseElement this)
                         (Curvature.offsetLeft this) (Curvature.offsetTop this)
                         (Curvature.mode this) (Curvature.enabled this)
                         (Curvature.hasContext this) true
                         (Curvature.vertices this
                          ++ [Curvature.getClientOffset this down])).
    { unfold Curvature.onPointerDown. rewrite Hen, Hmode, Hctx, Hdown. reflexivity. }
    assert (Hdrawn : fold_left Curvature.onPointerMove moves
                       (Curvature.onPointerDown this down)
                     = Curvature.mk (Curvature.baseElement this)
                         (Curvature.offsetLeft this) (Curvature.offsetTop this)
                         (Curvature.mode this) true (Curvature.hasContext this) true
                         (Curvature.vertices this
                          ++ Curvature.getClientOffset this down
                             :: map (Curvature.getClientOffset this) moves)).
    { rewrite Hpress, curvature_moves by (cbn; assumption || reflexivity).
      cbn [Curvature.baseElement Curvature.offsetLeft Curvature.offsetTop Curvature.mode
           Curvature.hasContext Curvature.vertices].
      rewrite <- app_assoc. reflexivity. }
    rewrite Hdrawn. unfold Curvature.onPointerUp, Curvature.finish.
    cbn [Curvature.baseElement Curvature.offsetLeft Curvature.offsetTop Curvature.mode
         Curvature.hasContext Curvature.vertices Curvature.enabled].
    rewrite Hmode, Hctx, Hup. cbn [negb orb String.eqb Ascii.eqb Bool.eqb Z.eqb].
    rewrite Hndc. cbn [bind].
    eexists. split; [reflexivity|]. split.
    + rewrite Hlen, length_app. cbn [List.length]. rewrite length_map. lia.
    + split; [reflexivity|]. split; reflexivity.
  - intros Hidle. induction moves as [|e rest IH]; [reflexivity|].
    cbn [fold_left]. unfold Curvature.onPointerMove at 2. rewrite Hidle.
    rewrite Bool.orb_true_r. exact IH.
Qed.

End DrawingTools.

Lemma polygon_presses_witness :
  PolygonTool.vertices
    (fold_left PolygonTool.onPointerDown
       [ThreeUtils.mkPointer 0 0 100 100 0; ThreeUtils.mkPointer 0 0 100 100 0;
        ThreeUtils.mkPointer 0 0 300 200 0]
       PolygonTool.polygonTool)
  = [Vector2.mk 100 100; Vector2.mk 300 200]
  /\ PolygonTool.distinct
       (PolygonTool.vertices
          (fold_left PolygonTool.onPointerDown
             [ThreeUtils.mkPointer 0 0 100 100 0; ThreeUtils.mkPointer 0 0 100 100 0;
              ThreeUtils.mkPointer 0 0 300 200 0]
             PolygonTool.polygonTool)).
Proof.
  split; [vm_compute; reflexivity|].
  apply (polygon_presses PolygonTool.polygonTool).
  intros i j p q Hi. destruct i; discriminate Hi.
Defined.

Lemma curvature_stroke_witness :
  exists curveNDC final,
    Curvature.onPointerUp
      (fold_left Curvature.onPointerMove
         [ThreeUtils.mkPointer 0 0 200 150 0; ThreeUtils.mkPointer 0 0 400 300 0]
         (Curvature.onPointerDown Curvature.curvatureTool
            (ThreeUtils.mkPointer 0 0 100 100 0)))
      (ThreeUtils.mkPointer 0 0 400 300 0)
    = Some (final, [Curvature.end_draw curveNDC])
    /\ List.length curveNDC = 3%nat.
Proof.
  destruct (curvature_stroke Curvature.curvatureTool
              (ThreeUtils.mkPointer 0 0 100 100 0) (ThreeUtils.mkPointer 0 0 400 300 0)
              [ThreeUtils.mkPointer 0 0 200 150 0; ThreeUtils.mkPointer 0 0 400 300 0]
              eq_refl eq_refl eq_refl)
    as [[curveNDC [final [_ [Hlen [Hrun _]]]]] _];
    try reflexivity; try (intros H; vm_compute in H; discriminate H).
  exists curveNDC, final. split; [exact Hrun|exact Hlen].
Defined.

(** ** The range input *)

Section RangeInputs.

Import RangeInput.

(** X29: with a lower bound not above the upper bound and a stored value
    that is undefined or within the bounds, every change committed by the
    user leaves a stored value within the bounds and passes that value to
    [onchange]: the entered number itself when it is within the bounds, the
    bound it passed otherwise.  The setters of the bounds never adjust the
    stored value, and assigning the stored value again does not clamp
    it. *)
Theorem onInputChange_clamped (lo hi v : Q) (stored : option Q) :
  lo <= hi ->
  (forall s, stored = Some s -> lo <= s <= hi) ->
  (exists s',
     snd (onInputChange (mk (Some lo) (Some hi) stored) v) = Some s'
     /\ value (fst (onInputChange (mk (Some lo) (Some hi) stored) v)) = Some s'
     /\ min (fst (onInputChange (mk (Some lo) (Some hi) stored) v)) = Some lo
     /\ max (fst (onInputChange (mk (Some lo) (Some hi) stored) v)) = Some hi
     /\ lo <= s' <= hi
     /\ (lo <= v <= hi -> s' == v)
     /\ (v < lo -> s' == lo)
     /\ (hi < v -> s' == hi))
  /\ (forall bound,
        value (set_min (mk (Some lo) (Some hi) stored) bound) = stored
        /\ value (set_max (mk (Some lo) (Some hi) stored) bound) = stored)
  /\ (forall this s, value this = Some s -> set_value this s = this).
Proof.
  intros Hbounds Hstored. split; [|split].
  - unfold onInputChange, set_value. cbn [fst snd value min max].
    destruct stored as [s|]; cbn [differs].
    + destruct (Num.eqb s v) eqn:E; cbn [negb value min max].
      * apply Num_eqb_eq in E. pose proof (Hstored s eq_refl) as [H1 H2].
        exists s. repeat split; try assumption; intros; lra.
      * unfold clamp. eexists. split; [reflexivity|]. split; [reflexivity|].
        split; [reflexivity|]. split; [reflexivity|].
        num_cases_all; repeat split; intros; lra.
    + unfold clamp. eexists. split; [reflexivity|]. split; [reflexivity|].
      split; [reflexivity|]. split; [reflexivity|].
      num_cases_all; repeat split; intros; lra.
  - intros bound. unfold set_min, set_max. cbn [min max value].
    split.
    + destruct (differs (Some lo) bound); reflexivity.
    + destruct (differs (Some hi) bound); reflexivity.
  - intros this s Hs. unfold set_value. rewrite Hs. cbn [differs].
    rewrite Num_eqb_refl. reflexivity.
Qed.

Lemma onInputChange_clamped_witness :
  exists s',
    snd (onInputChange (mk (Some 0) (Some 10) (Some 5)) 12) = Some s' /\ s' == 10.
Proof.
  destruct (proj1 (onInputChange_clamped 0 10 12 (Some 5)
                     ltac:(discriminate)
                     ltac:(intros s H; injection H as <-; split; discriminate)))
    as [s' [Hs [_ [_ [_ [_ [_ [_ Hhi]]]]]]]].
  exists s'. split; [exact Hs|]. apply Hhi. reflexivity.
Defined.

(** A value left outside the bounds: raising the lower bound above the
    stored value keeps the value, and assigning the same value again keeps
    it too. *)
Example stale_value :
  set_value (set_min (mk (Some 0) (Some 10) (Some 5)) 8) 5
  = mk (Some 8) (Some 10) (Some 5).
Proof. reflexivity. Qed.

End RangeInputs.

(** ** The six coordinate formats *)

Section FormatNames.

Import CoordinateFormat.

(** X30: the name of each of the six formats spells what [toProjectCoords]
    does: its three letters name, for the first, second and third project
    coordinate in turn, the axis of [three.js] whose value is stored there.
    The six formats are all the orders of the three axes: any three distinct
    indices below 3 are the indices of exactly one of them, and no two
    formats share a name. *)
Theorem CoordinateFormat_names :
  (forall f v,
     In f CoordinateFormat ->
     exists a b c first second third,
       name f = String a (String b (String c EmptyString))
       /\ axisOf a v = Some first /\ axisOf b v = Some second /\ axisOf c v = Some third
       /\ toProjectCoords f v = Some (Vector3.mk first second third))
  /\ (forall i j k,
        (i < 3)%nat -> (j < 3)%nat -> (k < 3)%nat -> i <> j -> i <> k -> j <> k ->
        exists f,
          In f CoordinateFormat /\ xIdx f = i /\ yIdx f = j /\ zIdx f = k
          /\ forall g,
               In g CoordinateFormat -> xIdx g = i -> yIdx g = j -> zIdx g = k -> g = f)
  /\ NoDup (map name CoordinateFormat).
Proof.
  split; [|split].
  - intros f v Hin. cbn in Hin.
    destruct Hin as [<-|[<-|[<-|[<-|[<-|[<-|[]]]]]]];
      do 6 eexists; (split; [reflexivity|]); repeat split; reflexivity.
  - intros i j k Hi Hj Hk Hij Hik Hjk.
    assert (Hunique : forall f g,
               In f CoordinateFormat -> In g CoordinateFormat ->
               xIdx g = xIdx f -> yIdx g = yIdx f -> zIdx g = zIdx f -> g = f).
    { intros f g Hf Hg. cbn in Hf, Hg.
      destruct Hf as [<-|[<-|[<-|[<-|[<-|[<-|[]]]]]]];
        destruct Hg as [<-|[<-|[<-|[<-|[<-|[<-|[]]]]]]];
        cbn; intros; try reflexivity; discriminate. }
    destruct i as [|[|[|i]]]; try lia;
      destruct j as [|[|[|j]]]; try lia;
      destruct k as [|[|[|k]]]; try lia.
    all: first
      [ exists XYZ; split; [cbn; tauto|]; do 3 (split; [reflexivity|])
      | exists XZY; split; [cbn; tauto|]; do 3 (split; [reflexivity|])
      | exists YXZ; split; [cbn; tauto|]; do 3 (split; [reflexivity|])
      | exists YZX; split; [cbn; tauto|]; do 3 (split; [reflexivity|])
      | exists ZXY; split; [cbn; tauto|]; do 3 (split; [reflexivity|])
      | exists ZYX; split; [cbn; tauto|]; do 3 (split; [reflexivity|]) ].
    all: intros g Hg H1 H2 H3; apply Hunique; [cbn; tauto|exact Hg|assumption..].
  - cbn. repeat constructor; cbn; intros H;
      repeat (destruct H as [H|H]; [discriminate H|]); exact H.
Qed.

End FormatNames.
